(** * v0-ui-reviewer-cli: model dispatch, quota and capture-retry logic

    A shallow embedding of
    - [ModelFallback.getNextModel]   (the fallback order and its two loops),
    - [RateLimiter]                  (src/rate-limiter.ts),
    - [MultiModelAIService.chat]     (src/ai-service.ts),
    - [EnhancedScreenshotCapture.captureWithRetry] and its strategy tables,
    followed by the properties the specification states about them.

    Conventions.  JavaScript numbers that hold counters, indices and epoch
    milliseconds are integers in every run of the program and are modelled
    by [Z].  Arrays are lists.  Asynchronous functions run sequentially
    (one [await] after the other) and are modelled by a state-and-exception
    monad over the outside world: the quota file, whether its directory
    can be written, the clock and the log of network calls.  Console
    output and the logger are left out.

    Part I holds the definitions, Part II the lemmas and theorems. *)

From Stdlib Require Import ZArith List String Ascii Bool Lia Arith.
From Stdlib Require DecimalString.
From Equations Require Import Equations.
Import ListNotations.
Local Open Scope Z_scope.

(* ===================================================================== *)
(** * Part I: the program *)
(* ===================================================================== *)

(** ** Model identifiers (ai-service.ts, type [AIModel]) *)

Inductive AIModel : Set :=
| v0
| gpt_4
| gpt_4_turbo
| gpt_3_5_turbo
| o3_mini
| claude_3_opus
| claude_3_sonnet
| claude_3_haiku
| claude_sonnet_4.

Definition AIModel_eqb (a b : AIModel) : bool :=
  match a, b with
  | v0, v0 | gpt_4, gpt_4 | gpt_4_turbo, gpt_4_turbo
  | gpt_3_5_turbo, gpt_3_5_turbo | o3_mini, o3_mini
  | claude_3_opus, claude_3_opus | claude_3_sonnet, claude_3_sonnet
  | claude_3_haiku, claude_3_haiku | claude_sonnet_4, claude_sonnet_4 => true
  | _, _ => false
  end.

(** ** JavaScript values and helpers *)

Module Js.

(** An [Error] object; only its [message] is ever read. *)
Record Error : Set := mkError { message : string }.

(** How a call ends: [return a] or [throw e]. *)
Inductive Outcome (A : Type) : Type :=
| Returned (a : A)
| Thrown (e : Error).

Arguments Returned {A} a.
Arguments Thrown {A} e.

(** [`${n}`] for an integer [n]. *)
Definition numberToString (n : Z) : string :=
  DecimalString.NilZero.string_of_int (Z.to_int n).

(** [Math.ceil(a / b)] for integers [a] and [b > 0]. *)
Definition ceilDiv (a b : Z) : Z := - ((- a) / b).

(** [arr[i]] for a numeric index; [None] is [undefined]. *)
Definition get {A : Type} (arr : list A) (i : Z) : option A :=
  if i <? 0 then None else nth_error arr (Z.to_nat i).

(** [arr.length]. *)
Definition length {A : Type} (arr : list A) : Z :=
  Z.of_nat (List.length arr).

(** [arr.includes(m)] on an array of model identifiers. *)
Definition includes (arr : list AIModel) (m : AIModel) : bool :=
  existsb (AIModel_eqb m) arr.

(** [arr.indexOf(m)]: the first position of [m], or [-1]. *)
Fixpoint indexOfFrom (m : AIModel) (arr : list AIModel) (i : Z) : Z :=
  match arr with
  | [] => -1
  | x :: rest => if AIModel_eqb x m then i else indexOfFrom m rest (i + 1)
  end.

Definition indexOf (arr : list AIModel) (m : AIModel) : Z :=
  indexOfFrom m arr 0.

End Js.

(** ** ModelFallback *)

Module ModelFallback.
Import Js.

Definition fallbackOrder : list AIModel :=
  [ v0; gpt_4_turbo; claude_sonnet_4; gpt_4; claude_3_sonnet; o3_mini;
    claude_3_haiku ].

Section Scan.

(** The priority list is a parameter of the loops, so that what is proved
    about them does not lean on the seven entries above. *)
Variable order : list AIModel.
Variable availableModels : list AIModel.

(** [for (let i = start; i < stop; i++) {
       const nextModel = order[i]
       if (availableModels.includes(nextModel)) return nextModel
     }]
    [None] says that the loop ran to its end without returning. *)
Equations? scan (i stop : Z) : option AIModel by wf (Z.to_nat (stop - i)) lt :=
  scan i stop with Z_lt_dec i stop => {
    | left _ with get order i => {
        | Some nextModel with includes availableModels nextModel => {
            | true := Some nextModel;
            | false := scan (i + 1) stop };
        | None := scan (i + 1) stop };
    | right _ := None }.
Proof. all: lia. Qed.

Definition getNextModelIn (currentModel : AIModel) : option AIModel :=
  let currentIndex := indexOf order currentModel in
  match scan (currentIndex + 1) (length order) with
  | Some nextModel => Some nextModel
  | None =>
      match scan 0 currentIndex with
      | Some nextModel => Some nextModel
      | None => None
      end
  end.

End Scan.

(** [static getNextModel(currentModel, availableModels)]. *)
Definition getNextModel (currentModel : AIModel)
  (availableModels : list AIModel) : option AIModel :=
  getNextModelIn fallbackOrder availableModels currentModel.

(** The specification's wording of the same search: the first available
    model strictly after the current one, else the first available model
    strictly before it. *)
Definition firstAvailable (availableModels : list AIModel)
  (candidates : list AIModel) : option AIModel :=
  find (includes availableModels) candidates.

Definition nextFallback_spec (before after availableModels : list AIModel)
  : option AIModel :=
  match firstAvailable availableModels after with
  | Some m => Some m
  | None => firstAvailable availableModels before
  end.

(** Two arrays that hold the same set of models. *)
Definition sameSet (a b : list AIModel) : Prop :=
  forall m, In m a <-> In m b.

(** Totality as the specification words it. *)
Definition total_as_specified (currentModel : AIModel)
  (availableModels : list AIModel) : Prop :=
  (availableModels <> [] /\ ~ sameSet availableModels [currentModel] ->
   exists m, getNextModel currentModel availableModels = Some m /\
             In m availableModels /\ m <> currentModel)
  /\
  (availableModels = [] \/ sameSet availableModels [currentModel] ->
   getNextModel currentModel availableModels = None).

End ModelFallback.

(** ** Quota data (rate-limiter.ts, interface [RateLimitData]) *)

(** The three quota families: ['v0' | 'openai' | 'anthropic']. *)
Inductive Service : Set :=
| service_v0
| service_openai
| service_anthropic.

Definition Service_eqb (a b : Service) : bool :=
  match a, b with
  | service_v0, service_v0
  | service_openai, service_openai
  | service_anthropic, service_anthropic => true
  | _, _ => false
  end.

Definition serviceName (service : Service) : string :=
  match service with
  | service_v0 => "v0"
  | service_openai => "openai"
  | service_anthropic => "anthropic"
  end%string.

Record ServiceData : Set := mkServiceData { count : Z; resetAt : Z }.

Record RateLimitData : Set := mkRateLimitData {
  data_v0 : ServiceData;
  data_openai : ServiceData;
  data_anthropic : ServiceData
}.

(** [data[service]]. *)
Definition dataOf (data : RateLimitData) (service : Service) : ServiceData :=
  match service with
  | service_v0 => data_v0 data
  | service_openai => data_openai data
  | service_anthropic => data_anthropic data
  end.

(** [data] after an assignment to a field of [data[service]]: the entry is
    an object shared with [data], so writing to it writes to [data]. *)
Definition withData (data : RateLimitData) (service : Service)
  (entry : ServiceData) : RateLimitData :=
  match service with
  | service_v0 =>
      mkRateLimitData entry (data_openai data) (data_anthropic data)
  | service_openai =>
      mkRateLimitData (data_v0 data) entry (data_anthropic data)
  | service_anthropic =>
      mkRateLimitData (data_v0 data) (data_openai data) entry
  end.

(** What [~/.v0-reviewer/rate-limits.json] holds: nothing ([readFile]
    throws), text that [JSON.parse] rejects, the JSON of a
    [RateLimitData] as [saveData] wrote it, or JSON that parses to a value
    with none of the three family entries: [null] ([isNull = true]), or
    [{}], a number, a string, an array ([isNull = false]).  A file that
    holds some of the entries but not all, or entries whose fields are not
    numbers, is not represented. *)
Inductive QuotaFile : Set :=
| Missing
| Unparseable
| Stored (data : RateLimitData)
| Entryless (isNull : bool).

(** What [JSON.parse] hands to the callers of [loadData]: an object with
    the three entries, or a value without them. *)
Inductive QuotaData : Set :=
| Entries (data : RateLimitData)
| NoEntries (isNull : bool).

(** ** Chat messages and options (ai-service.ts, prompts.ts) *)

Inductive Role : Set := system | user | assistant.

Definition isSystem (r : Role) : bool :=
  match r with system => true | _ => false end.

Record ChatMessage : Set := mkChatMessage {
  role : Role;
  content : string;
  imageUrl : option string
}.

Module Prompts.

Inductive Device : Set := desktop | mobile.

Record PromptVariables : Set := mkPromptVariables {
  url : option string;
  image_path : option string;
  context : option string;
  device : option Device;
  model : option AIModel;
  deep_dive : option bool;
  extract_styles : option bool;
  grid_size : option Z;
  batch_id : option string
}.

End Prompts.

(** [ChatOptions]; [temperature], a fraction that only travels to the
    request body, is left out. *)
Record ChatOptions : Set := mkChatOptions {
  model : option AIModel;
  maxTokens : option Z;
  systemPrompt : option string;
  promptVariables : option Prompts.PromptVariables
}.

(** The image part of a message in a request body: an [image_url] part
    (v0, OpenAI) or a base64 [image] source (Anthropic). *)
Inductive ImagePart : Set :=
| image_url (url : string)
| image_base64 (media_type data : string).

(** A message as a request body carries it: its role, its text and, when
    the content is the two-part array, the image part. *)
Record RequestMessage : Set := mkRequestMessage {
  sentRole : Role;
  sentText : string;
  sentImage : option ImagePart
}.

(** One request to a vendor's API: the family it goes to, the vendor's
    name of the model, the separate system text (Anthropic only) and the
    messages of the body in the order they are sent. *)
Record NetworkCall : Set := mkNetworkCall {
  endpoint : Service;
  remoteModel : string;
  systemText : option string;
  sent : list RequestMessage
}.

(** ** The outside world and the monad of asynchronous code *)

(** Whether the quota directory can be written is a state of the machine:
    no call of the program changes it, so it is the same for every write
    of a run. *)

Record World : Set := mkWorld {
  file : QuotaFile;           (* the quota file on disk *)
  clockReads : nat;           (* how many times [Date.now()] was read *)
  network : list NetworkCall; (* the requests made so far, oldest first *)
  disk : option Js.Error      (* the error with which [fs.mkdir] or
                                 [fs.writeFile] rejects, when the quota
                                 directory cannot be written *)
}.

Definition M (A : Type) : Type := World -> Js.Outcome A * World.

Definition ret {A : Type} (a : A) : M A :=
  fun w => (Js.Returned a, w).

Definition throw {A : Type} (e : Js.Error) : M A :=
  fun w => (Js.Thrown e, w).

Definition bind {A B : Type} (c : M A) (k : A -> M B) : M B :=
  fun w =>
    match c w with
    | (Js.Returned a, w') => k a w'
    | (Js.Thrown e, w') => (Js.Thrown e, w')
    end.

(** [try { body } catch (e) { handler(e) }]: what [body] did to the world
    before it threw stays done. *)
Definition tryCatch {A : Type} (body : M A) (handler : Js.Error -> M A) : M A :=
  fun w =>
    match body w with
    | (Js.Returned a, w') => (Js.Returned a, w')
    | (Js.Thrown e, w') => handler e w'
    end.

Declare Scope async_scope.
Delimit Scope async_scope with async.
Notation "x <- c ;; k" := (bind c (fun x => k))
  (at level 61, c at next level, right associativity) : async_scope.
Notation "c ;; k" := (bind c (fun _ => k))
  (at level 61, right associativity) : async_scope.

(** ** RateLimiter (rate-limiter.ts) *)

Module RateLimiter.
Import Js.
Local Open Scope async_scope.

Record Limit : Set := mkLimit { daily : Z; window : Z }.

Definition limits (service : Service) : Limit :=
  match service with
  | service_v0 => mkLimit 200 (24 * 60 * 60 * 1000)
  | service_openai => mkLimit 10000 (60 * 1000)
  | service_anthropic => mkLimit 1000 (60 * 1000)
  end.

(** The value [checkLimit] resolves to; [resetIn = None] is [undefined]. *)
Record LimitStatus : Set := mkLimitStatus {
  allowed : bool;
  remaining : Z;
  resetIn : option Z
}.

Section Clock.

(** [clock k] is what the [k]-th reading of [Date.now()] returns. *)
Variable clock : nat -> Z.

Definition Date_now : M Z :=
  fun w =>
    (Returned (clock (clockReads w)),
     mkWorld (file w) (S (clockReads w)) (network w) (disk w)).

(** [JSON.parse(await fs.readFile(dataPath, 'utf-8'))]. *)
Definition readAndParse : M QuotaData :=
  fun w =>
    match file w with
    | Stored data => (Returned (Entries data), w)
    | Entryless isNull => (Returned (NoEntries isNull), w)
    | Missing =>
        (Thrown (mkError "ENOENT: no such file or directory"), w)
    | Unparseable =>
        (Thrown (mkError "Unexpected token in JSON"), w)
    end.

(** The object the [catch] block of [loadData] builds ("Initialize with
    empty data"). *)
Definition emptyData (now : Z) : RateLimitData :=
  mkRateLimitData
    (mkServiceData 0 (now + window (limits service_v0)))
    (mkServiceData 0 (now + window (limits service_openai)))
    (mkServiceData 0 (now + window (limits service_anthropic))).

Definition loadData : M QuotaData :=
  tryCatch readAndParse
    (fun _ =>
       now <- Date_now ;;
       ret (Entries (emptyData now))).

(** [await fs.mkdir(...)] then [await fs.writeFile(...)], with no [catch]:
    when the directory cannot be written the rejection goes to the caller
    and the file stays as it was. *)
Definition saveData (data : RateLimitData) : M unit :=
  fun w =>
    match disk w with
    | Some error => (Thrown error, w)
    | None =>
        (Returned tt,
         mkWorld (Stored data) (clockReads w) (network w) (disk w))
    end.

(** The [TypeError] of reading [field] of [data[service]] when the parsed
    value has no such entry; on [null] it is the reading of [data[service]]
    itself that throws. *)
Definition noEntry (isNull : bool) (service : Service) (field : string)
  : Error :=
  if isNull then
    mkError ("Cannot read properties of null (reading '" ++
             serviceName service ++ "')")%string
  else
    mkError ("Cannot read properties of undefined (reading '" ++
             field ++ "')")%string.

Definition checkLimit (service : Service) : M LimitStatus :=
  data <- loadData ;;
  now <- Date_now ;;
  match data with
  | NoEntries isNull => throw (noEntry isNull service "resetAt")
  | Entries data =>
      let serviceData := dataOf data service in
      serviceData <-
        (if resetAt serviceData <? now then
           let serviceData :=
             mkServiceData 0 (now + window (limits service)) in
           saveData (withData data service serviceData) ;;
           ret serviceData
         else ret serviceData) ;;
      let limit := daily (limits service) in
      let remaining := Z.max 0 (limit - count serviceData) in
      let allowed := 0 <? remaining in
      ret (mkLimitStatus allowed remaining
             (if allowed then None
              else Some (ceilDiv (resetAt serviceData - now) 1000)))
  end.

Definition increment (service : Service) : M unit :=
  data <- loadData ;;
  match data with
  | NoEntries isNull => throw (noEntry isNull service "count")
  | Entries data =>
      let serviceData := dataOf data service in
      saveData
        (withData data service
           (mkServiceData (count serviceData + 1) (resetAt serviceData)))
  end.

Definition getRemainingQuota (service : Service) : M Z :=
  status <- checkLimit service ;;
  ret (remaining status).

End Clock.

(** Shorthands used to state what the calls above do to the world: the
    world after one reading of the clock, the world after [saveData], and
    the answer of [checkLimit] for an entry it holds at time [now]. *)
Definition ticked (w : World) : World :=
  mkWorld (file w) (S (clockReads w)) (network w) (disk w).

Definition saved (data : RateLimitData) (w : World) : World :=
  mkWorld (Stored data) (clockReads w) (network w) (disk w).

Definition statusOf (service : Service) (entry : ServiceData) (now : Z)
  : LimitStatus :=
  let remaining := Z.max 0 (daily (limits service) - count entry) in
  mkLimitStatus (0 <? remaining) remaining
    (if 0 <? remaining then None
     else Some (ceilDiv (resetAt entry - now) 1000)).

Definition formatResetTime (seconds : Z) : string :=
  if seconds <? 60 then (numberToString seconds ++ "s")%string
  else if seconds <? 3600 then (numberToString (ceilDiv seconds 60) ++ "m")%string
  else (numberToString (ceilDiv seconds 3600) ++ "h")%string.

End RateLimiter.

(** ** MultiModelAIService (ai-service.ts) *)

Module MultiModelAIService.
Import Js.
Local Open Scope async_scope.
Local Open Scope string_scope.

(** The fields of the service object that [chat] reads.  [openai] and
    [anthropic] say whether the vendor's client object was created. *)
Record t : Set := mkService {
  v0ApiKey : option string;
  openai : bool;
  anthropic : bool;
  defaultModel : AIModel;
  verbose : bool
}.

(** Truthiness of an optional string: [undefined] and [''] are falsy. *)
Definition truthy (s : option string) : bool :=
  match s with
  | Some text => negb (String.eqb text "")
  | None => false
  end.

Definition getServiceForModel (model : AIModel) : Service :=
  match model with
  | v0 => service_v0
  | gpt_4 | gpt_4_turbo | gpt_3_5_turbo | o3_mini => service_openai
  | claude_3_opus | claude_3_sonnet | claude_3_haiku | claude_sonnet_4 =>
      service_anthropic
  end.

(** [getAvailableModels()]: the models whose vendor has a key configured,
    in the order the method pushes them. *)
Definition getAvailableModels (this : t) : list AIModel :=
  (if truthy (v0ApiKey this) then [v0] else []) ++
  (if openai this then [gpt_4; gpt_4_turbo; gpt_3_5_turbo; o3_mini] else []) ++
  (if anthropic this
   then [claude_3_opus; claude_3_sonnet; claude_3_haiku; claude_sonnet_4]
   else []).

(** [s.startsWith(prefix)], with what follows the prefix. *)
Fixpoint stripPrefix (prefix s : string) : option string :=
  match prefix, s with
  | EmptyString, _ => Some s
  | String p prefix', String c s' =>
      if Ascii.eqb p c then stripPrefix prefix' s' else None
  | String _ _, EmptyString => None
  end.

(** [\w]: a letter, a digit or the underscore. *)
Definition isWordChar (c : ascii) : bool :=
  let n := nat_of_ascii c in
  (((48 <=? n) && (n <=? 57)) || ((65 <=? n) && (n <=? 90)) ||
   ((97 <=? n) && (n <=? 122)) || (n =? 95))%nat.

(** [.] matches every character but a line terminator; strings are
    sequences of 8-bit characters, among which these are LF and CR. *)
Definition isLineTerminator (c : ascii) : bool :=
  ((nat_of_ascii c =? 10) || (nat_of_ascii c =? 13))%nat.

Fixpoint allChars (p : ascii -> bool) (s : string) : bool :=
  match s with
  | EmptyString => true
  | String c rest => p c && allChars p rest
  end.

(** The longest run of word characters at the head of [s], and the rest:
    what [(\w+)] takes when a character that is not a word character
    follows in the pattern. *)
Fixpoint takeWord (s : string) : string * string :=
  match s with
  | EmptyString => (EmptyString, EmptyString)
  | String c rest =>
      if isWordChar c then
        let (word, rest') := takeWord rest in (String c word, rest')
      else (EmptyString, s)
  end.

(** [url.match(/^data:image\/(\w+);base64,(.+)$/)]: the two groups of a
    match, [None] for [null]. *)
Definition base64Match (url : string) : option (string * string) :=
  match stripPrefix "data:image/" url with
  | None => None
  | Some rest =>
      let (kind, rest) := takeWord rest in
      if String.eqb kind "" then None
      else
        match stripPrefix ";base64," rest with
        | None => None
        | Some data =>
            if String.eqb data "" then None
            else if allChars (fun c => negb (isLineTerminator c)) data
                 then Some (kind, data)
                 else None
        end
  end.

Definition isUser (r : Role) : bool :=
  match r with user => true | _ => false end.

(** The [map] callback of [chatWithV0]: an image part for every message
    with an image. *)
Definition v0Message (msg : ChatMessage) : RequestMessage :=
  match imageUrl msg with
  | Some url =>
      if truthy (imageUrl msg) then
        mkRequestMessage (role msg) (content msg) (Some (image_url url))
      else mkRequestMessage (role msg) (content msg) None
  | None => mkRequestMessage (role msg) (content msg) None
  end.

(** The [map] callback of [chatWithOpenAI]: an image part for user
    messages only. *)
Definition openaiMessage (msg : ChatMessage) : RequestMessage :=
  match imageUrl msg with
  | Some url =>
      if truthy (imageUrl msg) && isUser (role msg) then
        mkRequestMessage user (content msg) (Some (image_url url))
      else mkRequestMessage (role msg) (content msg) None
  | None => mkRequestMessage (role msg) (content msg) None
  end.

(** The [map] callback of [chatWithClaude]: an image part only for an
    image given as a base64 data URL. *)
Definition claudeMessage (msg : ChatMessage) : RequestMessage :=
  match imageUrl msg with
  | Some url =>
      if truthy (imageUrl msg) &&
         match stripPrefix "data:image" url with
         | Some _ => true
         | None => false
         end
      then
        match base64Match url with
        | Some (kind, data) =>
            mkRequestMessage (role msg) (content msg)
              (Some (image_base64 ("image/" ++ kind) data))
        | None => mkRequestMessage (role msg) (content msg) None
        end
      else mkRequestMessage (role msg) (content msg) None
  | None => mkRequestMessage (role msg) (content msg) None
  end.

Section Dispatch.

Variable clock : nat -> Z.

(** The vendors' answer to a request, given the requests made before it:
    the extracted response text, or the error the transport or the API
    raised. *)
Variable api : list NetworkCall -> NetworkCall -> Outcome string.

(** The three prompt templates of prompts.ts, whose text is not modelled. *)
Variable getOpenAIPrompt : Prompts.PromptVariables -> string.
Variable getClaudePrompt : Prompts.PromptVariables -> string.
Variable getV0Prompt : Prompts.PromptVariables -> string.

(** [SystemPrompts.getPromptForModel]; models without a case of their own
    take the [default] branch. *)
Definition getPromptForModel (model : AIModel)
  (variables : Prompts.PromptVariables) : string :=
  match model with
  | gpt_4 | gpt_4_turbo | gpt_3_5_turbo => getOpenAIPrompt variables
  | claude_3_opus | claude_3_sonnet | claude_3_haiku => getClaudePrompt variables
  | v0 => getV0Prompt variables
  | _ => getOpenAIPrompt variables
  end.

(** Send one request and record it. *)
Definition request (call : NetworkCall) : M string :=
  fun w =>
    (api (network w) call,
     mkWorld (file w) (clockReads w) (network w ++ [call]) (disk w)).

Definition chatWithV0 (this : t) (messages : list ChatMessage)
  (options : ChatOptions) : M string :=
  if negb (truthy (v0ApiKey this)) then
    throw (mkError "V0 API key not configured")
  else
    let v0Messages := map v0Message messages in
    request (mkNetworkCall service_v0 "v0-1.0-md" None v0Messages).

Definition chatWithOpenAI (this : t) (messages : list ChatMessage)
  (options : ChatOptions) : M string :=
  if negb (openai this) then
    throw (mkError "OpenAI API key not configured")
  else
    let model :=
      match model options with
      | Some gpt_4 => "gpt-4"
      | Some gpt_4_turbo => "gpt-4-turbo-preview"
      | Some o3_mini => "gpt-4o-mini"
      | _ => "gpt-3.5-turbo"
      end in
    let openaiMessages := map openaiMessage messages in
    request (mkNetworkCall service_openai model None openaiMessages).

Definition chatWithClaude (this : t) (messages : list ChatMessage)
  (options : ChatOptions) : M string :=
  if negb (anthropic this) then
    throw (mkError "Anthropic API key not configured")
  else
    let model :=
      match model options with
      | Some claude_3_opus => "claude-3-opus-20240229"
      | Some claude_3_sonnet => "claude-3-sonnet-20240229"
      | Some claude_sonnet_4 => "claude-3-5-sonnet-20241022"
      | _ => "claude-3-haiku-20240307"
      end in
    let systemPrompt :=
      match find (fun m => isSystem (role m)) messages with
      | Some m =>
          if String.eqb (content m) "" then systemPrompt options
          else Some (content m)
      | None => systemPrompt options
      end in
    let claudeMessages :=
      map claudeMessage
        (filter (fun msg => negb (isSystem (role msg))) messages) in
    request (mkNetworkCall service_anthropic model systemPrompt claudeMessages).

(** The block of [chat] that adds the system prompt:
    [if (options.promptVariables && !options.systemPrompt) {
       messages = [{ role: 'system', content: systemPrompt },
                   ...messages.filter(m => m.role !== 'system')] }]. *)
Definition prepareMessages (model : AIModel) (messages : list ChatMessage)
  (options : ChatOptions) : list ChatMessage :=
  match promptVariables options with
  | Some variables =>
      if truthy (systemPrompt options) then messages
      else
        let systemPrompt := getPromptForModel model variables in
        mkChatMessage system systemPrompt None
          :: filter (fun m => negb (isSystem (role m))) messages
  | None => messages
  end.

(** The [switch (model)] of [chat]; its [default] branch is out of reach
    of the nine models. *)
Definition invokeBackend (this : t) (model : AIModel)
  (messages : list ChatMessage) (options : ChatOptions) : M string :=
  match model with
  | v0 => chatWithV0 this messages options
  | gpt_4 | gpt_4_turbo | gpt_3_5_turbo | o3_mini =>
      chatWithOpenAI this messages options
  | claude_3_opus | claude_3_sonnet | claude_3_haiku | claude_sonnet_4 =>
      chatWithClaude this messages options
  end.

(** [options.model || this.defaultModel]. *)
Definition resolveModel (this : t) (options : ChatOptions) : AIModel :=
  match model options with
  | Some m => m
  | None => defaultModel this
  end.

Definition rateLimitExceeded (service : Service) (resetIn : option Z) : Error :=
  let resetTime :=
    match resetIn with
    | Some seconds => RateLimiter.formatResetTime seconds
    | None => "NaNh"
    end in
  mkError ("Rate limit exceeded for " ++ serviceName service ++
           ". Resets in " ++ resetTime ++
           ". Consider using a different model.").

Definition chat (this : t) (messages : list ChatMessage)
  (options : ChatOptions) : M string :=
  let model := resolveModel this options in
  let service := getServiceForModel model in
  status <- RateLimiter.checkLimit clock service ;;
  if negb (RateLimiter.allowed status) then
    throw (rateLimitExceeded service (RateLimiter.resetIn status))
  else
    let messages := prepareMessages model messages options in
    tryCatch
      (result <- invokeBackend this model messages options ;;
       RateLimiter.increment clock service ;;
       ret result)
      (fun error => throw error).

(** What the program does to the quota file: it dispatches chats and asks
    for the remaining quota. *)
Inductive Operation : Set :=
| op_chat (this : t) (messages : list ChatMessage) (options : ChatOptions)
| op_checkLimit (service : Service)
| op_getRemainingQuota (service : Service).

Definition perform (op : Operation) (w : World) : World :=
  match op with
  | op_chat this messages options => snd (chat this messages options w)
  | op_checkLimit service => snd (RateLimiter.checkLimit clock service w)
  | op_getRemainingQuota service =>
      snd (RateLimiter.getRemainingQuota clock service w)
  end.

Definition performAll (ops : list Operation) (w : World) : World :=
  fold_left (fun w op => perform op w) ops w.

End Dispatch.

End MultiModelAIService.

(** ** Reading the quota file as the program does *)

(** The counter of a family as [loadData] reads it from the file: the
    stored count, or 0 when the file is missing or does not parse; a file
    without entries holds no counter, which counts as 0 here. *)
Definition storedCount (f : QuotaFile) (service : Service) : Z :=
  match f with
  | Stored data => count (dataOf data service)
  | Missing | Unparseable | Entryless _ => 0
  end.

(** No family is over its cap. *)
Definition withinCaps (f : QuotaFile) : Prop :=
  forall service,
    storedCount f service <= RateLimiter.daily (RateLimiter.limits service).

(** ** The specification's wording of three properties of the quota file *)

(** "No error is surfaced": a quota query and an increment both return. *)
Definition never_surfaces (clock : nat -> Z) (service : Service) (w : World)
  : Prop :=
  (exists status w',
     RateLimiter.checkLimit clock service w = (Js.Returned status, w')) /\
  (exists w',
     RateLimiter.increment clock service w = (Js.Returned tt, w')).

(** "Whenever the current time is past the stored reset timestamp, the
    next checkLimit call sets count to 0 and records a new reset timestamp
    equal to now plus the family's window length." *)
Definition resets_as_specified (clock : nat -> Z) (service : Service)
  (w : World) : Prop :=
  forall data,
    file w = Stored data ->
    let now := clock (clockReads w) in
    resetAt (dataOf data service) < now ->
    exists data',
      file (snd (RateLimiter.checkLimit clock service w)) = Stored data' /\
      dataOf data' service =
      mkServiceData 0 (now + RateLimiter.window (RateLimiter.limits service)).

(** "If the backend invocation fails, the counter is not incremented; if
    it succeeds, the counter is incremented by exactly 1": the counter of
    the resolved family before and after a [chat] that sent its request,
    by the vendor's answer to that request. *)
Definition counts_as_specified (clock : nat -> Z)
  (api : list NetworkCall -> NetworkCall -> Js.Outcome string)
  (getOpenAIPrompt getClaudePrompt getV0Prompt :
     Prompts.PromptVariables -> string)
  (this : MultiModelAIService.t) (messages : list ChatMessage)
  (options : ChatOptions) (w : World) : Prop :=
  let service :=
    MultiModelAIService.getServiceForModel
      (MultiModelAIService.resolveModel this options) in
  let w' :=
    snd (MultiModelAIService.chat clock api getOpenAIPrompt getClaudePrompt
           getV0Prompt this messages options w) in
  forall call,
    network w' = network w ++ [call] ->
    match api (network w) call with
    | Js.Thrown _ =>
        storedCount (file w') service = storedCount (file w) service
    | Js.Returned _ =>
        storedCount (file w') service = storedCount (file w) service + 1
    end.

(** ** EnhancedScreenshotCapture (the capture-retry loop) *)

Module EnhancedScreenshotCapture.
Import Js.

Inductive PuppeteerLifeCycleEvent : Set :=
| load
| domcontentloaded
| networkidle0
| networkidle2.

(** [waitUntil] is one event or an array of events. *)
Inductive WaitUntil : Set :=
| one (event : PuppeteerLifeCycleEvent)
| several (events : list PuppeteerLifeCycleEvent).

Record RetryStrategy : Set := mkRetryStrategy {
  name : string;
  waitTime : Z;
  browserArgs : option (list string);
  waitUntil : option WaitUntil
}.

(** [ScreenshotOptions], without the callback and the style fields that
    the retry loop only hands on. *)
Record ScreenshotOptions : Set := mkScreenshotOptions {
  fullPage : option bool;
  viewportWidth : option Z;
  viewportHeight : option Z;
  outputPath : option string;
  mobile : option bool;
  timeout : option Z;
  retries : option Z
}.

(** What one run of the loop does, in order: a call of [captureScreenshot]
    with its attempt index, strategy and outcome, or a pause of [ms]
    milliseconds. *)
Inductive Event : Type :=
| Attempt (attempt : Z) (strategy : RetryStrategy) (outcome : Outcome string)
| Waited (ms : Z).

Section Retry.

Variable DEFAULT_RETRY_STRATEGIES : list RetryStrategy.

(** [captureScreenshot] drives the browser; its outcome, which may depend
    on everything that happened before, is the environment's choice. *)
Variable captureScreenshot :
  list Event -> string -> ScreenshotOptions -> RetryStrategy -> Outcome string.

Variable url : string.
Variable options : ScreenshotOptions.
Variable retries : Z.

(** [DEFAULT_RETRY_STRATEGIES[Math.min(attempt, DEFAULT_RETRY_STRATEGIES.length - 1)]]. *)
Definition strategyFor (attempt : Z) : option RetryStrategy :=
  get DEFAULT_RETRY_STRATEGIES
      (Z.min attempt (length DEFAULT_RETRY_STRATEGIES - 1)).

(** The pause at the end of the [catch] block. *)
Definition backoff (attempt : Z) (log : list Event) : list Event :=
  if attempt <? retries then
    let waitTime := (attempt + 1) * 2000 in
    log ++ [Waited waitTime]
  else log.

Definition exhausted (lastError : option Error) : Error :=
  mkError ("Failed to capture screenshot after " ++
           numberToString (retries + 1) ++ " attempts. Last error: " ++
           match lastError with
           | Some e => message e
           | None => "undefined"
           end)%string.

(** [for (let attempt = 0; attempt <= retries; attempt++) { try ... catch ... }]
    followed by the final [throw].  Reading [strategy.name] of a missing
    strategy throws inside the [try], before the browser is touched. *)
Equations? attemptLoop (attempt : Z) (lastError : option Error)
  (log : list Event) : Outcome string * list Event
  by wf (Z.to_nat (retries + 1 - attempt)) lt :=
  attemptLoop attempt lastError log with Z_le_dec attempt retries => {
    | left _ with strategyFor attempt => {
        | Some strategy with captureScreenshot log url options strategy => {
            | Returned result :=
                (Returned result,
                 log ++ [Attempt attempt strategy (Returned result)]);
            | Thrown error :=
                attemptLoop (attempt + 1) (Some error)
                  (backoff attempt
                     (log ++ [Attempt attempt strategy (Thrown error)])) };
        | None :=
            attemptLoop (attempt + 1)
              (Some (mkError "Cannot read properties of undefined (reading 'name')"))
              (backoff attempt log) };
    | right _ := (Thrown (exhausted lastError), log) }.
Proof. all: lia. Qed.

End Retry.

(** [async captureWithRetry(url, options = {})], over a given strategy
    table; [retries] defaults to 3. *)
Definition captureWithRetryOver (strategies : list RetryStrategy)
  (captureScreenshot :
     list Event -> string -> ScreenshotOptions -> RetryStrategy -> Outcome string)
  (url : string) (options : ScreenshotOptions) : Outcome string * list Event :=
  let retries := match retries options with Some n => n | None => 3 end in
  attemptLoop strategies captureScreenshot url options retries 0 None [].

(** *** Reading a log *)

Definition isAttempt (ev : Event) : bool :=
  match ev with
  | Attempt _ _ _ => true
  | Waited _ => false
  end.

(** The attempts of a log, in order, and their indices. *)
Definition attemptsOf (log : list Event) : list Event :=
  filter isAttempt log.

Definition attemptIndices (log : list Event) : list Z :=
  flat_map (fun ev => match ev with
                      | Attempt attempt _ _ => [attempt]
                      | Waited _ => []
                      end) log.

(** The log is a record of calls: every attempt in it stands for a call
    of [captureScreenshot] with the logged strategy, made after the events
    before it, and carries the outcome of that call. *)
Definition answered
  (captureScreenshot :
     list Event -> string -> ScreenshotOptions -> RetryStrategy -> Outcome string)
  (url : string) (options : ScreenshotOptions) (log : list Event) : Prop :=
  forall n attempt strategy outcome,
    nth_error log n = Some (Attempt attempt strategy outcome) ->
    outcome = captureScreenshot (firstn n log) url options strategy.

(** No attempt of the log succeeded. *)
Definition failed (ev : Event) : Prop :=
  match ev with
  | Attempt _ _ (Returned _) => False
  | Attempt _ _ (Thrown _) => True
  | Waited _ => True
  end.

(** The error of the last failed attempt of the log, [init] if there is
    none: the value of the variable [lastError] after these events. *)
Definition lastErrorOf (init : option Error) (log : list Event) : option Error :=
  fold_left (fun acc ev => match ev with
                           | Attempt _ _ (Thrown e) => Some e
                           | _ => acc
                           end) log init.

(** The names of the strategies of the attempts, in order. *)
Definition strategyNames (log : list Event) : list string :=
  flat_map (fun ev => match ev with
                      | Attempt _ strategy _ => [name strategy]
                      | Waited _ => []
                      end) log.

(** An attempt was made with the strategy the table gives for its index. *)
Definition selectedFrom (strategies : list RetryStrategy) (ev : Event) : Prop :=
  match ev with
  | Attempt attempt strategy _ =>
      0 <= attempt /\
      get strategies (Z.min attempt (length strategies - 1)) = Some strategy
  | Waited _ => True
  end.

(** The longest settle wait of a table. *)
Definition longestWait (strategies : list RetryStrategy) : Z :=
  fold_right Z.max 0 (map waitTime strategies).

(** [strategies[strategies.length - 1]]. *)
Definition finalStrategy (strategies : list RetryStrategy) : option RetryStrategy :=
  get strategies (length strategies - 1).

(** The specification's description of the final strategy, as far as the
    settle wait goes: no strategy of the table waits longer. *)
Definition final_waits_longest (strategies : list RetryStrategy) : Prop :=
  exists final,
    finalStrategy strategies = Some final /\
    forall strategy, In strategy strategies ->
                     waitTime strategy <= waitTime final.

(** The first copy of the capture module (strategy table with the
    'Dynamic Content' and 'SPA Mode' entries). *)
Module Primary.

Definition DEFAULT_RETRY_STRATEGIES : list RetryStrategy :=
  [ mkRetryStrategy "Standard" 2000 None (Some (one networkidle0));
    mkRetryStrategy "Dynamic Content" 5000 None (Some (one domcontentloaded));
    mkRetryStrategy "SPA Mode" 8000 None (Some (one networkidle2));
    mkRetryStrategy "Force Load" 3000 None (Some (one load)) ].

Definition captureWithRetry := captureWithRetryOver DEFAULT_RETRY_STRATEGIES.

End Primary.

(** The second copy of the capture module (strategy table with the
    'Quick DOM', 'Extended Wait' and 'Minimal' entries). *)
Module Secondary.

Definition DEFAULT_RETRY_STRATEGIES : list RetryStrategy :=
  [ mkRetryStrategy "Standard" 2000 None (Some (one networkidle0));
    mkRetryStrategy "Quick DOM" 5000 None (Some (one domcontentloaded));
    mkRetryStrategy "Extended Wait" 10000 None
      (Some (several [domcontentloaded; networkidle2]));
    mkRetryStrategy "Minimal" 3000
      (Some ["--disable-images"%string; "--disable-javascript"%string])
      (Some (one load)) ].

Definition captureWithRetry := captureWithRetryOver DEFAULT_RETRY_STRATEGIES.

End Secondary.

End EnhancedScreenshotCapture.

(** ** More of MultiModelAIService, ModelFallback and the configuration *)

Module ServiceQueries.
Import Js MultiModelAIService.

(** [async isModelAvailable(model)]: [!!this.v0ApiKey], [!!this.openai],
    [!!this.anthropic] by the model's vendor. *)
Definition isModelAvailable (this : t) (model : AIModel) : bool :=
  match model with
  | v0 => truthy (v0ApiKey this)
  | gpt_4 | gpt_4_turbo | gpt_3_5_turbo | o3_mini => openai this
  | claude_3_opus | claude_3_sonnet | claude_3_haiku | claude_sonnet_4 =>
      anthropic this
  end.

Record Capabilities : Set := mkCapabilities {
  supportsImages : bool;
  maxTokens : Z
}.

Definition getModelCapabilities (model : AIModel) : Capabilities :=
  match model with
  | v0 => mkCapabilities true 4096
  | gpt_4 | gpt_4_turbo => mkCapabilities true 128000
  | o3_mini => mkCapabilities true 128000
  | gpt_3_5_turbo => mkCapabilities false 16385
  | claude_3_opus | claude_3_sonnet | claude_3_haiku | claude_sonnet_4 =>
      mkCapabilities true 200000
  end.

(** The error each [chatWith...] method throws when its vendor has no
    key. *)
Definition notConfigured (service : Service) : Error :=
  match service with
  | service_v0 => mkError "V0 API key not configured"
  | service_openai => mkError "OpenAI API key not configured"
  | service_anthropic => mkError "Anthropic API key not configured"
  end.

(** The vendor's name of the model a request asks for, by the family and
    by [options.model] as the three [chatWith...] methods read it. *)
Definition remoteNameFor (service : Service) (requested : option AIModel)
  : string :=
  match service with
  | service_v0 => "v0-1.0-md"
  | service_openai =>
      match requested with
      | Some gpt_4 => "gpt-4"
      | Some gpt_4_turbo => "gpt-4-turbo-preview"
      | Some o3_mini => "gpt-4o-mini"
      | _ => "gpt-3.5-turbo"
      end
  | service_anthropic =>
      match requested with
      | Some claude_3_opus => "claude-3-opus-20240229"
      | Some claude_3_sonnet => "claude-3-sonnet-20240229"
      | Some claude_sonnet_4 => "claude-3-5-sonnet-20241022"
      | _ => "claude-3-haiku-20240307"
      end
  end.

End ServiceQueries.

(** The configuration store (config manager) and the environment, as far
    as the service constructor and the key setup read and write them. *)
Module Config.
Import Js.

Record Store : Set := mkStore {
  apiKey : option string;
  openaiApiKey : option string;
  anthropicApiKey : option string;
  defaultAIModel : option AIModel
}.

(** [process.env]. *)
Record Env : Set := mkEnv {
  V0_API_KEY : option string;
  OPENAI_API_KEY : option string;
  ANTHROPIC_API_KEY : option string
}.

(** The keys the setup writes with [configManager.set(key, value)]. *)
Inductive Key : Set := key_apiKey | key_openaiApiKey | key_anthropicApiKey.

Definition set (store : Store) (key : Key) (value : string) : Store :=
  match key with
  | key_apiKey =>
      mkStore (Some value) (openaiApiKey store) (anthropicApiKey store)
        (defaultAIModel store)
  | key_openaiApiKey =>
      mkStore (apiKey store) (Some value) (anthropicApiKey store)
        (defaultAIModel store)
  | key_anthropicApiKey =>
      mkStore (apiKey store) (openaiApiKey store) (Some value)
        (defaultAIModel store)
  end.

(** [a || b] on optional strings: [a] when it is a non-empty string. *)
Definition orElse (a b : option string) : option string :=
  if MultiModelAIService.truthy a then a else b.

(** [getApiKey()] and [isFirstRun()] of the config manager. *)
Definition getApiKey (store : Store) (env : Env) : option string :=
  orElse (apiKey store) (V0_API_KEY env).

Definition isFirstRun (store : Store) (env : Env) : bool :=
  negb (MultiModelAIService.truthy (apiKey store)) &&
  negb (MultiModelAIService.truthy (V0_API_KEY env)).

(** [AIServiceConfig], the argument of the service constructor. *)
Record AIServiceConfig : Set := mkAIServiceConfig {
  cfg_openaiApiKey : option string;
  cfg_anthropicApiKey : option string;
  cfg_v0ApiKey : option string;
  cfg_defaultModel : option AIModel;
  cfg_verbose : option bool
}.

Definition emptyConfig : AIServiceConfig :=
  mkAIServiceConfig None None None None None.

(** [new MultiModelAIService(config)]: each key comes from the argument,
    else from the store, else from the environment; a vendor's client
    exists when its key is a non-empty string. *)
Definition newService (config : AIServiceConfig) (store : Store) (env : Env)
  : MultiModelAIService.t :=
  let openaiKey :=
    orElse (orElse (cfg_openaiApiKey config) (openaiApiKey store))
           (OPENAI_API_KEY env) in
  let anthropicKey :=
    orElse (orElse (cfg_anthropicApiKey config) (anthropicApiKey store))
           (ANTHROPIC_API_KEY env) in
  MultiModelAIService.mkService
    (orElse (orElse (cfg_v0ApiKey config) (apiKey store)) (V0_API_KEY env))
    (MultiModelAIService.truthy openaiKey)
    (MultiModelAIService.truthy anthropicKey)
    (match cfg_defaultModel config with
     | Some m => m
     | None => match defaultAIModel store with
               | Some m => m
               | None => v0
               end
     end)
    (match cfg_verbose config with
     | Some b => b
     | None => false
     end).

End Config.

(** The key setup ([checkAndSetupAPIKeys]). *)
Module Setup.
Import Js.

(** What a [validate] callback returns: [true], or the message to show. *)
Inductive Validation : Set :=
| valid
| invalid (message : string).

(** [input.startsWith(prefix)]. *)
Definition startsWith (input prefix : string) : bool :=
  String.prefix prefix input.

(** [if (!input) return true; return input.startsWith(p) || message]. *)
Definition validateKey (prefix message input : string) : Validation :=
  if String.eqb input "" then valid
  else if startsWith input prefix then valid
  else invalid message.

(** The prefix between double quotes, as the messages show it. *)
Definition quoted (s : string) : string :=
  let quote := String (Ascii.ascii_of_nat 34) EmptyString in
  (quote ++ s ++ quote)%string.

Definition validateV0 : string -> Validation :=
  validateKey "v0_" ("V0 API keys should start with " ++ quoted "v0_").

Definition validateOpenAI : string -> Validation :=
  validateKey "sk-" ("OpenAI API keys should start with " ++ quoted "sk-").

Definition validateAnthropic : string -> Validation :=
  validateKey "sk-ant-"
    ("Anthropic API keys should start with " ++ quoted "sk-ant-").

(** What the user answers: whether to set keys up now, and the three
    inputs ([''] skips a key). *)
Record Answers : Set := mkAnswers {
  setupNow : bool;
  v0ApiKey : string;
  openaiApiKey : string;
  anthropicApiKey : string
}.

Definition nonEmpty (s : string) : bool := negb (String.eqb s "").

(** [checkAndSetupAPIKeys()]: the value it resolves to and the store it
    leaves.  The questions are only asked when no model is available. *)
Definition checkAndSetupAPIKeys (store : Config.Store) (env : Config.Env)
  (answers : Answers) : bool * Config.Store :=
  let aiService := Config.newService Config.emptyConfig store env in
  let availableModels := MultiModelAIService.getAvailableModels aiService in
  if (0 <? length availableModels) then (true, store)
  else if negb (setupNow answers) then (false, store)
  else
    let keysSet := false in
    let '(store, keysSet) :=
      if nonEmpty (v0ApiKey answers)
      then (Config.set store Config.key_apiKey (v0ApiKey answers), true)
      else (store, keysSet) in
    let '(store, keysSet) :=
      if nonEmpty (openaiApiKey answers)
      then (Config.set store Config.key_openaiApiKey (openaiApiKey answers), true)
      else (store, keysSet) in
    let '(store, keysSet) :=
      if nonEmpty (anthropicApiKey answers)
      then (Config.set store Config.key_anthropicApiKey
              (anthropicApiKey answers), true)
      else (store, keysSet) in
    if negb keysSet then (false, store) else (true, store).

End Setup.

(** [ModelFallback.suggestFallback]: what it prints, as values. *)
Module Suggest.
Import Js.

(** [text.includes(needle)]. *)
Fixpoint includesText (needle text : string) : bool :=
  if String.prefix needle text then true
  else match text with
       | EmptyString => false
       | String _ rest => includesText needle rest
       end.

(** The yellow line about the kind of failure, if any. *)
Inductive Hint : Set :=
| ServerHavingIssues
| RateLimitReached
| AuthenticationIssue.

(** The last line: another model to try, the setup to run, or nothing
    left. *)
Inductive Advice : Set :=
| TryModel (m : AIModel)
| NoKeysConfigured
| AllExhausted.

Definition hintFor (error : Error) : option Hint :=
  if includesText "500" (message error)
     || includesText "Internal Server Error" (message error)
  then Some ServerHavingIssues
  else if includesText "Rate limit" (message error)
  then Some RateLimitReached
  else if includesText "401" (message error)
          || includesText "403" (message error)
  then Some AuthenticationIssue
  else None.

Definition suggestFallback (error : Error) (currentModel : AIModel)
  (availableModels : list AIModel) : option Hint * Advice :=
  let nextModel := ModelFallback.getNextModel currentModel availableModels in
  (hintFor error,
   match nextModel with
   | Some m => TryModel m
   | None =>
       if length availableModels =? 0 then NoKeysConfigured
       else AllExhausted
   end).

(** The check made on each printed number from 0 to 60, for the three
    families and the three units. *)
Definition readsAsRateLimit (n : Z) : bool :=
  forallb
    (fun service =>
       forallb
         (fun unit =>
            match hintFor
                    (mkError ("Rate limit exceeded for " ++ serviceName service ++
                              ". Resets in " ++ (numberToString n ++ unit) ++
                              ". Consider using a different model."))
            with
            | Some RateLimitReached => true
            | _ => false
            end)
         ["s"; "m"; "h"]%string)
    [service_v0; service_openai; service_anthropic].

End Suggest.

(** ** captureScreenshot (one attempt, driving the browser) *)

Module Browser.
Import Js EnhancedScreenshotCapture.

(** The awaited calls of one capture, in the order the code makes them,
    with the arguments that vary. *)
Inductive Call : Set :=
| launch (args : list string)
| newPage
| setUserAgent (userAgent : string)
| setExtraHTTPHeaders
| evaluateOnNewDocument
| setViewport (width height deviceScaleFactor : Z) (isMobile hasTouch : bool)
| goto (url : string) (waitUntil : option WaitUntil) (timeout : Z)
| evaluateHasContent
| evaluateFrameworkDetection
| settle (ms : Z)
| evaluateScroll
| mkdir (dir : string)
| screenshot (path : string) (fullPage : bool)
| close.

Definition isLaunch (c : Call) : bool :=
  match c with launch _ => true | _ => false end.

Definition isClose (c : Call) : bool :=
  match c with close => true | _ => false end.

Definition isScreenshot (c : Call) : bool :=
  match c with screenshot _ _ => true | _ => false end.

(** Asynchronous code over the log of calls made so far. *)
Definition B (A : Type) : Type := list Call -> Outcome A * list Call.

Definition retB {A : Type} (a : A) : B A := fun log => (Returned a, log).

Definition throwB {A : Type} (e : Error) : B A := fun log => (Thrown e, log).

Definition bindB {A C : Type} (c : B A) (k : A -> B C) : B C :=
  fun log =>
    match c log with
    | (Returned a, log') => k a log'
    | (Thrown e, log') => (Thrown e, log')
    end.

Definition catchB {A : Type} (body : B A) (handler : Error -> B A) : B A :=
  fun log =>
    match body log with
    | (Returned a, log') => (Returned a, log')
    | (Thrown e, log') => handler e log'
    end.

(** [try { body } finally { cleanup }]: the cleanup always runs; if it
    throws, its error is the one that leaves the block. *)
Definition finallyB {A : Type} (body : B A) (cleanup : B bool) : B A :=
  fun log =>
    match body log with
    | (outcome, log') =>
        match cleanup log' with
        | (Returned _, log'') => (outcome, log'')
        | (Thrown e, log'') => (Thrown e, log'')
        end
    end.

Declare Scope browser_scope.
Delimit Scope browser_scope with browser.
Notation "x <- c ;; k" := (bindB c (fun x => k))
  (at level 61, c at next level, right associativity) : browser_scope.
Notation "c ;; k" := (bindB c (fun _ => k))
  (at level 61, right associativity) : browser_scope.

(** [s.replace(/[...]/g, c)]: every character of [targets] becomes [c]. *)
Fixpoint replaceChars (targets : list ascii) (c : ascii) (s : string) : string :=
  match s with
  | EmptyString => EmptyString
  | String a rest =>
      String (if existsb (Ascii.eqb a) targets then c else a)
             (replaceChars targets c rest)
  end.

Definition baseArgs : list string :=
  [ "--no-sandbox"; "--disable-setuid-sandbox"; "--disable-dev-shm-usage";
    "--disable-accelerated-2d-canvas"; "--no-first-run"; "--no-zygote";
    "--disable-gpu"; "--disable-web-security";
    "--disable-features=IsolateOrigins,site-per-process";
    "--disable-blink-features=AutomationControlled" ]%string.

Definition userAgent : string :=
  "Mozilla/5.0 (Macintosh; Intel Mac OS X 10_15_7) AppleWebKit/537.36 (KHTML, like Gecko) Chrome/120.0.0.0 Safari/537.36".

Section Capture.

(** What the browser answers to a call, given the calls before it; the
    boolean is the value of the evaluated expression where there is one. *)
Variable page : list Call -> Call -> Outcome bool.

(** [new URL(url).hostname], which throws on a malformed URL. *)
Variable hostnameOf : string -> Outcome string.

(** [new Date().toISOString()], [path.resolve] and [path.dirname]. *)
Variable isoNow : string.
Variable resolve : string -> string.
Variable dirname : string -> string.

Definition call (c : Call) : B bool :=
  fun log => (page log c, log ++ [c]).

(** [await new Promise(resolve => setTimeout(resolve, ms))]. *)
Definition pause (ms : Z) : B bool :=
  fun log => (Returned true, log ++ [settle ms]).

Definition parseHostname (url : string) : B string :=
  fun log => (hostnameOf url, log).

(** The file name: the given [outputPath], or one made from the host and
    the time. *)
Definition fileNameFor (outputPath : option string) (hostname : string)
  : string :=
  let timestamp := replaceChars ["."; ":"]%char "-"%char isoNow in
  let domain := replaceChars ["."]%char "-"%char hostname in
  match outputPath with
  | Some given =>
      if String.eqb given "" then
        ("v0-review-" ++ domain ++ "-" ++ timestamp ++ ".png")%string
      else given
  | None => ("v0-review-" ++ domain ++ "-" ++ timestamp ++ ".png")%string
  end.

Local Open Scope browser_scope.

(** The end of both copies, from the scroll to the returned path. *)
Definition scrollAndShoot (url : string) (options : ScreenshotOptions)
  : B string :=
  call evaluateScroll ;;
  hostname <- parseHostname url ;;
  let filename := fileNameFor (outputPath options) hostname in
  let outputDir := dirname (resolve filename) in
  call (mkdir outputDir) ;;
  let screenshotPath := resolve filename in
  call (screenshot screenshotPath
          (match fullPage options with Some b => b | None => true end)) ;;
  retB screenshotPath.

(** The start of both copies of the [try] block, up to the viewport. *)
Definition openPage (options : ScreenshotOptions) : B bool :=
  let mobile := match mobile options with Some b => b | None => false end in
  let viewportWidth :=
    match viewportWidth options with Some n => n | None => 1920 end in
  let viewportHeight :=
    match viewportHeight options with Some n => n | None => 1080 end in
  call newPage ;;
  call (setUserAgent userAgent) ;;
  call setExtraHTTPHeaders ;;
  call evaluateOnNewDocument ;;
  call (setViewport (if mobile then 375 else viewportWidth)
                    (if mobile then 667 else viewportHeight)
                    (if mobile then 2 else 1) mobile mobile).

Definition launchArgs (strategy : RetryStrategy) : list string :=
  baseArgs ++ match browserArgs strategy with Some l => l | None => [] end.

Definition timeoutOf (options : ScreenshotOptions) : Z :=
  match timeout options with Some n => n | None => 60000 end.

(** [captureScreenshot] of the first copy: a failed navigation is let
    through when the page shows some text, and the two strategies for
    dynamic pages wait for a framework to show up. *)
Definition captureScreenshotPrimary (url : string)
  (options : ScreenshotOptions) (strategy : RetryStrategy) : B string :=
  call (launch (launchArgs strategy)) ;;
  finallyB
    (openPage options ;;
     catchB
       (call (goto url (waitUntil strategy) (timeoutOf options)))
       (fun navError =>
          hasContent <- call evaluateHasContent ;;
          if negb hasContent then throwB navError else retB true) ;;
     (if String.eqb (name strategy) "Dynamic Content"
         || String.eqb (name strategy) "SPA Mode"
      then call evaluateFrameworkDetection
      else retB true) ;;
     (if 0 <? waitTime strategy then pause (waitTime strategy) else retB true) ;;
     scrollAndShoot url options)
    (call close).

(** [captureScreenshot] of the second copy: the navigation error is not
    caught. *)
Definition captureScreenshotSecondary (url : string)
  (options : ScreenshotOptions) (strategy : RetryStrategy) : B string :=
  call (launch (launchArgs strategy)) ;;
  finallyB
    (openPage options ;;
     call (goto url (waitUntil strategy) (timeoutOf options)) ;;
     (if 0 <? waitTime strategy then pause (waitTime strategy) else retB true) ;;
     scrollAndShoot url options)
    (call close).

End Capture.

(** The pauses of a retry log, in order. *)
Definition pausesOf (log : list Event) : list Z :=
  flat_map (fun ev => match ev with
                      | Waited ms => [ms]
                      | Attempt _ _ _ => []
                      end) log.

End Browser.

(** ** Sample inputs, used to run the definitions on concrete values *)

Module Samples.
Import Js.

(** A clock that advances by one millisecond per reading. *)
Definition clock (k : nat) : Z := 1700000000000 + Z.of_nat k.

Definition apiAnswers : list NetworkCall -> NetworkCall -> Outcome string :=
  fun _ _ => Returned "Looks good."%string.

Definition apiDown : list NetworkCall -> NetworkCall -> Outcome string :=
  fun _ _ => Thrown (mkError "V0 API error: 500 - Internal Server Error").

Definition template (_ : Prompts.PromptVariables) : string := "You are a UI reviewer."%string.

Definition service : MultiModelAIService.t :=
  MultiModelAIService.mkService (Some "v0_key"%string) true true v0 false.

Definition messages : list ChatMessage :=
  [ mkChatMessage system "Be terse." None;
    mkChatMessage user "Review this page." (Some "data:image/png;base64,AAAA"%string) ].

Definition options : ChatOptions := mkChatOptions None None None None.

(** Five v0 requests used, window open for another five hours. *)
Definition quotaInUse : World :=
  mkWorld
    (Stored (mkRateLimitData
               (mkServiceData 5 (1700000000000 + 5 * 3600 * 1000))
               (mkServiceData 0 0) (mkServiceData 0 0)))
    0 [] None.

(** The v0 cap of 200 reached, window open for another five hours. *)
Definition quotaSpent : World :=
  mkWorld
    (Stored (mkRateLimitData
               (mkServiceData 200 (1700000000000 + 5 * 3600 * 1000))
               (mkServiceData 0 0) (mkServiceData 0 0)))
    0 [] None.

(** Five v0 requests used in a window that ended an hour ago. *)
Definition quotaExpired : World :=
  mkWorld
    (Stored (mkRateLimitData
               (mkServiceData 5 (1700000000000 - 3600 * 1000))
               (mkServiceData 0 0) (mkServiceData 0 0)))
    0 [] None.

(** The rejection of a write to a directory that cannot be written. *)
Definition readOnly : Error :=
  mkError "EACCES: permission denied, open 'rate-limits.json'".

(** The same worlds on a machine whose quota directory is read-only. *)
Definition onReadOnlyDisk (w : World) : World :=
  mkWorld (file w) (clockReads w) (network w) (Some readOnly).

Definition neverLoads :
  list EnhancedScreenshotCapture.Event -> string ->
  EnhancedScreenshotCapture.ScreenshotOptions ->
  EnhancedScreenshotCapture.RetryStrategy -> Outcome string :=
  fun _ _ _ _ => Thrown (mkError "Navigation timeout of 60000 ms exceeded").

(** A page that loads with the 'SPA Mode' strategy and no other. *)
Definition loadsInSpaMode :
  list EnhancedScreenshotCapture.Event -> string ->
  EnhancedScreenshotCapture.ScreenshotOptions ->
  EnhancedScreenshotCapture.RetryStrategy -> Outcome string :=
  fun _ _ _ strategy =>
    if String.eqb (EnhancedScreenshotCapture.name strategy) "SPA Mode"
    then Returned "/work/shot.png"%string
    else Thrown (mkError "Navigation timeout of 60000 ms exceeded").

Definition withRetries (n : Z) : EnhancedScreenshotCapture.ScreenshotOptions :=
  EnhancedScreenshotCapture.mkScreenshotOptions
    None None None None None None (Some n).

End Samples.

(** Sample browsers: one on which every call succeeds, one on which the
    navigation fails and the page shows text or not. *)
Module BrowserSamples.
Import Js EnhancedScreenshotCapture Browser.

Definition pageWorks : list Call -> Call -> Outcome bool :=
  fun _ _ => Returned true.

Definition navigationFails (navError : Error) (hasContent : bool)
  : list Call -> Call -> Outcome bool :=
  fun _ c =>
    match c with
    | goto _ _ _ => Thrown navError
    | evaluateHasContent => Returned hasContent
    | _ => Returned true
    end.

Definition timedOut : Error :=
  mkError "Navigation timeout of 60000 ms exceeded".

Definition hostnameOf (url : string) : Outcome string :=
  Returned "example.com"%string.

Definition isoNow : string := "2025-02-06T10:20:30.123Z".

Definition resolve (file : string) : string := ("/work/" ++ file)%string.

Definition dirname (path : string) : string := "/work"%string.

Definition standard : RetryStrategy :=
  mkRetryStrategy "Standard" 2000 None (Some (one networkidle0)).

Definition noOptions : ScreenshotOptions :=
  mkScreenshotOptions None None None None None None None.

End BrowserSamples.

(* ===================================================================== *)
(** * Part II: properties *)
(* ===================================================================== *)

(** ** Model identifiers and arrays *)

Module JsFacts.
Import Js.

Lemma AIModel_eqb_spec (a b : AIModel) : reflect (a = b) (AIModel_eqb a b).
Proof. destruct a, b; simpl; constructor; congruence. Qed.

Lemma AIModel_eqb_refl (a : AIModel) : AIModel_eqb a a = true.
Proof. destruct a; reflexivity. Qed.

Lemma includes_In (arr : list AIModel) (m : AIModel) :
  includes arr m = true <-> In m arr.
Proof.
  unfold includes. rewrite existsb_exists. split.
  - intros [x [Hin Heq]].
    destruct (AIModel_eqb_spec m x); [subst; assumption | discriminate].
  - intros Hin. exists m. split; [assumption | apply AIModel_eqb_refl].
Qed.

Lemma includes_false (arr : list AIModel) (m : AIModel) :
  includes arr m = false <-> ~ In m arr.
Proof.
  rewrite <- includes_In. destruct (includes arr m); split; congruence.
Qed.

Lemma indexOfFrom_absent (m : AIModel) (arr : list AIModel) (i : Z) :
  ~ In m arr -> indexOfFrom m arr i = -1.
Proof.
  revert i. induction arr as [|x rest IH]; intros i Hnin; simpl.
  - reflexivity.
  - destruct (AIModel_eqb_spec x m) as [->|Hne].
    + exfalso. apply Hnin. left. reflexivity.
    + apply IH. intros Hin. apply Hnin. right. assumption.
Qed.

Lemma indexOfFrom_split (m : AIModel) (before after : list AIModel) (i : Z) :
  ~ In m before ->
  indexOfFrom m (before ++ m :: after) i = i + length before.
Proof.
  unfold length. revert i.
  induction before as [|x rest IH]; intros i Hnin; simpl app.
  - cbn [indexOfFrom]. rewrite AIModel_eqb_refl. simpl. lia.
  - cbn [indexOfFrom].
    destruct (AIModel_eqb_spec x m) as [->|Hne].
    + exfalso. apply Hnin. left. reflexivity.
    + rewrite IH.
      * cbn [List.length]. lia.
      * intros Hin. apply Hnin. right. assumption.
Qed.

Lemma get_middle {A : Type} (pre post : list A) (x : A) :
  get (pre ++ x :: post) (length pre) = Some x.
Proof.
  unfold get, length.
  destruct (Z.ltb_spec (Z.of_nat (List.length pre)) 0) as [Hneg|_]; [lia|].
  rewrite Nat2Z.id, nth_error_app2 by apply Nat.le_refl.
  rewrite Nat.sub_diag. reflexivity.
Qed.

End JsFacts.

(** ** ModelFallback *)

Module ModelFallbackFacts.
Import Js JsFacts ModelFallback.

Section ScanFacts.

Variable order : list AIModel.
Variable availableModels : list AIModel.

(** One turn of the loop, as an equation. *)
Lemma scan_step (i stop : Z) :
  scan order availableModels i stop =
  if i <? stop then
    match get order i with
    | Some nextModel =>
        if includes availableModels nextModel then Some nextModel
        else scan order availableModels (i + 1) stop
    | None => scan order availableModels (i + 1) stop
    end
  else None.
Proof.
  rewrite scan_unfold_eq. unfold scan_unfold, scan_unfold_clause_1.
  destruct (Z_lt_dec i stop) as [Hlt|Hge].
  - destruct (Z.ltb_spec i stop) as [_|Hge]; [|lia].
    unfold scan_unfold_clause_1_clause_1.
    destruct (get order i) as [m|]; [|reflexivity].
    unfold scan_unfold_clause_1_clause_1_clause_1.
    destruct (includes availableModels m); reflexivity.
  - destruct (Z.ltb_spec i stop); [contradiction | reflexivity].
Qed.

Lemma scan_empty_range (i stop : Z) :
  stop <= i -> scan order availableModels i stop = None.
Proof.
  intros Hle. rewrite scan_step.
  destruct (Z.ltb_spec i stop); [lia | reflexivity].
Qed.

(** Scanning the positions of a segment of the list finds the first
    available model of that segment. *)
Lemma scan_segment (seg pre post : list AIModel) :
  order = pre ++ seg ++ post ->
  scan order availableModels (length pre) (length pre + length seg) =
  firstAvailable availableModels seg.
Proof.
  revert pre. induction seg as [|x seg IH]; intros pre Horder.
  - apply scan_empty_range. unfold length. simpl. lia.
  - rewrite scan_step.
    destruct (Z.ltb_spec (length pre) (length pre + length (x :: seg)))
      as [_|Hge]; [|unfold length in Hge; simpl in Hge; lia].
    assert (Hget : get order (length pre) = Some x)
      by (rewrite Horder; apply get_middle).
    rewrite Hget.
    unfold firstAvailable. simpl find.
    destruct (includes availableModels x); [reflexivity|].
    specialize (IH (pre ++ [x])).
    replace (length (pre ++ [x])) with (length pre + 1) in IH
      by (unfold length; rewrite length_app; simpl; lia).
    replace (length pre + length (x :: seg))
      with (length pre + 1 + length seg)
      by (unfold length; simpl List.length; lia).
    apply IH. rewrite Horder, <- app_assoc. reflexivity.
Qed.

(** The current model sits in the list: the two loops search the part
    after it, then the part before it. *)
Lemma getNextModelIn_split (currentModel : AIModel) (before after : list AIModel) :
  order = before ++ currentModel :: after ->
  ~ In currentModel before ->
  getNextModelIn order availableModels currentModel =
  nextFallback_spec before after availableModels.
Proof.
  intros Horder Hnin. unfold getNextModelIn, nextFallback_spec.
  assert (Hidx : indexOf order currentModel = length before).
  { unfold indexOf. rewrite Horder, indexOfFrom_split by assumption. lia. }
  rewrite Hidx.
  assert (Hafter : scan order availableModels (length before + 1) (length order)
                   = firstAvailable availableModels after).
  { replace (length before + 1) with (length (before ++ [currentModel]))
      by (unfold length; rewrite length_app; simpl; lia).
    replace (length order)
      with (length (before ++ [currentModel]) + length after)
      by (rewrite Horder; unfold length;
          rewrite !length_app; simpl List.length; lia).
    apply (scan_segment after (before ++ [currentModel]) []).
    rewrite Horder, app_nil_r, <- app_assoc. reflexivity. }
  assert (Hbefore : scan order availableModels 0 (length before)
                    = firstAvailable availableModels before).
  { apply (scan_segment before [] (currentModel :: after)). exact Horder. }
  rewrite Hafter, Hbefore.
  destruct (firstAvailable availableModels after); [reflexivity|].
  destruct (firstAvailable availableModels before); reflexivity.
Qed.

(** The current model is not in the list: [indexOf] is [-1], the first
    loop searches the whole list and the second loop does not run. *)
Lemma getNextModelIn_absent (currentModel : AIModel) :
  ~ In currentModel order ->
  getNextModelIn order availableModels currentModel =
  firstAvailable availableModels order.
Proof.
  intros Hnin. unfold getNextModelIn, indexOf.
  rewrite indexOfFrom_absent by assumption.
  change (-1 + 1) with (length (@nil AIModel)).
  replace (length order) with (length (@nil AIModel) + length order)
    by (unfold length; simpl; lia).
  rewrite (scan_segment order [] []) by (rewrite app_nil_r; reflexivity).
  rewrite scan_empty_range by (unfold length; simpl; lia).
  destruct (firstAvailable availableModels order); reflexivity.
Qed.

End ScanFacts.

Lemma firstAvailable_Some (availableModels candidates : list AIModel) (m : AIModel) :
  firstAvailable availableModels candidates = Some m ->
  In m candidates /\ In m availableModels.
Proof.
  unfold firstAvailable. intros H. apply find_some in H.
  destruct H as [Hin Hinc]. split; [assumption|].
  apply includes_In. assumption.
Qed.

Lemma firstAvailable_None (availableModels candidates : list AIModel) :
  firstAvailable availableModels candidates = None <->
  (forall m, In m candidates -> ~ In m availableModels).
Proof.
  unfold firstAvailable. split.
  - intros H m Hin. apply includes_false. exact (find_none _ _ H m Hin).
  - intros H. induction candidates as [|x rest IH]; [reflexivity|].
    simpl. destruct (includes availableModels x) eqn:Hinc.
    + apply includes_In in Hinc. exfalso. apply (H x); [left; reflexivity | assumption].
    + apply IH. intros m Hin. apply H. right. assumption.
Qed.

Lemma fallbackOrder_NoDup : NoDup fallbackOrder.
Proof.
  unfold fallbackOrder.
  repeat (constructor; [simpl; intuition discriminate|]). constructor.
Qed.

(** Every model splits the fallback order at most one way. *)
Lemma fallbackOrder_split (currentModel : AIModel) (before after : list AIModel) :
  fallbackOrder = before ++ currentModel :: after ->
  ~ In currentModel before /\ ~ In currentModel after.
Proof.
  intros Hsplit. pose proof fallbackOrder_NoDup as Hnd.
  rewrite Hsplit in Hnd. apply NoDup_remove_2 in Hnd.
  split; intros Hin; apply Hnd, in_or_app; [left | right]; assumption.
Qed.

Lemma In_fallbackOrder_split (m : AIModel) :
  In m fallbackOrder ->
  exists before after, fallbackOrder = before ++ m :: after.
Proof. intros Hin. apply in_split. assumption. Qed.

(** Whatever keys are configured, an availability array built by
    [getAvailableModels] that is not [{currentModel}] offers a model of the
    fallback order other than the current one. *)
Lemma getAvailableModels_offers_fallback
  (this : MultiModelAIService.t) (currentModel : AIModel) :
  let availableModels := MultiModelAIService.getAvailableModels this in
  availableModels <> [] ->
  ~ sameSet availableModels [currentModel] ->
  exists m, In m availableModels /\ In m fallbackOrder /\ m <> currentModel.
Proof.
  unfold MultiModelAIService.getAvailableModels.
  destruct (MultiModelAIService.truthy (MultiModelAIService.v0ApiKey this)),
    (MultiModelAIService.openai this), (MultiModelAIService.anthropic this);
    cbn [app]; intros Hne Hnot.
  all: try (exfalso; apply Hne; reflexivity).
  all: try (destruct (AIModel_eqb_spec currentModel gpt_4) as [->|Hcur];
            [ exists gpt_4_turbo | exists gpt_4 ];
            (split; [cbn; tauto | split; [cbn; tauto | congruence]])).
  all: try (destruct (AIModel_eqb_spec currentModel claude_3_sonnet) as [->|Hcur];
            [ exists claude_3_haiku | exists claude_3_sonnet ];
            (split; [cbn; tauto | split; [cbn; tauto | congruence]])).
  destruct (AIModel_eqb_spec currentModel v0) as [->|Hcur].
  - exfalso. apply Hnot. intros m. reflexivity.
  - exists v0. split; [cbn; tauto | split; [cbn; tauto | congruence]].
Qed.

(** C4.  [getNextModel] returns the first model of the priority order
    strictly after the current one that is available; when there is none
    it wraps around and returns the first available model strictly before
    the current one; when there is none either it returns nothing.  With
    current [v0] and [v0] and [claude-sonnet-4] available it returns
    [claude-sonnet-4], passing over [gpt-4-turbo]. *)
Theorem getNextModel_priority_search :
  (forall (currentModel : AIModel) (availableModels before after : list AIModel),
     fallbackOrder = before ++ currentModel :: after ->
     getNextModel currentModel availableModels =
     match firstAvailable availableModels after with
     | Some m => Some m
     | None => firstAvailable availableModels before
     end)
  /\ getNextModel v0 [v0; claude_sonnet_4] = Some claude_sonnet_4.
Proof.
  split; [|reflexivity].
  intros currentModel availableModels before after Hsplit.
  unfold getNextModel.
  apply getNextModelIn_split; [assumption|].
  apply (fallbackOrder_split _ _ _ Hsplit).
Qed.

Lemma getNextModel_priority_search_witness :
  getNextModel gpt_4 [v0; o3_mini; gpt_4] = Some o3_mini /\
  getNextModel claude_3_haiku [gpt_4; v0] = Some v0.
Proof.
  split.
  - rewrite (proj1 getNextModel_priority_search gpt_4 [v0; o3_mini; gpt_4]
               [v0; gpt_4_turbo; claude_sonnet_4]
               [claude_3_sonnet; o3_mini; claude_3_haiku] eq_refl).
    reflexivity.
  - rewrite (proj1 getNextModel_priority_search claude_3_haiku [gpt_4; v0]
               [v0; gpt_4_turbo; claude_sonnet_4; gpt_4; claude_3_sonnet; o3_mini]
               [] eq_refl).
    reflexivity.
Defined.

(** C1, as stated, fails: with only [gpt-3.5-turbo] available, a model that
    the fallback order does not list, nothing is returned for current
    [v0], although the available set is neither empty nor [{v0}]. *)
Lemma getNextModel_total_counterexample :
  ~ total_as_specified v0 [gpt_3_5_turbo].
Proof.
  intros [Hsome _].
  destruct Hsome as [m [Hget _]].
  - split; [discriminate|].
    intros Hsame. destruct (Hsame gpt_3_5_turbo) as [Himp _].
    destruct (Himp (or_introl eq_refl)) as [Heq|[]]. discriminate.
  - vm_compute in Hget. discriminate.
Qed.

(** C1, amended.  Whenever some model of the fallback order other than the
    current one is available, [getNextModel] returns a model that is
    available, listed in the fallback order and different from the current
    one; whenever no such model is available, in particular when the
    available set is empty or [{currentModel}], it returns nothing.  For
    the availability arrays that [getAvailableModels] builds this is
    totality as the specification words it. *)
Theorem getNextModel_total_on_fallbackOrder
  (currentModel : AIModel) (availableModels : list AIModel) :
  ((exists m, In m availableModels /\ In m fallbackOrder /\ m <> currentModel) ->
   exists m, getNextModel currentModel availableModels = Some m /\
             In m availableModels /\ In m fallbackOrder /\ m <> currentModel)
  /\
  ((forall m, In m availableModels -> In m fallbackOrder -> m = currentModel) ->
   getNextModel currentModel availableModels = None)
  /\
  (availableModels = [] \/ sameSet availableModels [currentModel] ->
   getNextModel currentModel availableModels = None)
  /\
  (forall this : MultiModelAIService.t,
     total_as_specified currentModel
       (MultiModelAIService.getAvailableModels this)).
Proof.
  revert availableModels.
  assert (Hmain : forall availableModels,
    ((exists m, In m availableModels /\ In m fallbackOrder /\ m <> currentModel) ->
     exists m, getNextModel currentModel availableModels = Some m /\
               In m availableModels /\ In m fallbackOrder /\ m <> currentModel)
    /\
    ((forall m, In m availableModels -> In m fallbackOrder -> m = currentModel) ->
     getNextModel currentModel availableModels = None)
    /\
    (availableModels = [] \/ sameSet availableModels [currentModel] ->
     getNextModel currentModel availableModels = None));
  [ intros availableModels
  | intros availableModels;
    destruct (Hmain availableModels) as [Hsome [Hnone Hempty]];
    repeat split; try assumption;
    [ intros [Hne Hnot];
      destruct (proj1 (Hmain (MultiModelAIService.getAvailableModels this)))
        as [m [Hget [Hav [_ Hdiff]]]];
      [ apply getAvailableModels_offers_fallback; assumption
      | exists m; repeat split; assumption ]
    | apply (proj2 (proj2 (Hmain (MultiModelAIService.getAvailableModels this)))) ] ].
  assert (Hcases :
    (exists before after,
       fallbackOrder = before ++ currentModel :: after /\
       ~ In currentModel before /\ ~ In currentModel after /\
       getNextModel currentModel availableModels =
       nextFallback_spec before after availableModels)
    \/ (~ In currentModel fallbackOrder /\
        getNextModel currentModel availableModels =
        firstAvailable availableModels fallbackOrder)).
  { destruct (in_dec (fun a b => reflect_dec _ _ (AIModel_eqb_spec a b))
                currentModel fallbackOrder) as [Hin|Hnin].
    - left. destruct (In_fallbackOrder_split _ Hin) as [before [after Hsplit]].
      destruct (fallbackOrder_split _ _ _ Hsplit) as [Hb Ha].
      exists before, after. repeat split; try assumption.
      apply getNextModelIn_split; assumption.
    - right. split; [assumption|]. apply getNextModelIn_absent. assumption. }
  assert (Hnone :
    (forall m, In m availableModels -> In m fallbackOrder -> m = currentModel) ->
    getNextModel currentModel availableModels = None).
  { intros Honly.
    destruct Hcases as [[before [after [Hsplit [Hb [Ha Hget]]]]]|[Hnin Hget]];
      rewrite Hget.
    - unfold nextFallback_spec.
      assert (Hafter : firstAvailable availableModels after = None).
      { apply firstAvailable_None. intros m Hin Hav.
        assert (m = currentModel) as ->.
        { apply Honly; [assumption|]. rewrite Hsplit.
          apply in_or_app. right. right. assumption. }
        contradiction. }
      rewrite Hafter. apply firstAvailable_None. intros m Hin Hav.
      assert (m = currentModel) as ->.
      { apply Honly; [assumption|]. rewrite Hsplit.
        apply in_or_app. left. assumption. }
      contradiction.
    - apply firstAvailable_None. intros m Hin Hav.
      assert (m = currentModel) as -> by (apply Honly; assumption).
      contradiction. }
  split; [|split; [exact Hnone|]].
  - intros [m [Hav [Hord Hne]]].
    destruct Hcases as [[before [after [Hsplit [Hb [Ha Hget]]]]]|[Hnin Hget]];
      rewrite Hget.
    + unfold nextFallback_spec.
      destruct (firstAvailable availableModels after) as [r|] eqn:Hafter.
      * exists r. apply firstAvailable_Some in Hafter.
        destruct Hafter as [Hin Hravail].
        repeat split; [assumption| |congruence].
        rewrite Hsplit. apply in_or_app. right. right. assumption.
      * destruct (firstAvailable availableModels before) as [r|] eqn:Hbefore.
        -- exists r. apply firstAvailable_Some in Hbefore.
           destruct Hbefore as [Hin Hravail].
           repeat split; [assumption| |congruence].
           rewrite Hsplit. apply in_or_app. left. assumption.
        -- exfalso. rewrite Hsplit in Hord. apply in_app_or in Hord.
           destruct Hord as [Hin|[Heq|Hin]].
           ++ exact (proj1 (firstAvailable_None _ _) Hbefore m Hin Hav).
           ++ apply Hne. symmetry. assumption.
           ++ exact (proj1 (firstAvailable_None _ _) Hafter m Hin Hav).
    + destruct (firstAvailable availableModels fallbackOrder) as [r|] eqn:Hall.
      * exists r. apply firstAvailable_Some in Hall.
        destruct Hall as [Hin Hravail].
        repeat split; [assumption|assumption|congruence].
      * exfalso. exact (proj1 (firstAvailable_None _ _) Hall m Hord Hav).
  - intros [Hempty|Hsame]; apply Hnone.
    + subst availableModels. intros m [].
    + intros m Hav _. destruct (proj1 (Hsame m) Hav) as [Heq|[]].
      symmetry. assumption.
Qed.

Lemma getNextModel_total_on_fallbackOrder_witness :
  (exists m, getNextModel gpt_4 [gpt_3_5_turbo; v0; gpt_4] = Some m /\
             In m [gpt_3_5_turbo; v0; gpt_4] /\ In m fallbackOrder /\ m <> gpt_4)
  /\ getNextModel gpt_4 [gpt_4] = None.
Proof.
  split.
  - apply (proj1 (getNextModel_total_on_fallbackOrder gpt_4 [gpt_3_5_turbo; v0; gpt_4])).
    exists v0. repeat split; [simpl; tauto | simpl; tauto | discriminate].
  - apply (proj2 (proj2 (getNextModel_total_on_fallbackOrder gpt_4 [gpt_4]))).
    right. intros m. reflexivity.
Defined.

End ModelFallbackFacts.

(** ** RateLimiter *)

Module RateLimiterFacts.
Import Js RateLimiter.

Lemma dataOf_withData_same (data : RateLimitData) (service : Service)
  (entry : ServiceData) :
  dataOf (withData data service entry) service = entry.
Proof. destruct service; reflexivity. Qed.

Lemma dataOf_withData_other (data : RateLimitData) (service other : Service)
  (entry : ServiceData) :
  other <> service ->
  dataOf (withData data service entry) other = dataOf data other.
Proof. destruct service, other; intros H; try reflexivity; congruence. Qed.

Lemma dataOf_emptyData (now : Z) (service : Service) :
  dataOf (emptyData now) service =
  mkServiceData 0 (now + window (limits service)).
Proof. destruct service; reflexivity. Qed.

Lemma daily_positive (service : Service) : 0 < daily (limits service).
Proof. destruct service; reflexivity. Qed.

Lemma window_positive (service : Service) : 0 < window (limits service).
Proof. destruct service; reflexivity. Qed.

Section ClockFacts.

Variable clock : nat -> Z.

Lemma loadData_stored (w : World) (data : RateLimitData) :
  file w = Stored data ->
  loadData clock w = (Returned (Entries data), w).
Proof.
  intros Hfile. unfold loadData, tryCatch, readAndParse.
  rewrite Hfile. reflexivity.
Qed.

Lemma loadData_unreadable (w : World) :
  file w = Missing \/ file w = Unparseable ->
  loadData clock w =
  (Returned (Entries (emptyData (clock (clockReads w)))), ticked w).
Proof.
  intros [Hfile|Hfile]; unfold loadData, tryCatch, readAndParse;
    rewrite Hfile; reflexivity.
Qed.

Lemma loadData_entryless (w : World) (isNull : bool) :
  file w = Entryless isNull ->
  loadData clock w = (Returned (NoEntries isNull), w).
Proof.
  intros Hfile. unfold loadData, tryCatch, readAndParse.
  rewrite Hfile. reflexivity.
Qed.

Lemma statusOf_fresh (service : Service) (reset now : Z) :
  statusOf service (mkServiceData 0 reset) now =
  mkLimitStatus true (daily (limits service)) None.
Proof. destruct service; reflexivity. Qed.

(** [checkLimit] on a readable file: an expired window is reset and saved,
    or the rejection of the write is thrown; a running window is only
    read. *)
Lemma checkLimit_stored (service : Service) (w : World) (data : RateLimitData) :
  file w = Stored data ->
  let now := clock (clockReads w) in
  let entry := dataOf data service in
  checkLimit clock service w =
  if resetAt entry <? now then
    match disk w with
    | None =>
        (Returned (mkLimitStatus true (daily (limits service)) None),
         saved (withData data service
                  (mkServiceData 0 (now + window (limits service))))
               (ticked w))
    | Some error => (Thrown error, ticked w)
    end
  else (Returned (statusOf service entry now), ticked w).
Proof.
  intros Hfile now entry. unfold checkLimit, bind.
  rewrite (loadData_stored w data Hfile). unfold Date_now.
  fold now. fold entry.
  destruct (resetAt entry <? now).
  - unfold saveData, saved, ticked. cbn [disk clockReads network file].
    destruct (disk w).
    + reflexivity.
    + destruct service; reflexivity.
  - reflexivity.
Qed.

(** [checkLimit] on a missing or corrupt file: every count is 0, so the
    call is allowed with the whole cap remaining. *)
Lemma checkLimit_unreadable (service : Service) (w : World) :
  file w = Missing \/ file w = Unparseable ->
  let t0 := clock (clockReads w) in
  let now := clock (S (clockReads w)) in
  checkLimit clock service w =
  if t0 + window (limits service) <? now then
    match disk w with
    | None =>
        (Returned (mkLimitStatus true (daily (limits service)) None),
         saved (withData (emptyData t0) service
                  (mkServiceData 0 (now + window (limits service))))
               (ticked (ticked w)))
    | Some error => (Thrown error, ticked (ticked w))
    end
  else
    (Returned (mkLimitStatus true (daily (limits service)) None),
     ticked (ticked w)).
Proof.
  intros Hfile t0 now. unfold checkLimit, bind.
  rewrite (loadData_unreadable w Hfile). unfold Date_now.
  cbn [clockReads ticked file network disk].
  fold t0. fold now. rewrite dataOf_emptyData. cbn [resetAt count].
  destruct (t0 + window (limits service) <? now).
  - unfold saveData, saved, ticked. cbn [disk clockReads network file].
    destruct (disk w).
    + reflexivity.
    + destruct service; reflexivity.
  - destruct service; reflexivity.
Qed.

(** [checkLimit] on a file without entries: the clock is read, then the
    access to the entry throws. *)
Lemma checkLimit_entryless (service : Service) (w : World) (isNull : bool) :
  file w = Entryless isNull ->
  checkLimit clock service w =
  (Thrown (noEntry isNull service "resetAt"), ticked w).
Proof.
  intros Hfile. unfold checkLimit, bind.
  rewrite (loadData_entryless w isNull Hfile). reflexivity.
Qed.

Lemma increment_stored (service : Service) (w : World) (data : RateLimitData) :
  file w = Stored data ->
  increment clock service w =
  match disk w with
  | None =>
      (Returned tt,
       saved (withData data service
                (mkServiceData (count (dataOf data service) + 1)
                               (resetAt (dataOf data service)))) w)
  | Some error => (Thrown error, w)
  end.
Proof.
  intros Hfile. unfold increment, bind.
  rewrite (loadData_stored w data Hfile). unfold saveData, saved.
  destruct (disk w); reflexivity.
Qed.

Lemma increment_unreadable (service : Service) (w : World) :
  file w = Missing \/ file w = Unparseable ->
  let now := clock (clockReads w) in
  increment clock service w =
  match disk w with
  | None =>
      (Returned tt,
       saved (withData (emptyData now) service
                (mkServiceData 1 (now + window (limits service))))
             (ticked w))
  | Some error => (Thrown error, ticked w)
  end.
Proof.
  intros Hfile now. unfold increment, bind.
  rewrite (loadData_unreadable w Hfile). fold now.
  rewrite dataOf_emptyData. unfold saveData, saved, ticked.
  cbn [disk clockReads network file]. destruct (disk w); reflexivity.
Qed.

Lemma increment_entryless (service : Service) (w : World) (isNull : bool) :
  file w = Entryless isNull ->
  increment clock service w = (Thrown (noEntry isNull service "count"), w).
Proof.
  intros Hfile. unfold increment, bind.
  rewrite (loadData_entryless w isNull Hfile). reflexivity.
Qed.

Lemma file_cases (w : World) :
  (exists data, file w = Stored data) \/
  (file w = Missing \/ file w = Unparseable) \/
  (exists isNull, file w = Entryless isNull).
Proof. destruct (file w); eauto. Qed.

(** Neither call touches the network log or the state of the disk, and a
    call that throws leaves the file as it was. *)
Lemma checkLimit_frame (service : Service) (w : World) :
  let w' := snd (checkLimit clock service w) in
  network w' = network w /\ disk w' = disk w /\
  (forall error, fst (checkLimit clock service w) = Thrown error ->
                 file w' = file w).
Proof.
  destruct (file_cases w) as [[data Hfile]|[Hfile|[isNull Hfile]]].
  - rewrite (checkLimit_stored service w data Hfile).
    destruct (_ <? _); [destruct (disk w) eqn:Hdisk|];
      cbn; repeat split; try assumption; try reflexivity; discriminate.
  - rewrite (checkLimit_unreadable service w Hfile).
    destruct (_ <? _); [destruct (disk w) eqn:Hdisk|];
      cbn; repeat split; try assumption; try reflexivity; discriminate.
  - rewrite (checkLimit_entryless service w isNull Hfile).
    cbn. repeat split.
Qed.

Lemma increment_frame (service : Service) (w : World) :
  let w' := snd (increment clock service w) in
  network w' = network w /\ disk w' = disk w /\
  (forall error, fst (increment clock service w) = Thrown error ->
                 file w' = file w).
Proof.
  destruct (file_cases w) as [[data Hfile]|[Hfile|[isNull Hfile]]].
  - rewrite (increment_stored service w data Hfile).
    destruct (disk w) eqn:Hdisk;
      cbn; repeat split; try assumption; try reflexivity; discriminate.
  - rewrite (increment_unreadable service w Hfile).
    destruct (disk w) eqn:Hdisk;
      cbn; repeat split; try assumption; try reflexivity; discriminate.
  - rewrite (increment_entryless service w isNull Hfile).
    cbn. repeat split.
Qed.

(** [increment] returns exactly when the file has entries, or none at all
    to read, and the directory can be written. *)
Lemma increment_returns (service : Service) (w : World) :
  disk w = None ->
  (forall isNull, file w <> Entryless isNull) ->
  exists w', increment clock service w = (Returned tt, w').
Proof.
  intros Hdisk Hentries.
  destruct (file_cases w) as [[data Hfile]|[Hfile|[isNull Hfile]]].
  - rewrite (increment_stored service w data Hfile), Hdisk. eauto.
  - rewrite (increment_unreadable service w Hfile), Hdisk. eauto.
  - destruct (Hentries isNull Hfile).
Qed.

(** On a read-only directory an [increment] that finds entries to write
    throws the rejection of the write and leaves the file as it was. *)
Lemma increment_rejected (service : Service) (w : World) (error : Error) :
  disk w = Some error ->
  (forall isNull, file w <> Entryless isNull) ->
  exists w', increment clock service w = (Thrown error, w') /\
             file w' = file w.
Proof.
  intros Hdisk Hentries.
  destruct (file_cases w) as [[data Hfile]|[Hfile|[isNull Hfile]]].
  - rewrite (increment_stored service w data Hfile), Hdisk. eauto.
  - rewrite (increment_unreadable service w Hfile), Hdisk. eauto.
  - destruct (Hentries isNull Hfile).
Qed.

(** A quota query that returned leaves a file with entries, or none. *)
Lemma checkLimit_returned_file (service : Service) (w w1 : World)
  (status : LimitStatus) :
  checkLimit clock service w = (Returned status, w1) ->
  forall isNull, file w1 <> Entryless isNull.
Proof.
  intros Hcheck isNull.
  destruct (file_cases w) as [[data Hfile]|[Hfile|[isNull' Hfile]]].
  - rewrite (checkLimit_stored service w data Hfile) in Hcheck.
    destruct (_ <? _); [destruct (disk w)|];
      try discriminate; injection Hcheck as _ <-; cbn [file saved ticked];
      try rewrite Hfile; discriminate.
  - rewrite (checkLimit_unreadable service w Hfile) in Hcheck.
    destruct (_ <? _); [destruct (disk w)|];
      try discriminate; injection Hcheck as _ <-; cbn [file saved ticked];
      try discriminate;
      destruct Hfile as [Hfile|Hfile]; rewrite Hfile; discriminate.
  - rewrite (checkLimit_entryless service w isNull' Hfile) in Hcheck.
    discriminate.
Qed.

(** The counter after an [increment] that returned: one more for the
    family, the same for the two others. *)
Lemma increment_storedCount (service other : Service) (w w' : World) :
  increment clock service w = (Returned tt, w') ->
  storedCount (file w') other =
  if Service_eqb other service then storedCount (file w) other + 1
  else storedCount (file w) other.
Proof.
  intros Hinc.
  destruct (file_cases w) as [[data Hfile]|[Hfile|[isNull Hfile]]].
  - rewrite (increment_stored service w data Hfile) in Hinc.
    destruct (disk w); [discriminate|]. injection Hinc as <-.
    rewrite Hfile. destruct service, other; reflexivity.
  - rewrite (increment_unreadable service w Hfile) in Hinc.
    destruct (disk w); [discriminate|]. injection Hinc as <-.
    destruct Hfile as [Hfile|Hfile]; rewrite Hfile;
      destruct service, other; reflexivity.
  - rewrite (increment_entryless service w isNull Hfile) in Hinc.
    discriminate.
Qed.

(** After [checkLimit] no family is over its cap if none was before, and
    an allowed family is strictly under its cap. *)
Lemma checkLimit_withinCaps (service : Service) (w : World) :
  withinCaps (file w) ->
  withinCaps (file (snd (checkLimit clock service w))) /\
  (forall status,
     fst (checkLimit clock service w) = Returned status ->
     allowed status = true ->
     storedCount (file (snd (checkLimit clock service w))) service
     < daily (limits service)).
Proof.
  intros Hcaps.
  destruct (file_cases w) as [[data Hfile]|[Hfile|[isNull Hfile]]].
  - rewrite (checkLimit_stored service w data Hfile).
    destruct (resetAt (dataOf data service) <? clock (clockReads w));
      [destruct (disk w)|].
    + cbn [fst snd file ticked]. split; [assumption|]. discriminate.
    + cbn [fst snd file saved]. split.
      * intros other. specialize (Hcaps other). rewrite Hfile in Hcaps.
        cbn [storedCount] in *.
        destruct service, other; cbn in *; try assumption; lia.
      * intros _ _ _. cbn [storedCount]. rewrite dataOf_withData_same.
        apply daily_positive.
    + cbn [fst snd file ticked]. split; [assumption|].
      intros status Hstatus. injection Hstatus as <-.
      rewrite Hfile. cbn [storedCount allowed statusOf].
      intros Hallowed. apply Z.ltb_lt in Hallowed. lia.
  - rewrite (checkLimit_unreadable service w Hfile).
    destruct (_ <? _); [destruct (disk w)|].
    + cbn [fst snd file ticked]. split; [assumption|]. discriminate.
    + cbn [fst snd file saved]. split.
      * intros other. destruct service, other; cbn; lia.
      * intros _ _ _. cbn [storedCount]. rewrite dataOf_withData_same.
        apply daily_positive.
    + cbn [fst snd file ticked]. split; [assumption|].
      intros _ _ _. destruct Hfile as [Hfile|Hfile]; rewrite Hfile;
        apply daily_positive.
  - rewrite (checkLimit_entryless service w isNull Hfile).
    cbn [fst snd file ticked]. split; [assumption|]. discriminate.
Qed.

(** C9, amended.  When the quota file is missing or does not parse,
    [loadData]
    answers, without throwing, data in which each of the three families
    has count 0 and a reset time of now plus its window.  A quota query
    then allows the call with the whole cap remaining and writes nothing
    (the one exception: a second reading of the clock more than a window
    after the first makes it save a reset, and a failing write is then
    thrown).  An increment stores count 1 for its family and 0 for the
    others when the quota directory can be written; when it cannot, the
    increment throws the rejection of the write and stores nothing. *)
Theorem unreadable_file_resets_quota (service : Service) (w : World) :
  file w = Missing \/ file w = Unparseable ->
  let now := clock (clockReads w) in
  let later := clock (S (clockReads w)) in
  let whole := mkLimitStatus true (daily (limits service)) None in
  (exists data,
     loadData clock w = (Returned (Entries data), ticked w) /\
     forall family,
       dataOf data family =
       mkServiceData 0 (now + window (limits family))) /\
  (later <= now + window (limits service) ->
   checkLimit clock service w = (Returned whole, ticked (ticked w))) /\
  (fst (checkLimit clock service w) = Returned whole \/
   exists error,
     disk w = Some error /\ now + window (limits service) < later /\
     checkLimit clock service w = (Thrown error, ticked (ticked w))) /\
  match disk w with
  | None =>
      exists w' data',
        increment clock service w = (Returned tt, w') /\
        file w' = Stored data' /\
        dataOf data' service =
          mkServiceData 1 (now + window (limits service)) /\
        (forall other, other <> service ->
           dataOf data' other =
           mkServiceData 0 (now + window (limits other)))
  | Some error =>
      increment clock service w = (Thrown error, ticked w) /\
      file (ticked w) = file w
  end.
Proof.
  intros Hfile now later whole. split; [|split; [|split]].
  - exists (emptyData now). split.
    + apply loadData_unreadable. assumption.
    + apply dataOf_emptyData.
  - intros Hsoon. rewrite (checkLimit_unreadable service w Hfile).
    fold now. fold later.
    destruct (Z.ltb_spec (now + window (limits service)) later);
      [lia | reflexivity].
  - rewrite (checkLimit_unreadable service w Hfile).
    fold now. fold later.
    destruct (Z.ltb_spec (now + window (limits service)) later).
    + destruct (disk w) as [error|].
      * right. exists error. repeat split. assumption.
      * left. reflexivity.
    + left. reflexivity.
  - rewrite (increment_unreadable service w Hfile). fold now.
    destruct (disk w) as [error|].
    + split; reflexivity.
    + eexists. eexists. split; [reflexivity|].
      cbn [file saved]. split; [reflexivity|]. split.
      * apply dataOf_withData_same.
      * intros other Hne. rewrite dataOf_withData_other by assumption.
        apply dataOf_emptyData.
Qed.

End ClockFacts.

(** C9, as stated, fails: the file is missing and its directory is
    read-only, so the increment that follows a successful dispatch throws
    the rejection of its write, against "no error is surfaced". *)
Lemma unreadable_file_counterexample :
  let w := mkWorld Missing 0 [] (Some Samples.readOnly) in
  increment Samples.clock service_v0 w =
    (Thrown Samples.readOnly, mkWorld Missing 1 [] (Some Samples.readOnly)) /\
  ~ never_surfaces Samples.clock service_v0 w.
Proof.
  intros w. split; [reflexivity|].
  intros [_ [w' Hinc]]. vm_compute in Hinc. discriminate.
Qed.

Lemma unreadable_file_resets_quota_witness :
  let clock := fun k : nat => 1000 + Z.of_nat k in
  (exists w',
     increment clock service_openai (mkWorld Unparseable 0 [] None) =
       (Returned tt, w') /\
     file w' = Stored (mkRateLimitData (mkServiceData 0 86401000)
                         (mkServiceData 1 61000) (mkServiceData 0 61000))) /\
  checkLimit clock service_openai (mkWorld Unparseable 0 [] None) =
    (Returned (mkLimitStatus true 10000 None),
     mkWorld Unparseable 2 [] None) /\
  increment clock service_openai
    (mkWorld Missing 0 [] (Some Samples.readOnly)) =
    (Thrown Samples.readOnly, mkWorld Missing 1 [] (Some Samples.readOnly)).
Proof.
  intros clock. split; [|split].
  - destruct (unreadable_file_resets_quota clock service_openai
                (mkWorld Unparseable 0 [] None) (or_intror eq_refl))
      as [_ [_ [_ Hinc]]].
    cbn [disk] in Hinc. destruct Hinc as [w' [data' [Hinc [Hfile _]]]].
    exists w'. split; [exact Hinc|].
    vm_compute in Hinc. injection Hinc as <-. reflexivity.
  - destruct (unreadable_file_resets_quota clock service_openai
                (mkWorld Unparseable 0 [] None) (or_intror eq_refl))
      as [_ [Hcheck _]].
    apply Hcheck. vm_compute. discriminate.
  - destruct (unreadable_file_resets_quota clock service_openai
                (mkWorld Missing 0 [] (Some Samples.readOnly))
                (or_introl eq_refl))
      as [_ [_ [_ Hinc]]].
    exact (proj1 Hinc).
Defined.

End RateLimiterFacts.

(** ** MultiModelAIService.chat *)

Module ChatFacts.
Import Js RateLimiter RateLimiterFacts MultiModelAIService.

Lemma v0Message_text (msg : ChatMessage) :
  sentRole (v0Message msg) = role msg /\
  sentText (v0Message msg) = content msg.
Proof.
  unfold v0Message.
  destruct (imageUrl msg); [destruct (truthy _)|]; split; reflexivity.
Qed.

Lemma openaiMessage_text (msg : ChatMessage) :
  sentRole (openaiMessage msg) = role msg /\
  sentText (openaiMessage msg) = content msg.
Proof.
  unfold openaiMessage.
  destruct (imageUrl msg) as [url|]; [|split; reflexivity].
  destruct (truthy (Some url)); cbn [andb]; [|split; reflexivity].
  destruct (role msg); split; reflexivity.
Qed.

Lemma claudeMessage_text (msg : ChatMessage) :
  sentRole (claudeMessage msg) = role msg /\
  sentText (claudeMessage msg) = content msg.
Proof.
  unfold claudeMessage.
  destruct (imageUrl msg) as [url|]; [|split; reflexivity].
  destruct (truthy (Some url) && _); [|split; reflexivity].
  destruct (base64Match url) as [[kind data]|]; split; reflexivity.
Qed.

(** The matcher of [chatWithClaude] against the regular expression it
    stands for. *)
Lemma stripPrefix_Some (prefix s rest : string) :
  stripPrefix prefix s = Some rest <-> s = (prefix ++ rest)%string.
Proof.
  revert s. induction prefix as [|p prefix IH]; intros s; cbn.
  - split; congruence.
  - destruct s as [|c s]; [split; discriminate|].
    destruct (Ascii.eqb_spec p c) as [->|Hne].
    + rewrite IH. split; congruence.
    + split; [discriminate|]. intros H. injection H as H _. congruence.
Qed.

Lemma takeWord_app (s : string) :
  s = (fst (takeWord s) ++ snd (takeWord s))%string /\
  allChars isWordChar (fst (takeWord s)) = true.
Proof.
  induction s as [|c s [IH1 IH2]]; cbn [takeWord]; [split; reflexivity|].
  destruct (isWordChar c) eqn:Hc; [|split; reflexivity].
  destruct (takeWord s) as [word rest]. cbn [fst snd append allChars] in *.
  rewrite Hc, IH2. split; [congruence | reflexivity].
Qed.

Lemma takeWord_word (word rest : string) :
  allChars isWordChar word = true ->
  match rest with
  | EmptyString => True
  | String c _ => isWordChar c = false
  end ->
  takeWord (word ++ rest) = (word, rest).
Proof.
  intros Hword Hrest.
  induction word as [|c word IH]; cbn [append takeWord allChars] in *.
  - destruct rest as [|c rest]; [reflexivity|].
    cbn [takeWord]. rewrite Hrest. reflexivity.
  - apply andb_prop in Hword. destruct Hword as [Hc Hword].
    rewrite Hc, (IH Hword). reflexivity.
Qed.

Lemma eqb_empty (s : string) : String.eqb s "" = false <-> s <> ""%string.
Proof. rewrite <- String.eqb_neq. tauto. Qed.

Lemma base64Match_spec (url kind data : string) :
  base64Match url = Some (kind, data) <->
  url = ("data:image/" ++ kind ++ ";base64," ++ data)%string /\
  kind <> ""%string /\ allChars isWordChar kind = true /\
  data <> ""%string /\
  allChars (fun c => negb (isLineTerminator c)) data = true.
Proof.
  unfold base64Match. split.
  - destruct (stripPrefix "data:image/" url) as [rest|] eqn:Hprefix;
      [|discriminate].
    apply stripPrefix_Some in Hprefix.
    destruct (takeWord_app rest) as [Hrest Hword].
    destruct (takeWord rest) as [word rest'] eqn:Htake. cbn [fst snd] in *.
    destruct (String.eqb word "") eqn:Hempty; [discriminate|].
    destruct (stripPrefix ";base64," rest') as [data'|] eqn:Hsep;
      [|discriminate].
    apply stripPrefix_Some in Hsep.
    destruct (String.eqb data' "") eqn:Hdata; [discriminate|].
    destruct (allChars _ data') eqn:Hline; [|discriminate].
    intros H. injection H as <- <-.
    apply eqb_empty in Hempty. apply eqb_empty in Hdata.
    repeat split; try assumption. congruence.
  - intros [-> [Hkind [Hword [Hdata Hline]]]].
    assert (Hprefix :
      stripPrefix "data:image/"
        ("data:image/" ++ kind ++ ";base64," ++ data)
      = Some (kind ++ ";base64," ++ data)%string)
      by (apply stripPrefix_Some; reflexivity).
    rewrite Hprefix.
    rewrite (takeWord_word kind (";base64," ++ data) Hword) by reflexivity.
    apply eqb_empty in Hkind. rewrite Hkind.
    assert (Hsep : stripPrefix ";base64," (";base64," ++ data) = Some data)
      by (apply stripPrefix_Some; reflexivity).
    rewrite Hsep. apply eqb_empty in Hdata. rewrite Hdata, Hline.
    reflexivity.
Qed.

Lemma base64Match_startsWith (url kind data : string) :
  base64Match url = Some (kind, data) ->
  (truthy (Some url) &&
   match stripPrefix "data:image" url with
   | Some _ => true
   | None => false
   end) = true.
Proof.
  intros Hmatch. apply base64Match_spec in Hmatch.
  destruct Hmatch as [-> _]. reflexivity.
Qed.

(** Whatever the vendor, a body lists the roles and the texts of the
    messages it was built from, in their order. *)
Lemma sent_texts (format : ChatMessage -> RequestMessage)
  (messages : list ChatMessage) :
  (forall msg, sentRole (format msg) = role msg /\
               sentText (format msg) = content msg) ->
  map sentRole (map format messages) = map role messages /\
  map sentText (map format messages) = map content messages.
Proof.
  intros Hformat. rewrite !map_map. split; apply map_ext; apply Hformat.
Qed.

Section DispatchFacts.

Variable clock : nat -> Z.
Variable api : list NetworkCall -> NetworkCall -> Outcome string.
Variable getOpenAIPrompt : Prompts.PromptVariables -> string.
Variable getClaudePrompt : Prompts.PromptVariables -> string.
Variable getV0Prompt : Prompts.PromptVariables -> string.

Abbreviation chat := (chat clock api getOpenAIPrompt getClaudePrompt getV0Prompt).
Abbreviation prepareMessages :=
  (prepareMessages getOpenAIPrompt getClaudePrompt getV0Prompt).
Abbreviation getPromptForModel :=
  (getPromptForModel getOpenAIPrompt getClaudePrompt getV0Prompt).
Abbreviation invokeBackend := (invokeBackend api).

(** [chat], step by step: the quota check, the early [throw], the backend
    call, the increment, whose rejection replaces the result. *)
Lemma chat_steps (this : t) (messages : list ChatMessage)
  (options : ChatOptions) (w : World) :
  let model := resolveModel this options in
  let service := getServiceForModel model in
  chat this messages options w =
  match checkLimit clock service w with
  | (Returned status, w1) =>
      if allowed status then
        match invokeBackend this model
                (prepareMessages model messages options) options w1 with
        | (Returned result, w2) =>
            match increment clock service w2 with
            | (Returned _, w3) => (Returned result, w3)
            | (Thrown e, w3) => (Thrown e, w3)
            end
        | (Thrown e, w2) => (Thrown e, w2)
        end
      else (Thrown (rateLimitExceeded service (resetIn status)), w1)
  | (Thrown e, w1) => (Thrown e, w1)
  end.
Proof.
  intros model service. unfold MultiModelAIService.chat.
  fold model. fold service. unfold bind at 1.
  destruct (checkLimit clock service w) as [[status|e] w1]; [|reflexivity].
  destruct (allowed status); cbn [negb]; [|reflexivity].
  unfold tryCatch, bind.
  destruct (invokeBackend this model _ options w1) as [[result|e] w2];
    [|reflexivity].
  destruct (increment clock service w2) as [[[]|e] w3]; reflexivity.
Qed.

(** The backend call reads and writes neither the quota file nor the
    clock; it sends at most one request. *)
Lemma invokeBackend_world (this : t) (model : AIModel)
  (messages : list ChatMessage) (options : ChatOptions) (w : World) :
  let w' := snd (invokeBackend this model messages options w) in
  file w' = file w /\ clockReads w' = clockReads w /\ disk w' = disk w /\
  (network w' = network w \/ exists call, network w' = network w ++ [call]).
Proof.
  unfold MultiModelAIService.invokeBackend.
  destruct model; cbn zeta;
    unfold chatWithV0, chatWithOpenAI, chatWithClaude, throw, request;
    match goal with
    | |- context [if ?b then _ else _] => destruct b
    end; cbn; repeat split; eauto.
Qed.

(** C3, amended.  Once the quota check has let a dispatch through: if the
    backend
    call fails, [chat] throws that error and the quota file is exactly as
    the check left it, so the dispatch increments nothing; if the backend
    call succeeds and the quota directory can be written, [chat] returns
    its text and the counter of the resolved family is one more than the
    check left it, the other two families being untouched; if the backend
    call succeeds and the directory cannot be written, [chat] throws the
    rejection of the write and the file is as the check left it.  The
    check leaves the file itself unchanged while the stored window is
    running; after the stored reset timestamp it has put the family's
    counter back to 0 and left the other families' counters alone; a
    missing or corrupt file reads as all zero before and after it. *)
Theorem chat_counts_only_successes (this : t) (messages : list ChatMessage)
  (options : ChatOptions) (w w1 : World) (status : LimitStatus) :
  let model := resolveModel this options in
  let service := getServiceForModel model in
  checkLimit clock service w = (Returned status, w1) ->
  allowed status = true ->
  match invokeBackend this model
          (prepareMessages model messages options) options w1 with
  | (Thrown e, w2) =>
      chat this messages options w = (Thrown e, w2) /\
      file w2 = file w1
  | (Returned result, w2) =>
      match disk w with
      | None =>
          exists w3,
            chat this messages options w = (Returned result, w3) /\
            storedCount (file w3) service =
              storedCount (file w1) service + 1 /\
            (forall other, other <> service ->
               storedCount (file w3) other = storedCount (file w1) other)
      | Some error =>
          exists w3,
            chat this messages options w = (Thrown error, w3) /\
            file w3 = file w1
      end
  end
  /\
  (forall data, file w = Stored data ->
     clock (clockReads w) <= resetAt (dataOf data service) ->
     file w1 = file w)
  /\
  ((forall family, storedCount (file w1) family = storedCount (file w) family) \/
   (exists data,
      file w = Stored data /\
      resetAt (dataOf data service) < clock (clockReads w) /\
      storedCount (file w1) service = 0 /\
      (forall other, other <> service ->
         storedCount (file w1) other = storedCount (file w) other))).
Proof.
  intros model service Hcheck Hallowed. split; [|split].
  - pose proof (chat_steps this messages options w) as Hsteps.
    cbn zeta in Hsteps. fold model in Hsteps. fold service in Hsteps.
    rewrite Hcheck, Hallowed in Hsteps.
    pose proof (invokeBackend_world this model
                  (prepareMessages model messages options) options w1)
      as [Hfile [_ [Hdisk _]]].
    pose proof (checkLimit_frame clock service w) as [_ [Hdisk1 _]].
    rewrite Hcheck in Hdisk1. cbn [snd] in Hdisk1.
    pose proof (checkLimit_returned_file clock service w w1 status Hcheck)
      as Hentries.
    destruct (invokeBackend this model _ options w1) as [[result|e] w2];
      cbn [snd] in Hfile, Hdisk; [|split; assumption].
    rewrite <- Hfile in Hentries.
    destruct (disk w) as [error|] eqn:Hw.
    + destruct (increment_rejected clock service w2 error) as [w3 [Hinc Hsame]];
        [congruence | assumption |].
      rewrite Hinc in Hsteps. exists w3. split; [assumption|congruence].
    + destruct (increment_returns clock service w2) as [w3 Hinc];
        [congruence | assumption |].
      rewrite Hinc in Hsteps. exists w3. split; [assumption|].
      split.
      * rewrite (increment_storedCount clock service service w2 w3 Hinc), Hfile.
        destruct service; reflexivity.
      * intros other Hne.
        rewrite (increment_storedCount clock service other w2 w3 Hinc), Hfile.
        destruct service, other; try reflexivity; congruence.
  - intros data Hfile Hrunning.
    rewrite (checkLimit_stored clock service w data Hfile) in Hcheck.
    destruct (Z.ltb_spec (resetAt (dataOf data service)) (clock (clockReads w)));
      [lia|].
    injection Hcheck as _ <-. reflexivity.
  - destruct (file_cases w) as [[data Hfile]|[Hfile|[isNull Hfile]]].
    + rewrite (checkLimit_stored clock service w data Hfile) in Hcheck.
      destruct (Z.ltb_spec (resetAt (dataOf data service)) (clock (clockReads w)))
        as [Hexpired|Hrunning].
      * destruct (disk w); [discriminate|]. injection Hcheck as _ <-.
        right. exists data. repeat split; try assumption.
        -- cbn [file saved storedCount]. rewrite dataOf_withData_same.
           reflexivity.
        -- intros other Hne. cbn [file saved storedCount]. rewrite Hfile.
           cbn [storedCount]. rewrite dataOf_withData_other by assumption.
           reflexivity.
      * injection Hcheck as _ <-. left. intros family. reflexivity.
    + rewrite (checkLimit_unreadable clock service w Hfile) in Hcheck.
      left. intros family.
      destruct (_ <? _); [destruct (disk w); [discriminate|]|];
        injection Hcheck as _ <-;
        destruct Hfile as [Hfile|Hfile]; rewrite Hfile;
        cbn [file saved ticked storedCount];
        try rewrite Hfile; destruct service, family; reflexivity.
    + rewrite (checkLimit_entryless clock service w isNull Hfile) in Hcheck.
      discriminate.
Qed.

Lemma checkLimit_network (service : Service) (w : World) :
  network (snd (checkLimit clock service w)) = network w.
Proof. apply checkLimit_frame. Qed.

Lemma increment_network (service : Service) (w : World) :
  network (snd (increment clock service w)) = network w.
Proof. apply increment_frame. Qed.


(** A family has nothing left only when its stored count has reached the
    cap within a window that is still running. *)
Lemma zero_remaining_stored (service : Service) (w w1 : World)
  (status : LimitStatus) :
  checkLimit clock service w = (Returned status, w1) ->
  remaining status = 0 ->
  exists data,
    file w = Stored data /\
    clock (clockReads w) <= resetAt (dataOf data service) /\
    daily (limits service) <= count (dataOf data service) /\
    status = statusOf service (dataOf data service) (clock (clockReads w)) /\
    w1 = ticked w.
Proof.
  intros Hcheck Hzero. pose proof (daily_positive service) as Hpos.
  destruct (file_cases w) as [[data Hfile]|[Hfile|[isNull Hfile]]].
  - rewrite (checkLimit_stored clock service w data Hfile) in Hcheck.
    destruct (Z.ltb_spec (resetAt (dataOf data service)) (clock (clockReads w)))
      as [Hexpired|Hrunning].
    + destruct (disk w); [discriminate|].
      injection Hcheck as <- <-. cbn in Hzero. lia.
    + injection Hcheck as <- <-. exists data.
      cbn [remaining statusOf] in Hzero.
      repeat split; try assumption; try reflexivity. lia.
  - rewrite (checkLimit_unreadable clock service w Hfile) in Hcheck.
    destruct (_ <? _); [destruct (disk w); [discriminate|]|];
      injection Hcheck as <- _; cbn in Hzero; lia.
  - rewrite (checkLimit_entryless clock service w isNull Hfile) in Hcheck.
    discriminate.
Qed.


Lemma filter_nonsystem_idempotent (messages : list ChatMessage) :
  filter (fun m => negb (isSystem (role m)))
    (filter (fun m => negb (isSystem (role m))) messages) =
  filter (fun m => negb (isSystem (role m))) messages.
Proof.
  induction messages as [|m rest IH]; [reflexivity|].
  simpl. destruct (negb (isSystem (role m))) eqn:Hm; [|assumption].
  simpl. rewrite Hm, IH. reflexivity.
Qed.

Lemma find_system_none (messages : list ChatMessage) :
  find (fun m => isSystem (role m))
    (filter (fun m => negb (isSystem (role m))) messages) = None.
Proof.
  induction messages as [|m rest IH]; [reflexivity|].
  simpl. destruct (isSystem (role m)) eqn:Hm; simpl; [assumption|].
  rewrite Hm. assumption.
Qed.

Lemma nonsystem_iff (m : ChatMessage) :
  negb (isSystem (role m)) = true <-> role m <> system.
Proof. destruct (role m); simpl; split; congruence. Qed.



Abbreviation perform :=
  (perform clock api getOpenAIPrompt getClaudePrompt getV0Prompt).
Abbreviation performAll :=
  (performAll clock api getOpenAIPrompt getClaudePrompt getV0Prompt).

Lemma checkLimit_keeps_caps (service : Service) (w : World) :
  withinCaps (file w) ->
  withinCaps (file (snd (checkLimit clock service w))).
Proof.
  intros Hcaps. apply (checkLimit_withinCaps clock service w Hcaps).
Qed.

(** A dispatch increments only after the check has found the family
    strictly under its cap. *)
Lemma chat_keeps_caps (this : t) (messages : list ChatMessage)
  (options : ChatOptions) (w : World) :
  withinCaps (file w) ->
  withinCaps (file (snd (chat this messages options w))).
Proof.
  intros Hcaps. rewrite chat_steps.
  set (model := resolveModel this options).
  set (service := getServiceForModel model).
  destruct (checkLimit_withinCaps clock service w Hcaps) as [Hcaps1 Hunder].
  destruct (checkLimit clock service w) as [[status|e] w1];
    cbn [fst snd] in Hcaps1, Hunder |- *; [|assumption].
  specialize (Hunder status eq_refl).
  destruct (allowed status); [|assumption].
  pose proof (invokeBackend_world this model
                (prepareMessages model messages options) options w1)
    as [Hfile _].
  destruct (invokeBackend this model _ options w1) as [[result|e] w2];
    cbn [snd] in Hfile |- *.
  - pose proof (increment_frame clock service w2) as [_ [_ Hthrown]].
    destruct (increment clock service w2) as [[[]|e] w3] eqn:Hinc;
      cbn [fst snd] in Hthrown |- *.
    + intros other.
      rewrite (increment_storedCount clock service other w2 w3 Hinc), Hfile.
      specialize (Hcaps1 other). specialize (Hunder eq_refl).
      destruct service, other; cbn [Service_eqb]; try assumption; lia.
    + rewrite (Hthrown e eq_refl), Hfile. assumption.
  - rewrite Hfile. assumption.
Qed.

Lemma perform_keeps_caps (op : Operation) (w : World) :
  withinCaps (file w) -> withinCaps (file (perform op w)).
Proof.
  intros Hcaps. destruct op as [this messages options|service|service].
  - apply chat_keeps_caps. assumption.
  - apply checkLimit_keeps_caps. assumption.
  - unfold MultiModelAIService.perform, getRemainingQuota, bind.
    pose proof (checkLimit_keeps_caps service w Hcaps) as Hkept.
    destruct (checkLimit clock service w) as [[status|e] w1]; assumption.
Qed.

(** C2, amended.  Started from a missing file or from any file in which no
    family
    is over its cap, every sequence of dispatches and quota queries leaves
    every family's stored count at or under its cap, whether or not the
    writes succeed.  A [checkLimit] call made after the stored reset
    timestamp has passed answers that the whole cap remains and, when the
    quota directory can be written, leaves a file in which the family's
    count is 0 and its reset timestamp is now plus the family's window,
    which is not before now, the entries of the other two families being
    as they were; when the directory cannot be written the call throws the
    rejection of the write and the file is as it was.  A [checkLimit] call
    made while the window is running leaves the file alone, so the reset
    happens on the query and only then. *)
Theorem quota_within_caps_and_lazy_reset :
  withinCaps Missing /\
  (forall (ops : list Operation) (w : World),
     withinCaps (file w) -> withinCaps (file (performAll ops w))) /\
  (forall (service : Service) (w : World) (data : RateLimitData),
     file w = Stored data ->
     let now := clock (clockReads w) in
     resetAt (dataOf data service) < now ->
     match disk w with
     | None =>
         exists w' data',
           checkLimit clock service w =
             (Returned (mkLimitStatus true (daily (limits service)) None),
              w') /\
           file w' = Stored data' /\
           count (dataOf data' service) = 0 /\
           resetAt (dataOf data' service) = now + window (limits service) /\
           now <= resetAt (dataOf data' service) /\
           (forall other, other <> service ->
              dataOf data' other = dataOf data other)
     | Some error =>
         exists w',
           checkLimit clock service w = (Thrown error, w') /\
           file w' = file w
     end) /\
  (forall (service : Service) (w : World) (data : RateLimitData),
     file w = Stored data ->
     clock (clockReads w) <= resetAt (dataOf data service) ->
     file (snd (checkLimit clock service w)) = file w).
Proof.
  split; [|split; [|split]].
  - intros service. cbn. pose proof (daily_positive service). lia.
  - intros ops. induction ops as [|op ops IH]; intros w Hcaps.
    + assumption.
    + cbn [MultiModelAIService.performAll fold_left].
      apply IH. apply perform_keeps_caps. assumption.
  - intros service w data Hfile now Hexpired.
    rewrite (checkLimit_stored clock service w data Hfile). fold now.
    destruct (Z.ltb_spec (resetAt (dataOf data service)) now); [|lia].
    destruct (disk w) as [error|].
    + eexists. split; reflexivity.
    + eexists. eexists. split; [reflexivity|].
      cbn [file saved]. split; [reflexivity|].
      rewrite dataOf_withData_same. cbn [count resetAt].
      repeat split.
      * pose proof (window_positive service). lia.
      * intros other Hne. apply dataOf_withData_other. assumption.
  - intros service w data Hfile Hrunning.
    rewrite (checkLimit_stored clock service w data Hfile).
    destruct (Z.ltb_spec (resetAt (dataOf data service)) (clock (clockReads w)));
      [lia | reflexivity].
Qed.

End DispatchFacts.

(** C2, as stated, fails: the stored window ended an hour ago and the
    quota directory is read-only; the query throws the rejection of its
    write and the file still holds the old count. *)
Lemma lazy_reset_counterexample :
  let w := Samples.onReadOnlyDisk Samples.quotaExpired in
  checkLimit Samples.clock service_v0 w = (Thrown Samples.readOnly, ticked w) /\
  storedCount (file (ticked w)) service_v0 = 5 /\
  ~ resets_as_specified Samples.clock service_v0 w.
Proof.
  intros w. split; [reflexivity|]. split; [reflexivity|].
  intros Hreset.
  destruct (Hreset _ eq_refl eq_refl) as [data' [Hfile Hentry]].
  vm_compute in Hfile. injection Hfile as <-.
  vm_compute in Hentry. discriminate.
Qed.

(** C3, as stated, fails.  With the stored window ended, a dispatch whose backend call fails moves the stored counter
    from 5 to 0 and one whose backend call succeeds moves it from 5 to 1,
    because the check before the call has reset it.  With the window
    running and the quota directory read-only, a dispatch whose backend
    call succeeds leaves the counter at 5 and throws. *)
Lemma chat_counts_counterexample :
  ~ counts_as_specified Samples.clock Samples.apiDown Samples.template
      Samples.template Samples.template Samples.service Samples.messages
      Samples.options Samples.quotaExpired /\
  ~ counts_as_specified Samples.clock Samples.apiAnswers Samples.template
      Samples.template Samples.template Samples.service Samples.messages
      Samples.options Samples.quotaExpired /\
  ~ counts_as_specified Samples.clock Samples.apiAnswers Samples.template
      Samples.template Samples.template Samples.service Samples.messages
      Samples.options (Samples.onReadOnlyDisk Samples.quotaInUse).
Proof.
  split; [|split]; intros Hcounts;
    specialize (Hcounts
      (mkNetworkCall service_v0 "v0-1.0-md" None
         (map v0Message Samples.messages)) eq_refl);
    vm_compute in Hcounts; discriminate.
Qed.

Lemma chat_counts_only_successes_witness :
  (exists w3,
     chat Samples.clock Samples.apiAnswers Samples.template Samples.template
       Samples.template Samples.service Samples.messages Samples.options
       Samples.quotaInUse
     = (Returned "Looks good."%string, w3) /\
     storedCount (file w3) service_v0 = 6) /\
  (exists w2,
     chat Samples.clock Samples.apiDown Samples.template Samples.template
       Samples.template Samples.service Samples.messages Samples.options
       Samples.quotaInUse
     = (Thrown (mkError "V0 API error: 500 - Internal Server Error"), w2) /\
     file w2 = file Samples.quotaInUse) /\
  (exists w3,
     chat Samples.clock Samples.apiAnswers Samples.template Samples.template
       Samples.template Samples.service Samples.messages Samples.options
       (Samples.onReadOnlyDisk Samples.quotaInUse)
     = (Thrown Samples.readOnly, w3) /\
     file w3 = file Samples.quotaInUse).
Proof.
  split; [|split].
  - destruct (chat_counts_only_successes Samples.clock Samples.apiAnswers
                Samples.template Samples.template Samples.template
                Samples.service Samples.messages Samples.options
                Samples.quotaInUse (ticked Samples.quotaInUse)
                (mkLimitStatus true 195 None) eq_refl eq_refl)
      as [[w3 [Hchat [Hcount _]]] _].
    exists w3. split; [exact Hchat | exact Hcount].
  - destruct (chat_counts_only_successes Samples.clock Samples.apiDown
                Samples.template Samples.template Samples.template
                Samples.service Samples.messages Samples.options
                Samples.quotaInUse (ticked Samples.quotaInUse)
                (mkLimitStatus true 195 None) eq_refl eq_refl)
      as [[Hchat Hfile] _].
    eexists. split; [exact Hchat | exact Hfile].
  - destruct (chat_counts_only_successes Samples.clock Samples.apiAnswers
                Samples.template Samples.template Samples.template
                Samples.service Samples.messages Samples.options
                (Samples.onReadOnlyDisk Samples.quotaInUse)
                (ticked (Samples.onReadOnlyDisk Samples.quotaInUse))
                (mkLimitStatus true 195 None) eq_refl eq_refl)
      as [[w3 [Hchat Hfile]] _].
    exists w3. split; [exact Hchat | exact Hfile].
Defined.


End ChatFacts.

(** ** EnhancedScreenshotCapture.captureWithRetry *)

Module CaptureFacts.
Import Js EnhancedScreenshotCapture.

Section RetryFacts.

Variable strategies : list RetryStrategy.
Variable captureScreenshot :
  list Event -> string -> ScreenshotOptions -> RetryStrategy -> Outcome string.
Variable url : string.
Variable options : ScreenshotOptions.
Variable retries : Z.

Hypothesis strategies_nonempty : strategies <> [].

Abbreviation attemptLoop :=
  (attemptLoop strategies captureScreenshot url options retries).

(** One turn of the loop, as an equation. *)
Lemma attemptLoop_step (attempt : Z) (lastError : option Error)
  (log : list Event) :
  attemptLoop attempt lastError log =
  if attempt <=? retries then
    match strategyFor strategies attempt with
    | Some strategy =>
        match captureScreenshot log url options strategy with
        | Returned result =>
            (Returned result,
             log ++ [Attempt attempt strategy (Returned result)])
        | Thrown error =>
            attemptLoop (attempt + 1) (Some error)
              (backoff retries attempt
                 (log ++ [Attempt attempt strategy (Thrown error)]))
        end
    | None =>
        attemptLoop (attempt + 1)
          (Some (mkError "Cannot read properties of undefined (reading 'name')"))
          (backoff retries attempt log)
    end
  else (Thrown (exhausted retries lastError), log).
Proof.
  rewrite attemptLoop_unfold_eq.
  unfold attemptLoop_unfold, attemptLoop_unfold_clause_1.
  destruct (Z_le_dec attempt retries) as [Hle|Hgt];
    destruct (Z.leb_spec attempt retries); try lia; [|reflexivity].
  unfold attemptLoop_unfold_clause_1_clause_1.
  destruct (strategyFor strategies attempt) as [strategy|]; [|reflexivity].
  unfold attemptLoop_unfold_clause_1_clause_1_clause_1.
  destruct (captureScreenshot log url options strategy); reflexivity.
Qed.

(** The clamped index always lands inside a table that is not empty. *)
Lemma strategyFor_defined (attempt : Z) :
  0 <= attempt -> exists strategy, strategyFor strategies attempt = Some strategy.
Proof.
  intros Hpos. unfold strategyFor, get, length.
  assert (Hlen : (0 < List.length strategies)%nat).
  { destruct strategies; [contradiction | simpl; lia]. }
  destruct (Z.ltb_spec (Z.min attempt (Z.of_nat (List.length strategies) - 1)) 0);
    [lia|].
  destruct (nth_error strategies
              (Z.to_nat (Z.min attempt (Z.of_nat (List.length strategies) - 1))))
    as [strategy|] eqn:Hnth; [eauto|].
  apply nth_error_None in Hnth. lia.
Qed.

Lemma backoff_appends (attempt : Z) (log : list Event) :
  exists pause,
    backoff retries attempt log = log ++ pause /\
    attemptsOf pause = [] /\ attemptIndices pause = [] /\
    Forall failed pause /\ Forall (selectedFrom strategies) pause /\
    forall init, lastErrorOf init pause = init.
Proof.
  unfold backoff. destruct (attempt <? retries).
  - exists [Waited ((attempt + 1) * 2000)].
    repeat split; try reflexivity; repeat constructor.
  - exists []. rewrite app_nil_r.
    repeat split; try reflexivity; constructor.
Qed.

Lemma attemptIndices_length (log : list Event) :
  List.length (attemptIndices log) = List.length (attemptsOf log).
Proof.
  induction log as [|[attempt strategy outcome|ms] rest IH]; simpl;
    [reflexivity | rewrite IH; reflexivity | assumption].
Qed.

(** The run of the loop from a given attempt index on: the events it adds
    to the log and the way it ends. *)
Lemma attemptLoop_run (n : nat) :
  forall (attempt : Z) (lastError : option Error) (log : list Event),
    Z.to_nat (retries + 1 - attempt) = n ->
    0 <= attempt ->
    exists events,
      snd (attemptLoop attempt lastError log) = log ++ events /\
      Forall (selectedFrom strategies) events /\
      attemptIndices events =
        map (fun k => attempt + Z.of_nat k)
            (seq 0 (List.length (attemptsOf events))) /\
      (List.length (attemptsOf events) <= n)%nat /\
      match fst (attemptLoop attempt lastError log) with
      | Returned path =>
          exists earlier i strategy,
            events = earlier ++ [Attempt i strategy (Returned path)] /\
            Forall failed earlier /\
            captureScreenshot (log ++ earlier) url options strategy
              = Returned path
      | Thrown e =>
          Forall failed events /\
          List.length (attemptsOf events) = n /\
          e = exhausted retries (lastErrorOf lastError events)
      end.
Proof.
  induction n as [|n IH]; intros attempt lastError log Hmeasure Hpos;
    rewrite attemptLoop_step.
  - destruct (Z.leb_spec attempt retries); [lia|].
    exists []. cbn [fst snd]. rewrite app_nil_r.
    repeat split; try reflexivity; try constructor.
  - destruct (Z.leb_spec attempt retries); [|lia].
    destruct (strategyFor_defined attempt Hpos) as [strategy Hstrategy].
    rewrite Hstrategy.
    destruct (captureScreenshot log url options strategy)
      as [path|error] eqn:Hcapture.
    + exists [Attempt attempt strategy (Returned path)]. cbn [fst snd].
      repeat split.
      * repeat constructor; assumption.
      * cbn. f_equal. lia.
      * cbn. lia.
      * exists [], attempt, strategy. rewrite app_nil_r.
        repeat split; [constructor | assumption].
    + destruct (backoff_appends attempt
                  (log ++ [Attempt attempt strategy (Thrown error)]))
        as [pause [Hbackoff [Hnone [Hnoidx [Hpause [Hsel Hlast]]]]]].
      rewrite Hbackoff.
      destruct (IH (attempt + 1) (Some error)
                  ((log ++ [Attempt attempt strategy (Thrown error)]) ++ pause))
        as [events [Hlog [Hselected [Hindices [Hcount Hend]]]]];
        [lia | lia |].
      set (first := Attempt attempt strategy (Thrown error) :: pause).
      assert (Hfirst : (log ++ [Attempt attempt strategy (Thrown error)]) ++ pause
                       = log ++ first).
      { unfold first. rewrite <- app_assoc. reflexivity. }
      assert (Hattempts : attemptsOf (first ++ events)
                          = Attempt attempt strategy (Thrown error)
                            :: attemptsOf events).
      { unfold first, attemptsOf in *. cbn [app filter isAttempt].
        rewrite filter_app, Hnone. reflexivity. }
      exists (first ++ events). rewrite Hfirst in *.
      split; [rewrite Hlog, <- app_assoc; reflexivity|].
      split.
      { apply Forall_app. split; [|assumption].
        unfold first. constructor; [split; assumption | assumption]. }
      split.
      { rewrite Hattempts. unfold first, attemptIndices in *.
        cbn [app flat_map List.length seq map].
        rewrite flat_map_app, Hnoidx, Hindices. cbn [app].
        f_equal; [lia|].
        rewrite <- seq_shift, map_map. apply map_ext. intros k. lia. }
      split; [rewrite Hattempts; cbn [List.length]; lia|].
      destruct (fst (attemptLoop (attempt + 1) (Some error) (log ++ first)))
        as [path|e].
      * destruct Hend as [earlier [i [s [Hevents [Hfailed Hcall]]]]].
        exists (first ++ earlier), i, s.
        rewrite Hevents, <- !app_assoc in *.
        repeat split; [|assumption].
        apply Forall_app. split; [|assumption].
        unfold first. constructor; [exact I | assumption].
      * destruct Hend as [Hfailed [Hlen Hexhausted]].
        repeat split.
        -- apply Forall_app. split; [|assumption].
           unfold first. constructor; [exact I | assumption].
        -- rewrite Hattempts. cbn [List.length]. lia.
        -- rewrite Hexhausted. unfold lastErrorOf in *.
           rewrite fold_left_app. unfold first. cbn [fold_left].
           rewrite Hlast. reflexivity.
Qed.

(** Appending an attempt that is the call's answer, or a pause, keeps the
    log a record of calls. *)
Lemma answered_attempt (log : list Event) (attempt : Z)
  (strategy : RetryStrategy) :
  answered captureScreenshot url options log ->
  answered captureScreenshot url options
    (log ++ [Attempt attempt strategy
               (captureScreenshot log url options strategy)]).
Proof.
  intros Hlog n i s o Hnth.
  destruct (Nat.lt_ge_cases n (List.length log)) as [Hin|Hout].
  - rewrite nth_error_app1 in Hnth by assumption.
    rewrite firstn_app.
    replace (n - List.length log)%nat with 0%nat by lia.
    cbn [firstn]. rewrite app_nil_r. apply (Hlog n i s o Hnth).
  - rewrite nth_error_app2 in Hnth by assumption.
    destruct (n - List.length log)%nat as [|m] eqn:Hm;
      [|destruct m; discriminate].
    cbn in Hnth. injection Hnth as <- <- <-.
    assert (n = List.length log) as -> by lia.
    rewrite firstn_app, Nat.sub_diag, firstn_all.
    cbn [firstn]. rewrite app_nil_r. reflexivity.
Qed.

Lemma answered_pause (log : list Event) (ms : Z) :
  answered captureScreenshot url options log ->
  answered captureScreenshot url options (log ++ [Waited ms]).
Proof.
  intros Hlog n i s o Hnth.
  destruct (Nat.lt_ge_cases n (List.length log)) as [Hin|Hout].
  - rewrite nth_error_app1 in Hnth by assumption.
    rewrite firstn_app.
    replace (n - List.length log)%nat with 0%nat by lia.
    cbn [firstn]. rewrite app_nil_r. apply (Hlog n i s o Hnth).
  - rewrite nth_error_app2 in Hnth by assumption.
    destruct (n - List.length log)%nat as [|m]; [|destruct m]; discriminate.
Qed.

Lemma answered_backoff (log : list Event) (attempt : Z) :
  answered captureScreenshot url options log ->
  answered captureScreenshot url options (backoff retries attempt log).
Proof.
  intros Hlog. unfold backoff. destruct (attempt <? retries);
    [apply answered_pause|]; assumption.
Qed.

(** The loop logs an attempt only for a call it made, with the strategy
    it handed to the call and the outcome the call had. *)
Lemma attemptLoop_answered (n : nat) :
  forall (attempt : Z) (lastError : option Error) (log : list Event),
    Z.to_nat (retries + 1 - attempt) = n ->
    answered captureScreenshot url options log ->
    answered captureScreenshot url options
      (snd (attemptLoop attempt lastError log)).
Proof.
  induction n as [|n IH]; intros attempt lastError log Hmeasure Hlog;
    rewrite attemptLoop_step.
  - destruct (Z.leb_spec attempt retries); [lia | assumption].
  - destruct (Z.leb_spec attempt retries); [|lia].
    destruct (strategyFor strategies attempt) as [strategy|].
    + pose proof (answered_attempt log attempt strategy Hlog) as Hcall.
      destruct (captureScreenshot log url options strategy) as [path|error].
      * exact Hcall.
      * apply IH; [lia|]. apply answered_backoff. exact Hcall.
    + apply IH; [lia|]. apply answered_backoff. exact Hlog.
Qed.

(** A run that throws ends with the attempt of index [retries], whose
    error is the one the thrown message quotes. *)
Lemma attemptLoop_last (n : nat) :
  forall (attempt : Z) (lastError : option Error) (log : list Event)
         (e : Error),
    Z.to_nat (retries + 1 - attempt) = S n ->
    0 <= attempt ->
    fst (attemptLoop attempt lastError log) = Thrown e ->
    exists earlier strategy last,
      snd (attemptLoop attempt lastError log) =
        log ++ earlier ++ [Attempt retries strategy (Thrown last)] /\
      captureScreenshot (log ++ earlier) url options strategy = Thrown last /\
      e = exhausted retries (Some last).
Proof.
  induction n as [|n IH]; intros attempt lastError log e Hmeasure Hpos;
    rewrite attemptLoop_step;
    (destruct (Z.leb_spec attempt retries); [|lia]);
    destruct (strategyFor_defined attempt Hpos) as [strategy Hstrategy];
    rewrite Hstrategy;
    destruct (captureScreenshot log url options strategy)
      as [path|error] eqn:Hcapture;
    try discriminate; unfold backoff.
  - destruct (Z.ltb_spec attempt retries); [lia|].
    rewrite attemptLoop_step.
    destruct (Z.leb_spec (attempt + 1) retries); [lia|].
    cbn [fst snd]. intros He. injection He as <-.
    exists [], strategy, error. rewrite app_nil_r.
    assert (attempt = retries) as -> by lia.
    repeat split. assumption.
  - destruct (Z.ltb_spec attempt retries); [|lia].
    intros He.
    destruct (IH (attempt + 1) (Some error)
                ((log ++ [Attempt attempt strategy (Thrown error)])
                   ++ [Waited ((attempt + 1) * 2000)]) e)
      as [earlier [final [last [Hlog [Hcall Hmessage]]]]];
      [lia | lia | exact He |].
    exists (Attempt attempt strategy (Thrown error)
              :: Waited ((attempt + 1) * 2000) :: earlier), final, last.
    rewrite Hlog. rewrite <- !app_assoc in *. cbn [app] in *.
    repeat split; assumption.
Qed.

End RetryFacts.

Lemma lastErrorOf_failed (log : list Event) :
  forall init,
    Forall failed log ->
    (attemptsOf log = [] /\ lastErrorOf init log = init) \/
    (exists e, lastErrorOf init log = Some e).
Proof.
  induction log as [|ev rest IH]; intros init Hfailed.
  - left. split; reflexivity.
  - inversion Hfailed as [|ev' rest' Hev Hrest]; subst.
    destruct ev as [attempt strategy [path|e]|ms]; cbn in Hev; [contradiction| |].
    + right. destruct (IH (Some e) Hrest) as [[_ Hsame]|[e' He']].
      * exists e. exact Hsame.
      * exists e'. exact He'.
    + destruct (IH init Hrest) as [[Hnone Hsame]|[e' He']].
      * left. split; assumption.
      * right. exists e'. exact He'.
Qed.

(** [captureWithRetry] over any table that is not empty. *)
Lemma captureWithRetryOver_run (strategies : list RetryStrategy)
  (captureScreenshot :
     list Event -> string -> ScreenshotOptions -> RetryStrategy -> Outcome string)
  (url : string) (options : ScreenshotOptions) :
  strategies <> [] ->
  let N := match retries options with Some n => n | None => 3 end in
  let run := captureWithRetryOver strategies captureScreenshot url options in
  Forall (selectedFrom strategies) (snd run) /\
  attemptIndices (snd run) =
    map Z.of_nat (seq 0 (List.length (attemptsOf (snd run)))) /\
  (List.length (attemptsOf (snd run)) <= Z.to_nat (N + 1))%nat /\
  match fst run with
  | Returned path =>
      exists earlier i strategy,
        snd run = earlier ++ [Attempt i strategy (Returned path)] /\
        Forall failed earlier /\
        captureScreenshot earlier url options strategy = Returned path
  | Thrown e =>
      Forall failed (snd run) /\
      List.length (attemptsOf (snd run)) = Z.to_nat (N + 1) /\
      e = exhausted N (lastErrorOf None (snd run))
  end.
Proof.
  intros Hne N run.
  destruct (attemptLoop_run strategies captureScreenshot url options N Hne
              (Z.to_nat (N + 1)) 0 None [])
    as [events [Hlog [Hselected [Hindices [Hcount Hend]]]]];
    [f_equal; lia | lia |].
  change (snd run = events) in Hlog.
  change (match fst run with
          | Returned path =>
              exists earlier i strategy,
                events = earlier ++ [Attempt i strategy (Returned path)] /\
                Forall failed earlier /\
                captureScreenshot ([] ++ earlier) url options strategy
                  = Returned path
          | Thrown e =>
              Forall failed events /\
              List.length (attemptsOf events) = Z.to_nat (N + 1) /\
              e = exhausted N (lastErrorOf None events)
          end) in Hend.
  rewrite Hlog. repeat split; assumption.
Qed.

(** The log of [captureWithRetry] is a record of the calls it made. *)
Lemma captureWithRetryOver_answered (strategies : list RetryStrategy)
  (captureScreenshot :
     list Event -> string -> ScreenshotOptions -> RetryStrategy -> Outcome string)
  (url : string) (options : ScreenshotOptions) :
  answered captureScreenshot url options
    (snd (captureWithRetryOver strategies captureScreenshot url options)).
Proof.
  unfold captureWithRetryOver.
  eapply attemptLoop_answered; [reflexivity|].
  intros n i s o Hnth. destruct n; discriminate.
Qed.

(** When [captureWithRetry] throws, its last event is the failed attempt
    of index [N], and the message quotes the error of that call. *)
Lemma captureWithRetryOver_last (strategies : list RetryStrategy)
  (captureScreenshot :
     list Event -> string -> ScreenshotOptions -> RetryStrategy -> Outcome string)
  (url : string) (options : ScreenshotOptions) (e : Error) :
  strategies <> [] ->
  let N := match retries options with Some n => n | None => 3 end in
  0 <= N ->
  let run := captureWithRetryOver strategies captureScreenshot url options in
  fst run = Thrown e ->
  exists earlier strategy last,
    snd run = earlier ++ [Attempt N strategy (Thrown last)] /\
    captureScreenshot earlier url options strategy = Thrown last /\
    e = exhausted N (Some last).
Proof.
  intros Hne N Hbudget run Hthrown.
  destruct (attemptLoop_last strategies captureScreenshot url options N Hne
              (Z.to_nat N) 0 None [] e)
    as [earlier [strategy [last [Hlog [Hcall Hmessage]]]]];
    [lia | lia | exact Hthrown |].
  exists earlier, strategy, last. repeat split; assumption.
Qed.

Lemma strategyFor_final (strategies : list RetryStrategy) (attempt : Z) :
  length strategies - 1 <= attempt ->
  strategyFor strategies attempt = finalStrategy strategies.
Proof.
  intros Hlate. unfold strategyFor, finalStrategy.
  rewrite Z.min_r by assumption. reflexivity.
Qed.

(** C6.  In every run of [captureWithRetry] the attempts carry the indices
    0, 1, 2, ... in order, and the attempt with index [i] is made with
    [DEFAULT_RETRY_STRATEGIES[min(i, length - 1)]]: this entry is the
    strategy handed to [captureScreenshot] for that attempt, and the
    attempt's outcome is what [captureScreenshot] answered to it.  From
    the index of the last entry on the strategy is the last entry of the
    table, so a run of six failing attempts uses Standard, Dynamic
    Content, SPA Mode and then Force Load three times; a page that loads
    in SPA mode only is captured by the attempt of index 2. *)
Theorem captureWithRetry_strategy_selection
  (captureScreenshot :
     list Event -> string -> ScreenshotOptions -> RetryStrategy -> Outcome string)
  (url : string) (options : ScreenshotOptions) :
  let table := Primary.DEFAULT_RETRY_STRATEGIES in
  let log := snd (Primary.captureWithRetry captureScreenshot url options) in
  Forall (fun ev =>
            match ev with
            | Attempt i strategy _ =>
                0 <= i /\
                get table (Z.min i (length table - 1)) = Some strategy
            | Waited _ => True
            end) log /\
  (forall n i strategy outcome,
     nth_error log n = Some (Attempt i strategy outcome) ->
     get table (Z.min i (length table - 1)) = Some strategy /\
     outcome = captureScreenshot (firstn n log) url options strategy) /\
  attemptIndices log = map Z.of_nat (seq 0 (List.length (attemptsOf log))) /\
  (forall i, length table - 1 <= i ->
             strategyFor table i = get table (length table - 1)) /\
  strategyNames
    (snd (Primary.captureWithRetry Samples.neverLoads url (Samples.withRetries 5)))
  = [ "Standard"; "Dynamic Content"; "SPA Mode";
      "Force Load"; "Force Load"; "Force Load" ]%string /\
  Primary.captureWithRetry Samples.loadsInSpaMode url (Samples.withRetries 5)
  = (Returned "/work/shot.png"%string,
     [ Attempt 0 (mkRetryStrategy "Standard" 2000 None (Some (one networkidle0)))
         (Thrown (mkError "Navigation timeout of 60000 ms exceeded"));
       Waited 2000;
       Attempt 1
         (mkRetryStrategy "Dynamic Content" 5000 None
            (Some (one domcontentloaded)))
         (Thrown (mkError "Navigation timeout of 60000 ms exceeded"));
       Waited 4000;
       Attempt 2 (mkRetryStrategy "SPA Mode" 8000 None (Some (one networkidle2)))
         (Returned "/work/shot.png"%string) ]).
Proof.
  intros table log.
  destruct (captureWithRetryOver_run table captureScreenshot url options)
    as [Hselected [Hindices _]]; [discriminate|].
  split; [exact Hselected|].
  split.
  { intros n i strategy outcome Hnth. split.
    - pose proof (proj1 (Forall_forall _ _) Hselected _
                    (nth_error_In _ _ Hnth)) as Hev.
      apply Hev.
    - apply (captureWithRetryOver_answered table captureScreenshot url options
               n i strategy outcome Hnth). }
  split; [exact Hindices|].
  split; [intros i Hlate; apply strategyFor_final; assumption|].
  split; reflexivity.
Qed.

(** The same selection rule holds in the second copy of the module. *)
Lemma secondary_copy_strategy_selection
  (captureScreenshot :
     list Event -> string -> ScreenshotOptions -> RetryStrategy -> Outcome string)
  (url : string) (options : ScreenshotOptions) :
  let log := snd (Secondary.captureWithRetry captureScreenshot url options) in
  Forall (selectedFrom Secondary.DEFAULT_RETRY_STRATEGIES) log /\
  attemptIndices log = map Z.of_nat (seq 0 (List.length (attemptsOf log))).
Proof.
  intros log.
  destruct (captureWithRetryOver_run Secondary.DEFAULT_RETRY_STRATEGIES
              captureScreenshot url options)
    as [Hselected [Hindices _]]; [discriminate|].
  split; assumption.
Qed.

(** C7.  With a retry budget [N >= 0], [captureWithRetry] calls
    [captureScreenshot] at most [N + 1] times: its log holds at most
    [N + 1] attempts and each of them is a call, carrying the outcome the
    call had.  It returns a path exactly when its last event is a
    successful attempt: the path is the one [captureScreenshot] returned
    for that attempt, every earlier attempt having failed.  Otherwise all
    [N + 1] attempts failed, the last event is the attempt of index [N],
    and it throws one error whose message names [N + 1] attempts and ends
    with the message of the error that [captureScreenshot] threw in that
    last attempt.  In particular it throws when every attempt fails. *)
Theorem captureWithRetry_attempts_and_outcome
  (captureScreenshot :
     list Event -> string -> ScreenshotOptions -> RetryStrategy -> Outcome string)
  (url : string) (options : ScreenshotOptions) :
  let N := match retries options with Some n => n | None => 3 end in
  0 <= N ->
  let run := Primary.captureWithRetry captureScreenshot url options in
  (List.length (attemptsOf (snd run)) <= Z.to_nat (N + 1))%nat /\
  (forall n i strategy outcome,
     nth_error (snd run) n = Some (Attempt i strategy outcome) ->
     outcome = captureScreenshot (firstn n (snd run)) url options strategy) /\
  match fst run with
  | Returned path =>
      exists earlier i strategy,
        snd run = earlier ++ [Attempt i strategy (Returned path)] /\
        Forall failed earlier /\
        captureScreenshot earlier url options strategy = Returned path
  | Thrown e =>
      Forall failed (snd run) /\
      List.length (attemptsOf (snd run)) = Z.to_nat (N + 1) /\
      exists earlier strategy last,
        snd run = earlier ++ [Attempt N strategy (Thrown last)] /\
        captureScreenshot earlier url options strategy = Thrown last /\
        lastErrorOf None (snd run) = Some last /\
        e = mkError ("Failed to capture screenshot after " ++
                     numberToString (N + 1) ++
                     " attempts. Last error: " ++ message last)
  end /\
  ((forall history strategy,
      exists e, captureScreenshot history url options strategy = Thrown e) ->
   exists e, fst run = Thrown e).
Proof.
  intros N Hbudget run.
  destruct (captureWithRetryOver_run Primary.DEFAULT_RETRY_STRATEGIES
              captureScreenshot url options)
    as [_ [_ [Hcount Hend]]]; [discriminate|].
  fold N in Hcount, Hend.
  pose proof (captureWithRetryOver_answered Primary.DEFAULT_RETRY_STRATEGIES
                captureScreenshot url options) as Hanswered.
  pose proof (captureWithRetryOver_last Primary.DEFAULT_RETRY_STRATEGIES
                captureScreenshot url options) as Hlast.
  cbn zeta in Hlast. fold N in Hlast.
  change (captureWithRetryOver Primary.DEFAULT_RETRY_STRATEGIES
            captureScreenshot url options) with run
    in Hcount, Hend, Hanswered, Hlast.
  split; [exact Hcount|].
  split; [exact Hanswered|].
  destruct (fst run) as [path|e].
  - split; [exact Hend|].
    intros Hfails.
    destruct Hend as [earlier [i [strategy [_ [_ Hcall]]]]].
    destruct (Hfails earlier strategy) as [e He]. congruence.
  - split; [|intros _; exists e; reflexivity].
    destruct Hend as [Hfailed [Hlen Hexhausted]].
    repeat split; try assumption.
    destruct (Hlast e ltac:(discriminate) Hbudget eq_refl)
      as [earlier [strategy [last [Hlog [Hcall Hmessage]]]]].
    exists earlier, strategy, last.
    assert (Hquoted : lastErrorOf None (snd run) = Some last).
    { rewrite Hlog. unfold lastErrorOf. rewrite fold_left_app. reflexivity. }
    repeat split; assumption.
Qed.

Lemma captureWithRetry_attempts_and_outcome_witness :
  (let run :=
     Primary.captureWithRetry Samples.neverLoads "https://example.com"
       (Samples.withRetries 1) in
   (List.length (attemptsOf (snd run)) <= 2)%nat /\
   fst run =
     Thrown (mkError "Failed to capture screenshot after 2 attempts. Last error: Navigation timeout of 60000 ms exceeded")) /\
  (let run :=
     Primary.captureWithRetry Samples.loadsInSpaMode "https://example.com"
       (Samples.withRetries 3) in
   exists earlier i strategy,
     snd run = earlier ++ [Attempt i strategy (Returned "/work/shot.png"%string)] /\
     Forall failed earlier /\
     Samples.loadsInSpaMode earlier "https://example.com"
       (Samples.withRetries 3) strategy
     = Returned "/work/shot.png"%string).
Proof.
  split.
  - destruct (captureWithRetry_attempts_and_outcome Samples.neverLoads
                "https://example.com" (Samples.withRetries 1)
                ltac:(cbn; lia)) as [Hcount [_ [Hend _]]].
    split; [exact Hcount|].
    destruct Hend as [_ [_ [earlier [strategy [last [Hlog [Hcall [_ He]]]]]]]].
    injection Hcall as <-. exact (f_equal Thrown He).
  - destruct (captureWithRetry_attempts_and_outcome Samples.loadsInSpaMode
                "https://example.com" (Samples.withRetries 3)
                ltac:(cbn; lia)) as [_ [_ [Hend _]]].
    exact Hend.
Defined.

(** C8, as stated, fails: in neither copy of the table does the final
    strategy wait longest.  It waits 3000 ms, the third strategy 8000 ms
    (10000 ms in the second copy). *)
Lemma final_strategy_counterexample :
  ~ final_waits_longest Primary.DEFAULT_RETRY_STRATEGIES /\
  ~ final_waits_longest Secondary.DEFAULT_RETRY_STRATEGIES.
Proof.
  split; intros [final [Hfinal Hlongest]];
    vm_compute in Hfinal; injection Hfinal as <-.
  - assert (Hle : 8000 <= 3000); [|lia].
    apply (Hlongest
             (mkRetryStrategy "SPA Mode" 8000 None (Some (one networkidle2)))).
    cbn. tauto.
  - assert (Hle : 10000 <= 3000); [|lia].
    apply (Hlongest
             (mkRetryStrategy "Extended Wait" 10000 None
                (Some (several [domcontentloaded; networkidle2])))).
    cbn. tauto.
Qed.

(** C8, amended.  In both copies of the table the final strategy waits for
    the [load] event and then 3000 ms.  The longest settle wait of the
    table is that of the third strategy, 8000 ms (10000 ms in the second
    copy); the final strategy waits longer than the first strategy only. *)
Theorem final_strategy_profile :
  (finalStrategy Primary.DEFAULT_RETRY_STRATEGIES =
     Some (mkRetryStrategy "Force Load" 3000 None (Some (one load))) /\
   map waitTime Primary.DEFAULT_RETRY_STRATEGIES = [2000; 5000; 8000; 3000] /\
   longestWait Primary.DEFAULT_RETRY_STRATEGIES = 8000 /\
   option_map waitTime (get Primary.DEFAULT_RETRY_STRATEGIES 2) = Some 8000)
  /\
  (finalStrategy Secondary.DEFAULT_RETRY_STRATEGIES =
     Some (mkRetryStrategy "Minimal" 3000
             (Some ["--disable-images"; "--disable-javascript"]%string)
             (Some (one load))) /\
   map waitTime Secondary.DEFAULT_RETRY_STRATEGIES = [2000; 5000; 10000; 3000] /\
   longestWait Secondary.DEFAULT_RETRY_STRATEGIES = 10000 /\
   option_map waitTime (get Secondary.DEFAULT_RETRY_STRATEGIES 2) = Some 10000)
  /\
  (forall table final,
     table = Primary.DEFAULT_RETRY_STRATEGIES \/
     table = Secondary.DEFAULT_RETRY_STRATEGIES ->
     finalStrategy table = Some final ->
     forall strategy, In strategy table ->
       (waitTime strategy < waitTime final <-> name strategy = "Standard"%string)).
Proof.
  split; [repeat split|split; [repeat split|]].
  intros table final [->| ->] Hfinal;
    vm_compute in Hfinal; injection Hfinal as <-;
    intros strategy Hin; cbn in Hin;
    repeat (destruct Hin as [<-|Hin];
            [cbn; split; intros H; try lia; try reflexivity; discriminate|]);
    contradiction.
Qed.

End CaptureFacts.

(* ===================================================================== *)
(** * Part II, continued: further properties of the code *)
(* ===================================================================== *)

(** ** RateLimiter: answers, consumption, independence of families *)

Module QuotaFacts.
Import Js RateLimiter RateLimiterFacts.

Lemma ceilDiv_bounds (a b : Z) :
  0 < b -> a <= ceilDiv a b * b < a + b.
Proof.
  intros Hb. unfold ceilDiv.
  pose proof (Z.div_mod (- a) b ltac:(lia)) as Hdiv.
  pose proof (Z.mod_pos_bound (- a) b Hb) as Hmod.
  nia.
Qed.

Lemma withData_same (data : RateLimitData) (service : Service) :
  withData data service (dataOf data service) = data.
Proof. destruct data, service; reflexivity. Qed.

Section ClockFacts.

Variable clock : nat -> Z.

(** X1.  Every answer of [checkLimit] is coherent, for a file that is
    readable, missing, corrupt or without entries and a directory that
    can be written or not.  When the call returns, [remaining] is the cap
    minus the count the call leaves in the file, floored at 0; the call is
    allowed exactly when something remains; the time to the reset is given
    exactly when the call is refused; and the file had entries or could
    not be read at all.  When the call throws, the file is as it was, and
    the error is the [TypeError] of a file without entries or the
    rejection of the write that saves a reset.  The call never touches the
    network. *)
Theorem checkLimit_status_coherent (service : Service) (w : World) :
  match checkLimit clock service w with
  | (Returned status, w') =>
      remaining status =
        Z.max 0 (daily (limits service) - storedCount (file w') service) /\
      (allowed status = true <-> 0 < remaining status) /\
      (resetIn status = None <-> allowed status = true) /\
      network w' = network w /\
      (forall isNull, file w <> Entryless isNull)
  | (Thrown error, w') =>
      file w' = file w /\
      network w' = network w /\
      ((exists isNull,
          file w = Entryless isNull /\
          error = noEntry isNull service "resetAt") \/
       (disk w = Some error /\
        forall isNull, file w <> Entryless isNull))
  end.
Proof.
  destruct (file_cases w) as [[data Hfile]|[Hfile|[isNull Hfile]]].
  - rewrite (checkLimit_stored clock service w data Hfile).
    destruct (Z.ltb_spec (resetAt (dataOf data service)) (clock (clockReads w))).
    + destruct (disk w) as [error|].
      * repeat split. right. split; [reflexivity|].
        intros isNull. rewrite Hfile. discriminate.
      * cbn [remaining allowed resetIn file saved storedCount network ticked].
        rewrite dataOf_withData_same. cbn [count].
        pose proof (daily_positive service).
        repeat split; try reflexivity; try lia.
        rewrite Hfile. discriminate.
    + cbn [remaining allowed resetIn statusOf file ticked network].
      rewrite Hfile. cbn [storedCount].
      destruct (Z.ltb_spec 0
                  (Z.max 0 (daily (limits service) - count (dataOf data service))));
        repeat split; try reflexivity; try lia; try discriminate.
  - rewrite (checkLimit_unreadable clock service w Hfile).
    pose proof (daily_positive service).
    assert (Hentries : forall isNull, file w <> Entryless isNull).
    { intros isNull. destruct Hfile as [Hfile|Hfile]; rewrite Hfile;
        discriminate. }
    destruct (_ <? _); [destruct (disk w) as [error|]|].
    + repeat split. right. split; [reflexivity | assumption].
    + cbn [remaining allowed resetIn file saved storedCount network ticked].
      rewrite dataOf_withData_same. cbn [count].
      repeat split; try reflexivity; try lia; try assumption.
    + cbn [remaining allowed resetIn file ticked network].
      destruct Hfile as [Hfile|Hfile]; rewrite Hfile; cbn [storedCount];
        repeat split; try reflexivity; try lia; try discriminate.
  - rewrite (checkLimit_entryless clock service w isNull Hfile).
    repeat split. left. exists isNull. split; [assumption | reflexivity].
Qed.

(** The world after [k] increments of a family. *)
Lemma increments_stored (service : Service) (k : nat) :
  forall (w : World) (data : RateLimitData),
    file w = Stored data ->
    disk w = None ->
    Nat.iter k (fun w => snd (increment clock service w)) w =
    saved (withData data service
             (mkServiceData (count (dataOf data service) + Z.of_nat k)
                            (resetAt (dataOf data service)))) w.
Proof.
  induction k as [|k IH]; intros w data Hfile Hdisk.
  - change (Nat.iter 0 (fun w => snd (increment clock service w)) w) with w.
    rewrite Z.add_0_r.
    replace (mkServiceData (count (dataOf data service))
                           (resetAt (dataOf data service)))
      with (dataOf data service) by (destruct (dataOf data service); reflexivity).
    rewrite withData_same. unfold saved. rewrite <- Hfile.
    destruct w; reflexivity.
  - rewrite Nat.iter_succ, (IH w data Hfile Hdisk).
    erewrite (increment_stored clock service) by reflexivity.
    cbn [disk saved]. rewrite Hdisk.
    rewrite dataOf_withData_same. cbn [count resetAt].
    rewrite Nat2Z.inj_succ, <- Z.add_1_r, Z.add_assoc.
    destruct data, service; reflexivity.
Qed.

(** X2.  Within a running window, and with a quota directory that can be
    written, every increment of a family uses up one request of that
    family and of no other: after [k] increments [getRemainingQuota]
    answers the cap minus the stored count minus [k], floored at 0, and
    the other families' counters are as before.  So a family whose count
    is [c] is refused from the [(cap - c)]-th increment on. *)
Theorem increments_consume_quota (service : Service) (k : nat)
  (w : World) (data : RateLimitData) :
  file w = Stored data ->
  disk w = None ->
  clock (clockReads w) <= resetAt (dataOf data service) ->
  let w_k := Nat.iter k (fun w => snd (increment clock service w)) w in
  fst (getRemainingQuota clock service w_k) =
    Returned (Z.max 0 (daily (limits service)
                       - (count (dataOf data service) + Z.of_nat k))) /\
  (option_map allowed
     (match fst (checkLimit clock service w_k) with
      | Returned status => Some status
      | Thrown _ => None
      end)
   = Some (count (dataOf data service) + Z.of_nat k <? daily (limits service))) /\
  (forall other, other <> service ->
     storedCount (file w_k) other = storedCount (file w) other).
Proof.
  intros Hfile Hdisk Hrunning w_k. unfold w_k.
  rewrite (increments_stored service k w data Hfile Hdisk).
  set (entry := mkServiceData (count (dataOf data service) + Z.of_nat k)
                              (resetAt (dataOf data service))).
  assert (Hcheck :
    checkLimit clock service (saved (withData data service entry) w) =
    (Returned (statusOf service entry (clock (clockReads w))),
     ticked (saved (withData data service entry) w))).
  { erewrite (checkLimit_stored clock service) by reflexivity.
    rewrite dataOf_withData_same. cbn [clockReads saved resetAt entry].
    destruct (Z.ltb_spec (resetAt (dataOf data service)) (clock (clockReads w)));
      [lia | reflexivity]. }
  split; [|split].
  - unfold getRemainingQuota, bind. rewrite Hcheck. reflexivity.
  - rewrite Hcheck. cbn [fst option_map allowed statusOf count entry].
    f_equal.
    destruct (Z.ltb_spec (count (dataOf data service) + Z.of_nat k)
                (daily (limits service)));
      destruct (Z.ltb_spec 0
                  (Z.max 0 (daily (limits service)
                            - (count (dataOf data service) + Z.of_nat k))));
      try reflexivity; lia.
  - intros other Hne. cbn [file saved storedCount]. rewrite Hfile.
    cbn [storedCount]. rewrite dataOf_withData_other by assumption.
    reflexivity.
Qed.

(** X3.  The families are independent: incrementing two families in one
    order or the other leaves the same world, whether the file was
    readable or not. *)
Theorem increments_commute (a b : Service) (w : World) :
  snd (increment clock b (snd (increment clock a w))) =
  snd (increment clock a (snd (increment clock b w))).
Proof.
  destruct w as [[| |data|isNull] reads requests [error|]];
    try (destruct a, b; reflexivity);
    destruct data, a, b; reflexivity.
Qed.

End ClockFacts.

Lemma increments_consume_quota_witness :
  fst (getRemainingQuota Samples.clock service_v0
         (Nat.iter 3 (fun w => snd (increment Samples.clock service_v0 w))
                   Samples.quotaInUse))
  = Returned 192.
Proof.
  exact (proj1 (increments_consume_quota Samples.clock service_v0 3
                  Samples.quotaInUse _ eq_refl eq_refl
                  ltac:(vm_compute; discriminate))).
Defined.

(** X4.  [formatResetTime] never shows less than the time left and
    overshoots by less than one unit: it prints the seconds themselves
    under a minute, whole minutes rounded up under an hour (so 3541 to
    3599 seconds print as 60m) and whole hours rounded up from there. *)
Theorem formatResetTime_rounds_up (seconds : Z) :
  exists (n perUnit : Z) (unit : string),
    formatResetTime seconds = (numberToString n ++ unit)%string /\
    seconds <= n * perUnit < seconds + perUnit /\
    ((seconds < 60 /\ perUnit = 1 /\ unit = "s"%string) \/
     (60 <= seconds < 3600 /\ perUnit = 60 /\ unit = "m"%string) \/
     (3600 <= seconds /\ perUnit = 3600 /\ unit = "h"%string)).
Proof.
  unfold formatResetTime.
  destruct (Z.ltb_spec seconds 60).
  - exists seconds, 1, "s"%string. repeat split; try lia. left. auto.
  - destruct (Z.ltb_spec seconds 3600).
    + exists (ceilDiv seconds 60), 60, "m"%string.
      pose proof (ceilDiv_bounds seconds 60 ltac:(lia)).
      repeat split; try lia. right. left. repeat split; lia.
    + exists (ceilDiv seconds 3600), 3600, "h"%string.
      pose proof (ceilDiv_bounds seconds 3600 ltac:(lia)).
      repeat split; try lia. right. right. auto.
Qed.

End QuotaFacts.

(** ** The service: availability, requests, remote model names *)

Module ServiceFacts.
Import Js JsFacts RateLimiter RateLimiterFacts MultiModelAIService
       ServiceQueries ChatFacts.

(** X5.  [isModelAvailable] and [getAvailableModels] agree: a model is
    reported available exactly when it is listed, and no model is listed
    twice. *)
Theorem isModelAvailable_iff_listed (this : t) (model : AIModel) :
  (isModelAvailable this model = true <-> In model (getAvailableModels this)) /\
  NoDup (getAvailableModels this).
Proof.
  unfold isModelAvailable, getAvailableModels.
  destruct (truthy (v0ApiKey this)), (openai this), (anthropic this);
    cbn [app]; split;
    try (destruct model; cbn; split; intros H; try reflexivity;
         try discriminate; intuition discriminate);
    repeat (constructor; [cbn; intuition discriminate|]); constructor.
Qed.

Section DispatchFacts.

Variable clock : nat -> Z.
Variable api : list NetworkCall -> NetworkCall -> Outcome string.
Variable getOpenAIPrompt : Prompts.PromptVariables -> string.
Variable getClaudePrompt : Prompts.PromptVariables -> string.
Variable getV0Prompt : Prompts.PromptVariables -> string.

Abbreviation chat := (chat clock api getOpenAIPrompt getClaudePrompt getV0Prompt).
Abbreviation prepareMessages :=
  (prepareMessages getOpenAIPrompt getClaudePrompt getV0Prompt).
Abbreviation invokeBackend := (invokeBackend api).

(** The backend call, in full: without a key it throws and sends
    nothing; with a key it sends one request and hands on the answer. *)
Lemma invokeBackend_cases (this : t) (target : AIModel)
  (messages : list ChatMessage) (options : ChatOptions) (w : World) :
  let service := getServiceForModel target in
  if isModelAvailable this target then
    exists call,
      invokeBackend this target messages options w =
        (api (network w) call,
         mkWorld (file w) (clockReads w) (network w ++ [call]) (disk w)) /\
      endpoint call = service /\
      remoteModel call = remoteNameFor service (model options) /\
      sent call =
        match service with
        | service_anthropic =>
            map claudeMessage
              (filter (fun m => negb (isSystem (role m))) messages)
        | service_openai => map openaiMessage messages
        | service_v0 => map v0Message messages
        end
  else
    invokeBackend this target messages options w = (Thrown (notConfigured service), w).
Proof.
  unfold MultiModelAIService.invokeBackend, isModelAvailable.
  destruct target; cbn zeta; cbn [getServiceForModel];
    unfold chatWithV0, chatWithOpenAI, chatWithClaude, throw, request;
    match goal with
    | |- context [if negb ?b then _ else _] => destruct b
    end; cbn [negb]; try reflexivity;
    eexists; (split; [reflexivity|]); cbn; repeat split; reflexivity.
Qed.

(** X6.  A dispatch that passes the quota check for a model whose vendor
    has no key throws that vendor's "API key not configured" error, sends
    no request and leaves the world as the check left it, so no quota is
    used.  With a key it sends exactly one request, to the endpoint of
    the model's family; it throws the vendor's error when the vendor
    answers with one; when the vendor answers with a text it returns that
    text if the quota directory can be written, and throws the rejection
    of the write of the increment if it cannot. *)
Theorem chat_needs_configured_vendor (this : t) (messages : list ChatMessage)
  (options : ChatOptions) (w w1 : World) (status : LimitStatus) :
  let model := resolveModel this options in
  let service := getServiceForModel model in
  checkLimit clock service w = (Returned status, w1) ->
  allowed status = true ->
  if isModelAvailable this model then
    exists call,
      network (snd (chat this messages options w)) = network w ++ [call] /\
      endpoint call = service /\
      fst (chat this messages options w) =
        match api (network w) call, disk w with
        | Thrown e, _ => Thrown e
        | Returned result, None => Returned result
        | Returned result, Some error => Thrown error
        end
  else
    chat this messages options w = (Thrown (notConfigured service), w1) /\
    network w1 = network w.
Proof.
  intros model service Hcheck Hallowed.
  pose proof (chat_steps clock api getOpenAIPrompt getClaudePrompt getV0Prompt
                this messages options w) as Hsteps.
  cbn zeta in Hsteps. fold model in Hsteps. fold service in Hsteps.
  rewrite Hcheck, Hallowed in Hsteps.
  pose proof (checkLimit_frame clock service w) as [Hnet [Hdisk _]].
  rewrite Hcheck in Hnet, Hdisk. cbn [snd] in Hnet, Hdisk.
  pose proof (checkLimit_returned_file clock service w w1 status Hcheck)
    as Hentries.
  pose proof (invokeBackend_cases this model
                (prepareMessages model messages options) options w1) as Hcall.
  cbn zeta in Hcall. fold service in Hcall.
  destruct (isModelAvailable this model).
  - destruct Hcall as [call [Hcall [Hend _]]].
    rewrite Hnet in Hcall. rewrite Hcall in Hsteps.
    exists call. rewrite Hsteps.
    destruct (api (network w) call) as [result|e]; cbn [fst snd].
    + set (w2 := mkWorld (file w1) (clockReads w1) (network w ++ [call])
                   (disk w1)) in *.
      pose proof (increment_network clock service w2) as Hnet2.
      destruct (disk w) as [error|] eqn:Hw.
      * destruct (increment_rejected clock service w2 error)
          as [w3 [Hinc _]]; [exact Hdisk | exact Hentries |].
        rewrite Hinc in Hnet2 |- *. cbn [fst snd] in Hnet2 |- *.
        repeat split; assumption.
      * destruct (increment_returns clock service w2)
          as [w3 Hinc]; [exact Hdisk | exact Hentries |].
        rewrite Hinc in Hnet2 |- *. cbn [fst snd] in Hnet2 |- *.
        repeat split; assumption.
    + repeat split; assumption.
  - rewrite Hcall in Hsteps. split; assumption.
Qed.

(** What [chat] sends, if it sends anything. *)
Lemma chat_request (this : t) (messages : list ChatMessage)
  (options : ChatOptions) (w : World) (call : NetworkCall) :
  let target := resolveModel this options in
  let service := getServiceForModel target in
  network (snd (chat this messages options w)) = network w ++ [call] ->
  endpoint call = service /\
  remoteModel call = remoteNameFor service (model options) /\
  sent call =
    match service with
    | service_anthropic =>
        map claudeMessage
          (filter (fun m => negb (isSystem (role m)))
                  (prepareMessages target messages options))
    | service_openai =>
        map openaiMessage (prepareMessages target messages options)
    | service_v0 =>
        map v0Message (prepareMessages target messages options)
    end.
Proof.
  intros target service Hsent.
  pose proof (chat_steps clock api getOpenAIPrompt getClaudePrompt getV0Prompt
                this messages options w) as Hsteps.
  cbn zeta in Hsteps. fold target in Hsteps. fold service in Hsteps.
  rewrite Hsteps in Hsent. clear Hsteps.
  pose proof (checkLimit_network clock service w) as Hnet.
  assert (Hnone : forall l : list NetworkCall, l = l ++ [call] -> False).
  { intros l Hl. apply (f_equal (@List.length _)) in Hl.
    rewrite length_app in Hl. cbn in Hl. lia. }
  destruct (checkLimit clock service w) as [[status|e] w1]; cbn [snd] in Hnet;
    [|exfalso; cbn [snd] in Hsent; rewrite Hnet in Hsent; eauto].
  destruct (allowed status);
    [|exfalso; cbn [snd] in Hsent; rewrite Hnet in Hsent; eauto].
  pose proof (invokeBackend_cases this target
                (prepareMessages target messages options) options w1) as Hcall.
  cbn zeta in Hcall. fold service in Hcall.
  destruct (isModelAvailable this target).
  - destruct Hcall as [call' [Hcall [Hend [Hname Hlist]]]].
    rewrite Hnet in Hcall. rewrite Hcall in Hsent.
    assert (Hsame : network w ++ [call'] = network w ++ [call]).
    { destruct (api (network w) call') as [result|e]; cbn [snd] in Hsent.
      - match type of Hsent with
        | context [increment clock service ?w2] =>
            pose proof (increment_network clock service w2) as Hnet2;
            destruct (increment clock service w2) as [[[]|e] w3]
        end; cbn [snd] in Hnet2, Hsent; rewrite Hnet2 in Hsent;
          exact Hsent.
      - exact Hsent. }
    apply app_inv_head in Hsame. injection Hsame as <-.
    repeat split; assumption.
  - exfalso. rewrite Hcall in Hsent. cbn [snd] in Hsent.
    rewrite Hnet in Hsent. eauto.
Qed.

(** X7.  The vendor's model name in a request is read from
    [options.model], not from the model the call was resolved to.  So a
    call that leaves [options.model] unset and runs on the service's
    default model asks for [gpt-3.5-turbo] at OpenAI and for
    [claude-3-haiku-20240307] at Anthropic, whatever the default is;
    and two calls that name their model ask for the same vendor model
    only when they name the same model. *)
Theorem chat_remote_model_names :
  (forall (this : t) (messages : list ChatMessage) (options : ChatOptions)
          (w : World) (call : NetworkCall),
     model options = None ->
     network (snd (chat this messages options w)) = network w ++ [call] ->
     remoteModel call =
       match getServiceForModel (defaultModel this) with
       | service_v0 => "v0-1.0-md"
       | service_openai => "gpt-3.5-turbo"
       | service_anthropic => "claude-3-haiku-20240307"
       end%string)
  /\
  (forall (this1 this2 : t) (messages1 messages2 : list ChatMessage)
          (options1 options2 : ChatOptions) (w1 w2 : World)
          (call1 call2 : NetworkCall) (m1 m2 : AIModel),
     model options1 = Some m1 ->
     model options2 = Some m2 ->
     network (snd (chat this1 messages1 options1 w1)) = network w1 ++ [call1] ->
     network (snd (chat this2 messages2 options2 w2)) = network w2 ++ [call2] ->
     remoteModel call1 = remoteModel call2 ->
     m1 = m2).
Proof.
  split.
  - intros this messages options w call Hunset Hsent.
    destruct (chat_request this messages options w call Hsent)
      as [_ [Hname _]].
    rewrite Hname. unfold resolveModel. rewrite Hunset.
    destruct (getServiceForModel (defaultModel this)); reflexivity.
  - intros this1 this2 messages1 messages2 options1 options2 w1 w2
           call1 call2 m1 m2 Hm1 Hm2 Hsent1 Hsent2 Hsame.
    destruct (chat_request this1 messages1 options1 w1 call1 Hsent1)
      as [_ [Hname1 _]].
    destruct (chat_request this2 messages2 options2 w2 call2 Hsent2)
      as [_ [Hname2 _]].
    rewrite Hname1, Hname2 in Hsame. unfold resolveModel in Hsame.
    rewrite Hm1, Hm2 in Hsame.
    destruct m1, m2; cbn in Hsame; try reflexivity; discriminate.
Qed.

(** X8.  Whatever the options, a request to Anthropic lists the roles
    and texts of exactly the caller's messages that are not system
    messages, in their order, so it never lists a system message; a
    request to v0 or OpenAI lists the roles and texts of the messages as
    [chat] prepared them.  Images travel as the vendor's format allows:
    to v0 with every message that has a non-empty image URL, to OpenAI
    with user messages only, to Anthropic only as the base64 source cut
    out of a data URL [data:image/<kind>;base64,<data>]. *)
Theorem chat_anthropic_sends_no_system_message (this : t)
  (messages : list ChatMessage) (options : ChatOptions) (w : World)
  (call : NetworkCall) :
  network (snd (chat this messages options w)) = network w ++ [call] ->
  let prepared :=
    prepareMessages (resolveModel this options) messages options in
  let others := filter (fun m => negb (isSystem (role m))) messages in
  match endpoint call with
  | service_anthropic =>
      map sentRole (sent call) = map role others /\
      map sentText (sent call) = map content others /\
      Forall (fun r => sentRole r <> system) (sent call) /\
      map sentImage (sent call) =
        map (fun m =>
               match imageUrl m with
               | Some url =>
                   match base64Match url with
                   | Some (kind, data) =>
                       Some (image_base64 ("image/" ++ kind) data)
                   | None => None
                   end
               | None => None
               end) others
  | service_openai =>
      map sentRole (sent call) = map role prepared /\
      map sentText (sent call) = map content prepared /\
      map sentImage (sent call) =
        map (fun m =>
               match imageUrl m, role m with
               | Some url, user =>
                   if String.eqb url "" then None else Some (image_url url)
               | _, _ => None
               end) prepared
  | service_v0 =>
      map sentRole (sent call) = map role prepared /\
      map sentText (sent call) = map content prepared /\
      map sentImage (sent call) =
        map (fun m =>
               match imageUrl m with
               | Some url =>
                   if String.eqb url "" then None else Some (image_url url)
               | None => None
               end) prepared
  end /\
  (forall url kind data,
     base64Match url = Some (kind, data) <->
     url = ("data:image/" ++ kind ++ ";base64," ++ data)%string /\
     kind <> ""%string /\ allChars isWordChar kind = true /\
     data <> ""%string /\
     allChars (fun c => negb (isLineTerminator c)) data = true).
Proof.
  intros Hsent prepared others. split; [|apply base64Match_spec].
  destruct (chat_request this messages options w call Hsent)
    as [Hend [_ Hlist]].
  rewrite Hend. fold prepared in Hlist.
  destruct (getServiceForModel (resolveModel this options)).
  - rewrite Hlist.
    destruct (sent_texts v0Message prepared v0Message_text) as [Hr Ht].
    repeat split; try assumption.
    rewrite map_map. apply map_ext. intros m. unfold v0Message.
    destruct (imageUrl m) as [url|]; [|reflexivity].
    cbn [truthy]. destruct (String.eqb url ""); reflexivity.
  - rewrite Hlist.
    destruct (sent_texts openaiMessage prepared openaiMessage_text) as [Hr Ht].
    repeat split; try assumption.
    rewrite map_map. apply map_ext. intros m. unfold openaiMessage.
    destruct (imageUrl m) as [url|]; [|reflexivity].
    cbn [truthy]. destruct (String.eqb url ""), (role m); reflexivity.
  - assert (Hfilter :
      filter (fun m => negb (isSystem (role m))) prepared = others).
    { unfold prepared, MultiModelAIService.prepareMessages.
      destruct (promptVariables options); [|reflexivity].
      destruct (truthy (systemPrompt options)); [reflexivity|].
      cbn [filter role isSystem negb].
      apply filter_nonsystem_idempotent. }
    rewrite Hfilter in Hlist. rewrite Hlist.
    destruct (sent_texts claudeMessage others claudeMessage_text) as [Hr Ht].
    repeat split; try assumption.
    + apply Forall_forall. intros r Hin. apply in_map_iff in Hin.
      destruct Hin as [m [<- Hin]]. apply filter_In in Hin.
      rewrite (proj1 (claudeMessage_text m)). apply nonsystem_iff. tauto.
    + rewrite map_map. apply map_ext. intros m. unfold claudeMessage.
      destruct (imageUrl m) as [url|]; [|reflexivity].
      destruct (base64Match url) as [[kind data]|] eqn:Hmatch.
      * rewrite (base64Match_startsWith url kind data Hmatch).
        reflexivity.
      * destruct (truthy (Some url) && _); reflexivity.
Qed.

End DispatchFacts.

Lemma chat_needs_configured_vendor_witness :
  fst (chat Samples.clock Samples.apiAnswers Samples.template Samples.template
         Samples.template Samples.service Samples.messages
         (mkChatOptions (Some gpt_4) None None None) Samples.quotaInUse)
  = Returned "Looks good."%string /\
  fst (chat Samples.clock Samples.apiAnswers Samples.template Samples.template
         Samples.template Samples.service Samples.messages
         Samples.options (Samples.onReadOnlyDisk Samples.quotaInUse))
  = Thrown Samples.readOnly.
Proof.
  split.
  - destruct (chat_needs_configured_vendor Samples.clock Samples.apiAnswers
                Samples.template Samples.template Samples.template
                Samples.service Samples.messages
                (mkChatOptions (Some gpt_4) None None None) Samples.quotaInUse
                _ _ eq_refl eq_refl) as [call [_ [_ Hanswer]]].
    exact Hanswer.
  - destruct (chat_needs_configured_vendor Samples.clock Samples.apiAnswers
                Samples.template Samples.template Samples.template
                Samples.service Samples.messages Samples.options
                (Samples.onReadOnlyDisk Samples.quotaInUse)
                _ _ eq_refl eq_refl) as [call [_ [_ Hanswer]]].
    exact Hanswer.
Defined.

Lemma chat_anthropic_sends_no_system_message_witness :
  exists call,
    map sentRole (sent call) = [user] /\
    map sentText (sent call) = ["Review this page."%string] /\
    map sentImage (sent call) =
      [Some (image_base64 "image/png" "AAAA")].
Proof.
  eexists.
  pose proof (proj1 (chat_anthropic_sends_no_system_message Samples.clock
                  Samples.apiAnswers Samples.template Samples.template
                  Samples.template Samples.service Samples.messages
                  (mkChatOptions (Some claude_3_opus) None None None)
                  Samples.quotaInUse
                  (mkNetworkCall service_anthropic "claude-3-opus-20240229"
                     (Some "Be terse."%string)
                     [mkRequestMessage user "Review this page."
                        (Some (image_base64 "image/png" "AAAA"))])
                  eq_refl)) as [Hroles [Htexts [_ Himages]]].
  split; [exact Hroles | split; [exact Htexts | exact Himages]].
Defined.

End ServiceFacts.

(** ** Fallback suggestions *)

Module SuggestFacts.
Import Js JsFacts ModelFallback ModelFallbackFacts ServiceQueries Suggest.

(** The two ways [getNextModel] runs: the current model sits in the
    fallback order, or it does not. *)
Lemma getNextModel_shape (currentModel : AIModel) (availableModels : list AIModel) :
  (exists before after,
     fallbackOrder = before ++ currentModel :: after /\
     ~ In currentModel before /\ ~ In currentModel after /\
     getNextModel currentModel availableModels =
     nextFallback_spec before after availableModels)
  \/ (~ In currentModel fallbackOrder /\
      getNextModel currentModel availableModels =
      firstAvailable availableModels fallbackOrder).
Proof.
  destruct (in_dec (fun a b => reflect_dec _ _ (AIModel_eqb_spec a b))
              currentModel fallbackOrder) as [Hin|Hnin].
  - left. destruct (In_fallbackOrder_split _ Hin) as [before [after Hsplit]].
    destruct (fallbackOrder_split _ _ _ Hsplit) as [Hb Ha].
    exists before, after. repeat split; try assumption.
    apply getNextModelIn_split; assumption.
  - right. split; [assumption|]. apply getNextModelIn_absent. assumption.
Qed.

Lemma getNextModel_listed (currentModel m : AIModel)
  (availableModels : list AIModel) :
  getNextModel currentModel availableModels = Some m ->
  In m fallbackOrder /\ In m availableModels /\ m <> currentModel.
Proof.
  intros Hget.
  destruct (getNextModel_shape currentModel availableModels)
    as [[before [after [Hsplit [Hb [Ha Hshape]]]]]|[Hnin Hshape]];
    rewrite Hshape in Hget.
  - unfold nextFallback_spec in Hget.
    destruct (firstAvailable availableModels after) as [r|] eqn:Hafter.
    + injection Hget as ->. apply firstAvailable_Some in Hafter.
      destruct Hafter as [Hin Hav]. repeat split; [|assumption|congruence].
      rewrite Hsplit. apply in_or_app. right. right. assumption.
    + apply firstAvailable_Some in Hget.
      destruct Hget as [Hin Hav]. repeat split; [|assumption|congruence].
      rewrite Hsplit. apply in_or_app. left. assumption.
  - apply firstAvailable_Some in Hget. destruct Hget as [Hin Hav].
    repeat split; [assumption|assumption|congruence].
Qed.

Lemma getNextModel_nothing (currentModel : AIModel)
  (availableModels : list AIModel) :
  getNextModel currentModel availableModels = None ->
  forall m, In m availableModels -> In m fallbackOrder -> m = currentModel.
Proof.
  intros Hget m Hav Hord.
  destruct (AIModel_eqb_spec m currentModel) as [|Hne]; [assumption|].
  exfalso.
  destruct (getNextModel_shape currentModel availableModels)
    as [[before [after [Hsplit [Hb [Ha Hshape]]]]]|[Hnin Hshape]];
    rewrite Hshape in Hget.
  - unfold nextFallback_spec in Hget.
    destruct (firstAvailable availableModels after) eqn:Hafter;
      [discriminate|].
    rewrite Hsplit in Hord. apply in_app_or in Hord.
    destruct Hord as [Hin|[Heq|Hin]].
    + exact (proj1 (firstAvailable_None _ _) Hget m Hin Hav).
    + apply Hne. symmetry. assumption.
    + exact (proj1 (firstAvailable_None _ _) Hafter m Hin Hav).
  - exact (proj1 (firstAvailable_None _ _) Hget m Hord Hav).
Qed.

(** X9.  Every model that [getNextModel] proposes accepts image
    attachments: the one model that does not, [gpt-3.5-turbo], is not in
    the fallback order, so a review with a screenshot can always be retried
    on the proposed model. *)
Theorem getNextModel_supports_images (currentModel : AIModel)
  (availableModels : list AIModel) :
  match getNextModel currentModel availableModels with
  | Some m =>
      supportsImages (getModelCapabilities m) = true /\
      4096 <= maxTokens (getModelCapabilities m)
  | None => True
  end.
Proof.
  destruct (getNextModel currentModel availableModels) as [m|] eqn:Hget;
    [|exact I].
  destruct (getNextModel_listed _ _ _ Hget) as [Hin _].
  cbn in Hin.
  repeat (destruct Hin as [<-|Hin]; [cbn; split; [reflexivity | lia]|]).
  contradiction.
Qed.

(** X10.  The last line [suggestFallback] prints is sound: it proposes a
    model only if that model is available and is not the current one; it
    asks to run the setup exactly when no model is available at all; and
    it says that the models are exhausted only when the available models
    of the fallback order are the current one alone. *)
Theorem suggestFallback_advice_sound (error : Error) (currentModel : AIModel)
  (availableModels : list AIModel) :
  match snd (suggestFallback error currentModel availableModels) with
  | TryModel m => In m availableModels /\ m <> currentModel
  | NoKeysConfigured => availableModels = []
  | AllExhausted =>
      availableModels <> [] /\
      forall m, In m availableModels -> In m fallbackOrder -> m = currentModel
  end
  /\
  (availableModels = [] ->
   snd (suggestFallback error currentModel availableModels) = NoKeysConfigured).
Proof.
  unfold suggestFallback. cbn [snd]. split.
  - destruct (getNextModel currentModel availableModels) as [m|] eqn:Hget.
    + destruct (getNextModel_listed _ _ _ Hget) as [_ [Hav Hne]].
      split; assumption.
    + destruct availableModels as [|a rest]; [reflexivity|].
      replace (length (a :: rest) =? 0) with false
        by (unfold length; cbn [List.length]; symmetry; apply Z.eqb_neq; lia).
      split; [discriminate|]. apply getNextModel_nothing. assumption.
  - intros ->.
    destruct (getNextModel currentModel []) as [m|] eqn:Hget; [|reflexivity].
    destruct (getNextModel_listed _ _ _ Hget) as [_ [[] _]].
Qed.

End SuggestFacts.

(** ** The quota error, as the fallback hint reads it *)

Module QuotaHintFacts.
Import Js RateLimiter RateLimiterFacts MultiModelAIService ChatFacts
       QuotaFacts Suggest.

Lemma readsAsRateLimit_upto_60 :
  forallb readsAsRateLimit (map Z.of_nat (seq 0 61)) = true.
Proof. vm_compute. reflexivity. Qed.

Lemma readsAsRateLimit_range (n : Z) :
  0 <= n <= 60 -> readsAsRateLimit n = true.
Proof.
  intros Hrange.
  apply (proj1 (forallb_forall _ _) readsAsRateLimit_upto_60).
  rewrite <- (Z2Nat.id n) by lia. apply in_map. apply in_seq. lia.
Qed.

(** The message of a quota error whose reset lies at most a day ahead
    holds "Rate limit" and neither "500" nor "Internal Server Error". *)
Lemma rateLimitExceeded_hint (service : Service) (seconds : Z) :
  0 <= seconds <= 86400 ->
  hintFor (rateLimitExceeded service (Some seconds)) = Some RateLimitReached.
Proof.
  intros Hrange.
  assert (Hshape : exists n unit,
            formatResetTime seconds = (numberToString n ++ unit)%string /\
            0 <= n <= 60 /\ In unit ["s"; "m"; "h"]%string).
  { unfold formatResetTime.
    destruct (Z.ltb_spec seconds 60).
    - exists seconds, "s"%string. repeat split; try lia. cbn. tauto.
    - destruct (Z.ltb_spec seconds 3600).
      + exists (ceilDiv seconds 60), "m"%string.
        pose proof (ceilDiv_bounds seconds 60 ltac:(lia)).
        repeat split; try lia. cbn. tauto.
      + exists (ceilDiv seconds 3600), "h"%string.
        pose proof (ceilDiv_bounds seconds 3600 ltac:(lia)).
        repeat split; try lia. cbn. tauto. }
  destruct Hshape as [n [unit [Hformat [Hn Hunit]]]].
  unfold rateLimitExceeded. rewrite Hformat.
  pose proof (readsAsRateLimit_range n Hn) as Hcheck.
  unfold readsAsRateLimit in Hcheck.
  rewrite forallb_forall in Hcheck.
  assert (Hservice : In service [service_v0; service_openai; service_anthropic])
    by (destruct service; cbn; tauto).
  specialize (Hcheck service Hservice). rewrite forallb_forall in Hcheck.
  specialize (Hcheck unit Hunit).
  match type of Hcheck with
  | match ?h with _ => _ end = true =>
      match goal with |- ?g = _ => change g with h end;
      destruct h as [[| |]|]; try discriminate; reflexivity
  end.
Qed.

Section DispatchFacts.

Variable clock : nat -> Z.
Variable api : list NetworkCall -> NetworkCall -> Outcome string.
Variable getOpenAIPrompt : Prompts.PromptVariables -> string.
Variable getClaudePrompt : Prompts.PromptVariables -> string.
Variable getV0Prompt : Prompts.PromptVariables -> string.

(** X11.  When a dispatch is refused for lack of quota and the stored
    reset lies at most a day ahead (as in every file the program writes),
    the error [chat] throws is read by [suggestFallback] as a reached rate
    limit: its message holds "Rate limit" and the printed time cannot
    make it read as a server error. *)
Theorem quota_error_reads_as_rate_limit (this : t)
  (messages : list ChatMessage) (options : ChatOptions) (w w1 : World)
  (status : LimitStatus) (currentModel : AIModel)
  (availableModels : list AIModel) :
  let service := getServiceForModel (resolveModel this options) in
  checkLimit clock service w = (Returned status, w1) ->
  remaining status = 0 ->
  (forall data, file w = Stored data ->
     resetAt (dataOf data service) - clock (clockReads w) <= 86400000) ->
  exists e,
    chat clock api getOpenAIPrompt getClaudePrompt getV0Prompt
      this messages options w = (Thrown e, w1) /\
    fst (suggestFallback e currentModel availableModels)
      = Some RateLimitReached.
Proof.
  intros service Hcheck Hzero Hday.
  destruct (zero_remaining_stored clock service w w1 status Hcheck Hzero)
    as [data [Hfile [Hrunning [Hfull [Hstatus Hw1]]]]].
  specialize (Hday data Hfile).
  assert (Hmax : Z.max 0 (daily (limits service) - count (dataOf data service)) = 0)
    by lia.
  set (seconds :=
         ceilDiv (resetAt (dataOf data service) - clock (clockReads w)) 1000).
  assert (Hallowed : allowed status = false).
  { rewrite Hstatus. cbn [allowed statusOf]. rewrite Hmax. reflexivity. }
  assert (HresetIn : resetIn status = Some seconds).
  { rewrite Hstatus. cbn [resetIn statusOf]. rewrite Hmax. reflexivity. }
  exists (rateLimitExceeded service (Some seconds)). split.
  - pose proof (chat_steps clock api getOpenAIPrompt getClaudePrompt
                  getV0Prompt this messages options w) as Hsteps.
    cbn zeta in Hsteps. fold service in Hsteps.
    rewrite Hcheck, Hallowed, HresetIn in Hsteps. exact Hsteps.
  - unfold suggestFallback. cbn [fst].
    apply rateLimitExceeded_hint. unfold seconds.
    pose proof (ceilDiv_bounds
                  (resetAt (dataOf data service) - clock (clockReads w))
                  1000 ltac:(lia)).
    lia.
Qed.

End DispatchFacts.

Lemma quota_error_reads_as_rate_limit_witness :
  exists e,
    chat Samples.clock Samples.apiAnswers Samples.template Samples.template
      Samples.template Samples.service Samples.messages Samples.options
      Samples.quotaSpent
    = (Thrown e, ticked Samples.quotaSpent) /\
    fst (suggestFallback e v0 [v0; gpt_4]) = Some RateLimitReached.
Proof.
  apply (quota_error_reads_as_rate_limit Samples.clock Samples.apiAnswers
           Samples.template Samples.template Samples.template
           Samples.service Samples.messages Samples.options
           Samples.quotaSpent (ticked Samples.quotaSpent)
           (mkLimitStatus false 0 (Some 18000)) v0 [v0; gpt_4]
           eq_refl eq_refl).
  intros data Hfile. cbn in Hfile. injection Hfile as <-.
  vm_compute. discriminate.
Defined.

End QuotaHintFacts.

(** ** Configuration and key setup *)

Module SetupFacts.
Import Js MultiModelAIService ServiceQueries Config Setup.

Lemma truthy_orElse (a b : option string) :
  truthy (orElse a b) = truthy a || truthy b.
Proof.
  unfold orElse. destruct (truthy a) eqn:Ha; [exact Ha | reflexivity].
Qed.

Lemma getAvailableModels_nonempty (this : t) :
  getAvailableModels this <> [] <->
  truthy (MultiModelAIService.v0ApiKey this) = true \/
  openai this = true \/ anthropic this = true.
Proof.
  unfold getAvailableModels.
  destruct (truthy (MultiModelAIService.v0ApiKey this)), (openai this),
    (anthropic this); cbn; split; intros H;
    try discriminate; try tauto;
    try (exfalso; apply H; reflexivity);
    destruct H as [H|[H|H]]; discriminate.
Qed.

(** X16.  The key setup answers [true] only when a service built from
    the stored configuration has at least one model available, either
    because it had one from the start or because a key was just saved;
    when it answers [false] it has saved nothing and no model is
    available. *)
Theorem setup_success_means_available (store : Store) (env : Env)
  (answers : Answers) :
  let result := checkAndSetupAPIKeys store env answers in
  (fst result = true ->
   getAvailableModels (newService emptyConfig (snd result) env) <> []) /\
  (fst result = false ->
   snd result = store /\
   getAvailableModels (newService emptyConfig store env) = []).
Proof.
  cbn zeta. unfold checkAndSetupAPIKeys.
  destruct (Z.ltb_spec 0 (length (getAvailableModels
                                    (newService emptyConfig store env))))
    as [Hsome|Hnone].
  - cbn [fst snd]. split; [|discriminate].
    intros _ Hempty. rewrite Hempty in Hsome. cbn in Hsome. lia.
  - assert (Hempty : getAvailableModels (newService emptyConfig store env) = []).
    { destruct (getAvailableModels (newService emptyConfig store env));
        [reflexivity|]. unfold length in Hnone. cbn in Hnone. lia. }
    destruct (setupNow answers); cbn [negb];
      [|cbn [fst snd]; split; [discriminate | auto]].
    unfold nonEmpty.
    destruct (String.eqb (Setup.v0ApiKey answers) "") eqn:Hv0;
      destruct (String.eqb (Setup.openaiApiKey answers) "") eqn:Hopenai;
      destruct (String.eqb (Setup.anthropicApiKey answers) "") eqn:Hanthropic;
      cbn [negb fst snd];
      (split; [intros Hok; try discriminate Hok
              | intros Hko; try discriminate Hko; auto]);
      apply getAvailableModels_nonempty;
      unfold newService, emptyConfig;
      cbn [MultiModelAIService.v0ApiKey openai anthropic
           cfg_openaiApiKey cfg_anthropicApiKey cfg_v0ApiKey
           Config.set Config.apiKey Config.openaiApiKey
           Config.anthropicApiKey];
      rewrite !truthy_orElse; cbn [truthy];
      rewrite ?Hv0, ?Hopenai, ?Hanthropic; cbn [negb orb];
      rewrite ?orb_true_r; auto.
Qed.

Lemma prefix_trans (p q s : string) :
  prefix p q = true -> prefix q s = true -> prefix p s = true.
Proof.
  revert q s. induction p as [|a p IH]; intros q s Hpq Hqs;
    [destruct s; reflexivity|].
  destruct q as [|b q]; [discriminate|].
  destruct s as [|c s]; [discriminate|].
  cbn in *.
  destruct (ascii_dec a b) as [->|]; [|discriminate].
  destruct (ascii_dec b c) as [->|]; [|discriminate].
  eapply IH; eassumption.
Qed.

(** X17.  Every input the Anthropic prompt accepts is accepted by the
    OpenAI prompt as well (an Anthropic key begins with "sk-"), the
    converse does not hold, and the empty input, which skips a key, is
    accepted by all three prompts. *)
Theorem anthropic_keys_pass_the_openai_check :
  (forall input, validateAnthropic input = valid ->
                 validateOpenAI input = valid) /\
  (validateOpenAI "sk-proj-1" = valid /\
   validateAnthropic "sk-proj-1" <> valid) /\
  (validateV0 "" = valid /\ validateOpenAI "" = valid /\
   validateAnthropic "" = valid).
Proof.
  split; [|split; [split; [reflexivity | discriminate] | repeat split]].
  intros input. unfold validateAnthropic, validateOpenAI, validateKey.
  destruct (String.eqb input ""); [reflexivity|].
  unfold startsWith.
  destruct (prefix "sk-ant-" input) eqn:Hant; [|discriminate].
  rewrite (prefix_trans "sk-" "sk-ant-" input eq_refl Hant). reflexivity.
Qed.

(** X18.  The config manager's first-run test, its [getApiKey] and the
    service agree: a run is a first run exactly when [getApiKey] finds no
    key, which is exactly when a service built without arguments has no
    v0 model. *)
Theorem isFirstRun_agrees_with_service (store : Store) (env : Env) :
  isFirstRun store env = negb (truthy (getApiKey store env)) /\
  isFirstRun store env =
    negb (isModelAvailable (newService emptyConfig store env) v0).
Proof.
  unfold isFirstRun, getApiKey, isModelAvailable, newService, emptyConfig.
  cbn [MultiModelAIService.v0ApiKey cfg_v0ApiKey].
  rewrite !truthy_orElse. cbn [truthy orb].
  destruct (truthy (apiKey store)), (truthy (V0_API_KEY env)); split; reflexivity.
Qed.

End SetupFacts.

(** ** captureScreenshot: the browser is closed, navigation errors, names *)

Module BrowserFacts.
Import Js EnhancedScreenshotCapture Browser.
Local Open Scope browser_scope.

(** A computation that only adds calls satisfying [P] to the log. *)
Definition adds {A : Type} (P : Call -> Prop) (c : B A) : Prop :=
  forall log, exists added, snd (c log) = log ++ added /\ Forall P added.

Lemma adds_ret {A : Type} (P : Call -> Prop) (a : A) : adds P (retB a).
Proof. intros log. exists []. rewrite app_nil_r. split; [reflexivity | constructor]. Qed.

Lemma adds_throw {A : Type} (P : Call -> Prop) (e : Error) :
  adds P (@throwB A e).
Proof. intros log. exists []. rewrite app_nil_r. split; [reflexivity | constructor]. Qed.

Lemma adds_bind {A C : Type} (P : Call -> Prop) (c : B A) (k : A -> B C) :
  adds P c -> (forall a, adds P (k a)) -> adds P (bindB c k).
Proof.
  intros Hc Hk log. unfold bindB.
  destruct (Hc log) as [added1 [Hlog1 Hadded1]].
  destruct (c log) as [[a|e] log1]; cbn [snd] in Hlog1; subst log1.
  - destruct (Hk a (log ++ added1)) as [added2 [Hlog2 Hadded2]].
    exists (added1 ++ added2). rewrite Hlog2, app_assoc.
    split; [reflexivity | apply Forall_app; split; assumption].
  - exists added1. split; [reflexivity | assumption].
Qed.

Lemma adds_catch {A : Type} (P : Call -> Prop) (body : B A)
  (handler : Error -> B A) :
  adds P body -> (forall e, adds P (handler e)) -> adds P (catchB body handler).
Proof.
  intros Hbody Hhandler log. unfold catchB.
  destruct (Hbody log) as [added1 [Hlog1 Hadded1]].
  destruct (body log) as [[a|e] log1]; cbn [snd] in Hlog1; subst log1.
  - exists added1. split; [reflexivity | assumption].
  - destruct (Hhandler e (log ++ added1)) as [added2 [Hlog2 Hadded2]].
    exists (added1 ++ added2). rewrite Hlog2, app_assoc.
    split; [reflexivity | apply Forall_app; split; assumption].
Qed.

Section CaptureFacts.

Variable page : list Call -> Call -> Outcome bool.
Variable hostnameOf : string -> Outcome string.
Variable isoNow : string.
Variable resolve : string -> string.
Variable dirname : string -> string.

Abbreviation captureScreenshotPrimary :=
  (captureScreenshotPrimary page hostnameOf isoNow resolve dirname).
Abbreviation captureScreenshotSecondary :=
  (captureScreenshotSecondary page hostnameOf isoNow resolve dirname).

Lemma adds_call (P : Call -> Prop) (c : Call) : P c -> adds P (call page c).
Proof.
  intros Hc log. exists [c]. split; [reflexivity | repeat constructor; assumption].
Qed.

Lemma adds_pause (P : Call -> Prop) (ms : Z) : P (settle ms) -> adds P (pause ms).
Proof.
  intros Hc log. exists [settle ms].
  split; [reflexivity | repeat constructor; assumption].
Qed.

Lemma adds_parse (P : Call -> Prop) (url : string) :
  adds P (parseHostname hostnameOf url).
Proof.
  intros log. exists []. rewrite app_nil_r. split; [reflexivity | constructor].
Qed.

(** Neither a launch nor a close. *)
Definition inside (c : Call) : Prop := isLaunch c = false /\ isClose c = false.

Ltac inside_calls :=
  repeat first
    [ apply adds_bind; [|intros ?]
    | apply adds_catch; [|intros ?]
    | apply adds_call; split; reflexivity
    | apply adds_pause; split; reflexivity
    | apply adds_parse
    | apply adds_ret
    | apply adds_throw
    | match goal with
      | |- adds _ (if ?b then _ else _) => destruct b
      end ].

Lemma scrollAndShoot_inside (url : string) (options : ScreenshotOptions) :
  adds inside (scrollAndShoot page hostnameOf isoNow resolve dirname url options).
Proof. unfold scrollAndShoot. inside_calls. Qed.

Lemma openPage_inside (options : ScreenshotOptions) :
  adds inside (openPage page options).
Proof. unfold openPage. inside_calls. Qed.

(** A [try] block that is closed by [browser.close()], after a launch. *)
Lemma launch_then_finally {A : Type} (args : list string) (body : B A) :
  adds inside body ->
  let run := (call page (launch args) ;; finallyB body (call page close)) [] in
  match page [] (launch args) with
  | Thrown e => run = (Thrown e, [launch args])
  | Returned _ =>
      exists middle,
        snd run = launch args :: middle ++ [close] /\
        Forall inside middle /\
        fst run =
          match page (launch args :: middle) close with
          | Returned _ => fst (body [launch args])
          | Thrown e => Thrown e
          end
  end.
Proof.
  intros Hbody. cbn zeta. unfold bindB, finallyB, call. cbn [app].
  destruct (page [] (launch args)) as [b|e]; [|reflexivity].
  destruct (Hbody [launch args]) as [middle [Hlog Hmiddle]].
  exists middle.
  destruct (body [launch args]) as [outcome log1]. cbn [snd fst] in *.
  subst log1. cbn [app].
  destruct (page (launch args :: middle) close) as [b'|e'];
    repeat split; try assumption; reflexivity.
Qed.

(** X13.  In both copies, [captureScreenshot] closes the browser it
    launched: if the launch itself fails its error is thrown and nothing
    else is called; otherwise the calls made are the launch, calls that
    neither launch nor close, and one [close] at the very end, on success
    and on failure alike.  A [close] that throws replaces the outcome of
    the capture, even a successful one. *)
Theorem captureScreenshot_closes_browser (url : string)
  (options : ScreenshotOptions) (strategy : RetryStrategy) :
  let start := launch (launchArgs strategy) in
  forall run,
    run = captureScreenshotPrimary url options strategy [] \/
    run = captureScreenshotSecondary url options strategy [] ->
    match page [] start with
    | Thrown e => run = (Thrown e, [start])
    | Returned _ =>
        exists middle,
          snd run = start :: middle ++ [close] /\
          Forall (fun c => isLaunch c = false /\ isClose c = false) middle /\
          (forall e, page (start :: middle) close = Thrown e ->
                     fst run = Thrown e)
    end.
Proof.
  intros start run Hrun.
  assert (Hshape :
    match page [] start with
    | Thrown e => run = (Thrown e, [start])
    | Returned _ =>
        exists middle body,
          snd run = start :: middle ++ [close] /\
          Forall inside middle /\
          fst run =
            match page (start :: middle) close with
            | Returned _ => body
            | Thrown e => Thrown e
            end
    end).
  { destruct Hrun as [-> | ->].
    - unfold Browser.captureScreenshotPrimary.
      match goal with
      | |- context [finallyB ?body _] =>
          pose proof (launch_then_finally (launchArgs strategy) body) as Hl
      end.
      cbn zeta in Hl. fold start in Hl.
      destruct (page [] start); [|apply Hl].
      + destruct Hl as [middle [Hlog [Hmiddle Hfst]]].
        { pose proof (openPage_inside options).
          pose proof (scrollAndShoot_inside url options).
          inside_calls; assumption. }
        exists middle. eexists. repeat split; eassumption.
      + pose proof (openPage_inside options).
        pose proof (scrollAndShoot_inside url options).
        inside_calls; assumption.
    - unfold Browser.captureScreenshotSecondary.
      match goal with
      | |- context [finallyB ?body _] =>
          pose proof (launch_then_finally (launchArgs strategy) body) as Hl
      end.
      cbn zeta in Hl. fold start in Hl.
      destruct (page [] start); [|apply Hl].
      + destruct Hl as [middle [Hlog [Hmiddle Hfst]]].
        { pose proof (openPage_inside options).
          pose proof (scrollAndShoot_inside url options).
          inside_calls; assumption. }
        exists middle. eexists. repeat split; eassumption.
      + pose proof (openPage_inside options).
        pose proof (scrollAndShoot_inside url options).
        inside_calls; assumption. }
  destruct (page [] start); [|assumption].
  destruct Hshape as [middle [body [Hlog [Hmiddle Hfst]]]].
  exists middle. repeat split; try assumption.
  intros e He. rewrite Hfst, He. reflexivity.
Qed.

(** A sequence returns only if its last part returns, and then the log
    is the one its last part left. *)
Lemma bind_returned {A C : Type} (c : B A) (k : A -> B C) (log : list Call)
  (p : C) :
  fst (bindB c k log) = Returned p ->
  exists a log',
    fst (k a log') = Returned p /\ snd (bindB c k log) = snd (k a log').
Proof.
  unfold bindB. destruct (c log) as [[a|e] log']; [|discriminate].
  intros Hret. exists a, log'. split; [assumption | reflexivity].
Qed.

Lemma scrollAndShoot_returned (url : string) (options : ScreenshotOptions)
  (log : list Call) (p : string) :
  fst (scrollAndShoot page hostnameOf isoNow resolve dirname url options log)
    = Returned p ->
  exists hostname,
    hostnameOf url = Returned hostname /\
    p = resolve (fileNameFor isoNow (outputPath options) hostname) /\
    snd (scrollAndShoot page hostnameOf isoNow resolve dirname url options log)
    = log ++ [ evaluateScroll; mkdir (dirname p);
               screenshot p (match fullPage options with
                             | Some b => b
                             | None => true
                             end) ].
Proof.
  unfold scrollAndShoot, bindB, call, parseHostname, retB.
  destruct (page log evaluateScroll) as [b1|e1]; [|discriminate].
  destruct (hostnameOf url) as [hostname|e2]; [|discriminate].
  destruct (page _ (mkdir _)) as [b3|e3]; [|discriminate].
  destruct (page _ (screenshot _ _)) as [b4|e4]; [|discriminate].
  cbn [fst snd]. intros Hp. injection Hp as <-.
  exists hostname. repeat split. rewrite <- !app_assoc. reflexivity.
Qed.

(** A [try] block whose last step is [scrollAndShoot]. *)
Definition endsWithShoot (url : string) (options : ScreenshotOptions)
  (body : B string) : Prop :=
  forall log p,
    fst (body log) = Returned p ->
    exists log',
      fst (scrollAndShoot page hostnameOf isoNow resolve dirname url options log')
        = Returned p /\
      snd (body log) =
      snd (scrollAndShoot page hostnameOf isoNow resolve dirname url options log').

Lemma endsWithShoot_here (url : string) (options : ScreenshotOptions) :
  endsWithShoot url options
    (scrollAndShoot page hostnameOf isoNow resolve dirname url options).
Proof. intros log p Hret. exists log. split; [assumption | reflexivity]. Qed.

Lemma endsWithShoot_after {A : Type} (url : string)
  (options : ScreenshotOptions) (c : B A) (k : A -> B string) :
  (forall a, endsWithShoot url options (k a)) ->
  endsWithShoot url options (bindB c k).
Proof.
  intros Hk log p Hret.
  destruct (bind_returned c k log p Hret) as [a [log1 [Hret1 Hlog1]]].
  destruct (Hk a log1 p Hret1) as [log2 [Hret2 Hlog2]].
  exists log2. split; [assumption | congruence].
Qed.

(** What either copy does when it returns. *)
Lemma capture_returned (args : list string) (body : B string)
  (url : string) (options : ScreenshotOptions) (p : string) :
  endsWithShoot url options body ->
  let run :=
    (call page (launch args) ;; finallyB body (call page close)) [] in
  fst run = Returned p ->
  exists hostname earlier,
    hostnameOf url = Returned hostname /\
    p = resolve (fileNameFor isoNow (outputPath options) hostname) /\
    snd run =
      earlier ++ [ evaluateScroll; mkdir (dirname p);
                   screenshot p (match fullPage options with
                                 | Some b => b
                                 | None => true
                                 end);
                   close ].
Proof.
  intros Hends. cbn zeta. intros Hret.
  destruct (bind_returned _ _ _ _ Hret) as [b [log1 [Hret1 Hlog1]]].
  rewrite Hlog1. clear Hret Hlog1.
  unfold finallyB in *.
  destruct (body log1) as [outcome log2] eqn:Hbody.
  unfold call in *.
  destruct (page log2 close) as [b'|e']; [|discriminate].
  cbn [fst snd] in *. subst outcome.
  destruct (Hends log1 p) as [log3 [Hret3 Hlog3]];
    [rewrite Hbody; reflexivity|].
  rewrite Hbody in Hlog3. cbn [snd] in Hlog3.
  destruct (scrollAndShoot_returned url options log3 p Hret3)
    as [hostname [Hhost [Hp Hlog]]].
  exists hostname, log3. repeat split; try assumption.
  rewrite Hlog3, Hlog, <- app_assoc. reflexivity.
Qed.

Lemma replaceChars_length (targets : list ascii) (c : ascii) (s : string) :
  String.length (replaceChars targets c s) = String.length s.
Proof. induction s as [|a rest IH]; cbn; [reflexivity | rewrite IH; reflexivity]. Qed.

Lemma replaceChars_clean (targets : list ascii) (c x : ascii) (s : string) :
  In x targets -> x <> c ->
  ~ In x (list_ascii_of_string (replaceChars targets c s)).
Proof.
  intros Htarget Hne. induction s as [|a rest IH]; cbn; [tauto|].
  intros [Hhead|Htail]; [|apply IH; assumption].
  destruct (existsb (Ascii.eqb a) targets) eqn:Hex.
  - apply Hne. symmetry. assumption.
  - subst a. assert (existsb (Ascii.eqb x) targets = true).
    { apply existsb_exists. exists x. split; [assumption | apply Ascii.eqb_refl]. }
    congruence.
Qed.

(** X15.  When either copy of [captureScreenshot] returns, the path it
    returns is the resolved file name, it ends the log with the scroll,
    the creation of that path's directory, the screenshot written to that
    very path and the close, and the URL had a host name.  A generated
    file name is [v0-review-<host>-<time>.png] in which the host has its
    dots, and the time its dots and colons, replaced by dashes. *)
Theorem captureScreenshot_returns_written_path (url : string)
  (options : ScreenshotOptions) (strategy : RetryStrategy) :
  (forall run p,
     run = captureScreenshotPrimary url options strategy [] \/
     run = captureScreenshotSecondary url options strategy [] ->
     fst run = Returned p ->
     exists hostname earlier,
       hostnameOf url = Returned hostname /\
       p = resolve (fileNameFor isoNow (outputPath options) hostname) /\
       snd run =
         earlier ++ [ evaluateScroll; mkdir (dirname p);
                      screenshot p (match fullPage options with
                                    | Some b => b
                                    | None => true
                                    end);
                      close ])
  /\
  (forall hostname,
     exists host time,
       fileNameFor isoNow None hostname =
         ("v0-review-" ++ host ++ "-" ++ time ++ ".png")%string /\
       String.length host = String.length hostname /\
       String.length time = String.length isoNow /\
       ~ In "."%char (list_ascii_of_string host) /\
       ~ In "."%char (list_ascii_of_string time) /\
       ~ In ":"%char (list_ascii_of_string time)).
Proof.
  split.
  - intros run p [-> | ->] Hret.
    + unfold Browser.captureScreenshotPrimary in *.
      eapply (capture_returned _ _ url options); [|exact Hret].
      do 4 (apply endsWithShoot_after; intros ?).
      apply endsWithShoot_here.
    + unfold Browser.captureScreenshotSecondary in *.
      eapply (capture_returned _ _ url options); [|exact Hret].
      do 3 (apply endsWithShoot_after; intros ?).
      apply endsWithShoot_here.
  - intros hostname. unfold fileNameFor.
    eexists. eexists. split; [reflexivity|].
    repeat split; try apply replaceChars_length;
      apply replaceChars_clean; cbn; try tauto; discriminate.
Qed.

(** Run the calls of an unfolded capture, one after the other, under the
    assumption that navigation fails and the other calls succeed. *)
Ltac run_calls Hgoto Hother :=
  repeat (cbn [app fst snd negb];
          match goal with
          | |- context [page ?l (goto ?u ?wu ?t)] => rewrite (Hgoto l u wu t)
          | |- context [page ?l ?c] =>
              lazymatch c with
              | evaluateHasContent => fail
              | _ => idtac
              end;
              let b := fresh "b" in
              let Hb := fresh "Hb" in
              pose proof (Hother l c) as Hb; cbn beta iota in Hb;
              destruct Hb as [b Hb]; rewrite Hb; clear Hb
          end).

(** X14.  The two copies differ on a failed navigation.  In the second
    copy the error of [page.goto] is thrown as it is, after the browser is
    closed, and the page is neither probed nor scrolled.  In the first
    copy the page is probed for text: without text the navigation error is
    thrown all the same; with text the capture goes on as if the page had
    loaded, and returns the screenshot path when the remaining calls
    succeed. *)
Theorem navigation_failure_policy (url : string) (options : ScreenshotOptions)
  (strategy : RetryStrategy) (navError : Error) :
  (forall log u wu t, page log (goto u wu t) = Thrown navError) ->
  (forall log c,
     match c with
     | goto _ _ _ | evaluateHasContent => True
     | _ => exists b, page log c = Returned b
     end) ->
  let secondary := captureScreenshotSecondary url options strategy [] in
  let primary := captureScreenshotPrimary url options strategy [] in
  (fst secondary = Thrown navError /\
   ~ In evaluateHasContent (snd secondary) /\
   ~ In evaluateScroll (snd secondary) /\
   In close (snd secondary)) /\
  ((forall log, page log evaluateHasContent = Returned false) ->
   fst primary = Thrown navError /\
   ~ In evaluateScroll (snd primary) /\
   In close (snd primary)) /\
  ((forall log, page log evaluateHasContent = Returned true) ->
   forall hostname,
     hostnameOf url = Returned hostname ->
     fst primary =
       Returned (resolve (fileNameFor isoNow (outputPath options) hostname)) /\
     In close (snd primary)).
Proof.
  intros Hgoto Hother. cbn zeta. split; [|split].
  - unfold Browser.captureScreenshotSecondary, openPage, scrollAndShoot,
      parseHostname, pause, bindB, finallyB, catchB, call, retB, throwB.
    run_calls Hgoto Hother.
    repeat split; cbn; intuition discriminate.
  - intros Hprobe.
    unfold Browser.captureScreenshotPrimary, openPage, scrollAndShoot,
      parseHostname, pause, bindB, finallyB, catchB, call, retB, throwB.
    run_calls Hgoto Hother. rewrite Hprobe.
    run_calls Hgoto Hother.
    repeat split; cbn; intuition discriminate.
  - intros Hprobe hostname Hhost.
    unfold Browser.captureScreenshotPrimary, openPage, scrollAndShoot,
      parseHostname, pause, bindB, finallyB, catchB, call, retB, throwB.
    rewrite Hhost.
    destruct (String.eqb (name strategy) "Dynamic Content"
              || String.eqb (name strategy) "SPA Mode");
      destruct (0 <? waitTime strategy);
      run_calls Hgoto Hother; rewrite Hprobe;
      run_calls Hgoto Hother;
      (split; [reflexivity | cbn; tauto]).
Qed.

End CaptureFacts.

Lemma captureScreenshot_closes_browser_witness :
  exists middle,
    snd (Browser.captureScreenshotPrimary BrowserSamples.pageWorks
           BrowserSamples.hostnameOf BrowserSamples.isoNow
           BrowserSamples.resolve BrowserSamples.dirname
           "https://example.com" BrowserSamples.noOptions
           BrowserSamples.standard [])
    = launch (launchArgs BrowserSamples.standard) :: middle ++ [close].
Proof.
  destruct (captureScreenshot_closes_browser BrowserSamples.pageWorks
              BrowserSamples.hostnameOf BrowserSamples.isoNow
              BrowserSamples.resolve BrowserSamples.dirname
              "https://example.com" BrowserSamples.noOptions
              BrowserSamples.standard _ (or_introl eq_refl))
    as [middle [Hlog _]].
  exists middle. exact Hlog.
Defined.

Lemma navigation_failure_policy_witness :
  fst (Browser.captureScreenshotSecondary
         (BrowserSamples.navigationFails BrowserSamples.timedOut true)
         BrowserSamples.hostnameOf BrowserSamples.isoNow
         BrowserSamples.resolve BrowserSamples.dirname
         "https://example.com" BrowserSamples.noOptions
         BrowserSamples.standard [])
  = Thrown BrowserSamples.timedOut /\
  fst (Browser.captureScreenshotPrimary
         (BrowserSamples.navigationFails BrowserSamples.timedOut true)
         BrowserSamples.hostnameOf BrowserSamples.isoNow
         BrowserSamples.resolve BrowserSamples.dirname
         "https://example.com" BrowserSamples.noOptions
         BrowserSamples.standard [])
  = Returned "/work/v0-review-example-com-2025-02-06T10-20-30-123Z.png"%string.
Proof.
  assert (Hother : forall log c,
            match c with
            | goto _ _ _ | evaluateHasContent => True
            | _ => exists b,
                BrowserSamples.navigationFails BrowserSamples.timedOut true log c
                = Returned b
            end)
    by (intros log c; destruct c; cbn; eauto).
  destruct (navigation_failure_policy
              (BrowserSamples.navigationFails BrowserSamples.timedOut true)
              BrowserSamples.hostnameOf BrowserSamples.isoNow
              BrowserSamples.resolve BrowserSamples.dirname
              "https://example.com" BrowserSamples.noOptions
              BrowserSamples.standard BrowserSamples.timedOut
              (fun _ _ _ _ => eq_refl) Hother)
    as [[Hsecondary _] [_ Hprimary]].
  split; [exact Hsecondary|].
  exact (proj1 (Hprimary (fun _ => eq_refl) "example.com"%string eq_refl)).
Defined.

End BrowserFacts.

(** ** The pauses between capture attempts *)

Module BackoffFacts.
Import Js EnhancedScreenshotCapture CaptureFacts Browser.

Section RetryFacts.

Variable strategies : list RetryStrategy.
Variable captureScreenshot :
  list Event -> string -> ScreenshotOptions -> RetryStrategy -> Outcome string.
Variable url : string.
Variable options : ScreenshotOptions.
Variable retries : Z.

Hypothesis strategies_nonempty : strategies <> [].

Abbreviation attemptLoop :=
  (attemptLoop strategies captureScreenshot url options retries).

Lemma pausesOf_app (a b : list Event) :
  pausesOf (a ++ b) = pausesOf a ++ pausesOf b.
Proof. unfold pausesOf. apply flat_map_app. Qed.

Lemma attemptsOf_app (a b : list Event) :
  attemptsOf (a ++ b) = attemptsOf a ++ attemptsOf b.
Proof. unfold attemptsOf. apply filter_app. Qed.

(** The pauses of the run of the loop from a given attempt index on. *)
Lemma attemptLoop_pauses (n : nat) :
  forall (attempt : Z) (lastError : option Error) (log : list Event),
    Z.to_nat (retries + 1 - attempt) = n ->
    0 <= attempt ->
    exists events,
      snd (attemptLoop attempt lastError log) = log ++ events /\
      pausesOf events =
        map (fun k => 2000 * (attempt + Z.of_nat k + 1))
            (seq 0 (List.length (attemptsOf events) - 1)) /\
      (List.length (attemptsOf events) <= n)%nat /\
      (n = 0%nat -> events = []) /\
      ((0 < n)%nat ->
       exists earlier i strategy outcome,
         events = earlier ++ [Attempt i strategy outcome]).
Proof.
  induction n as [|n IH]; intros attempt lastError log Hmeasure Hpos;
    rewrite attemptLoop_step.
  - destruct (Z.leb_spec attempt retries); [lia|].
    exists []. cbn [fst snd]. rewrite app_nil_r.
    repeat split; try reflexivity; try lia.
  - destruct (Z.leb_spec attempt retries); [|lia].
    destruct (strategyFor_defined strategies strategies_nonempty attempt Hpos)
      as [strategy Hstrategy].
    rewrite Hstrategy.
    destruct (captureScreenshot log url options strategy) as [path|error].
    + exists [Attempt attempt strategy (Returned path)]. cbn [fst snd].
      repeat split; try reflexivity; try (cbn; lia); try discriminate.
      intros _. exists [], attempt, strategy, (Returned path). reflexivity.
    + unfold backoff.
      destruct (Z.ltb_spec attempt retries) as [Hmore|Hlast].
      * destruct (IH (attempt + 1) (Some error)
                    ((log ++ [Attempt attempt strategy (Thrown error)])
                       ++ [Waited ((attempt + 1) * 2000)]))
          as [events [Hlog [Hpauses [Hcount [_ Hends]]]]]; [lia | lia |].
        destruct Hends as [earlier [i [s [o Hevents]]]]; [lia|].
        assert (Hsome : (0 < List.length (attemptsOf events))%nat).
        { rewrite Hevents, attemptsOf_app, length_app. cbn. lia. }
        exists (Attempt attempt strategy (Thrown error)
                  :: Waited ((attempt + 1) * 2000) :: events).
        split; [rewrite Hlog, <- !app_assoc; reflexivity|].
        split.
        { cbn [pausesOf flat_map app attemptsOf filter isAttempt List.length].
          fold (pausesOf events). fold (attemptsOf events).
          rewrite Hpauses.
          replace (S (List.length (attemptsOf events)) - 1)%nat
            with (S (List.length (attemptsOf events) - 1)) by lia.
          cbn [seq map]. f_equal; [lia|].
          rewrite <- seq_shift, map_map. apply map_ext. intros k. lia. }
        split; [cbn [attemptsOf filter isAttempt List.length];
                fold (attemptsOf events); lia|].
        split; [discriminate|].
        intros _. rewrite Hevents.
        exists (Attempt attempt strategy (Thrown error)
                  :: Waited ((attempt + 1) * 2000) :: earlier), i, s, o.
        reflexivity.
      * destruct (IH (attempt + 1) (Some error)
                    (log ++ [Attempt attempt strategy (Thrown error)]))
          as [events [Hlog [_ [_ [Hnone _]]]]]; [lia | lia |].
        assert (n = 0%nat) by lia.
        rewrite (Hnone ltac:(assumption)) in Hlog. rewrite app_nil_r in Hlog.
        exists [Attempt attempt strategy (Thrown error)].
        split; [exact Hlog|].
        repeat split; try reflexivity; try (cbn; lia); try discriminate.
        intros _. exists [], attempt, strategy, (Thrown error). reflexivity.
Qed.

Lemma alternation_step (events : list Event) (first : Event) (ms : Z) :
  isAttempt first = true ->
  map isAttempt events = map Nat.even (seq 0 (List.length events)) ->
  map isAttempt (first :: Waited ms :: events) =
  map Nat.even (seq 0 (List.length (first :: Waited ms :: events))).
Proof.
  intros Hfirst Hevents. cbn [map List.length seq isAttempt].
  rewrite Hfirst, Hevents. f_equal. f_equal.
  rewrite <- (seq_shift _ 1), <- (seq_shift _ 0), !map_map.
  reflexivity.
Qed.

(** The events of the run of the loop from a given attempt index on take
    turns: an attempt, a pause, an attempt, ... *)
Lemma attemptLoop_alternates (n : nat) :
  forall (attempt : Z) (lastError : option Error) (log : list Event),
    Z.to_nat (retries + 1 - attempt) = n ->
    0 <= attempt ->
    exists events,
      snd (attemptLoop attempt lastError log) = log ++ events /\
      map isAttempt events = map Nat.even (seq 0 (List.length events)).
Proof.
  induction n as [|n IH]; intros attempt lastError log Hmeasure Hpos;
    rewrite attemptLoop_step.
  - destruct (Z.leb_spec attempt retries); [lia|].
    exists []. cbn [fst snd]. rewrite app_nil_r. split; reflexivity.
  - destruct (Z.leb_spec attempt retries); [|lia].
    destruct (strategyFor_defined strategies strategies_nonempty attempt Hpos)
      as [strategy Hstrategy].
    rewrite Hstrategy.
    destruct (captureScreenshot log url options strategy) as [path|error].
    + exists [Attempt attempt strategy (Returned path)]. split; reflexivity.
    + unfold backoff.
      destruct (Z.ltb_spec attempt retries) as [Hmore|Hlast].
      * destruct (IH (attempt + 1) (Some error)
                    ((log ++ [Attempt attempt strategy (Thrown error)])
                       ++ [Waited ((attempt + 1) * 2000)]))
          as [events [Hlog Hturns]]; [lia | lia |].
        exists (Attempt attempt strategy (Thrown error)
                  :: Waited ((attempt + 1) * 2000) :: events).
        split; [rewrite Hlog, <- !app_assoc; reflexivity|].
        apply alternation_step; [reflexivity | assumption].
      * rewrite attemptLoop_step.
        destruct (Z.leb_spec (attempt + 1) retries); [lia|].
        exists [Attempt attempt strategy (Thrown error)].
        split; reflexivity.
Qed.

End RetryFacts.

(** X12.  With a retry budget [N >= 0] and a table that is not empty, in
    either copy: the events of a run take turns, an attempt first, then a
    pause, then an attempt, and so on, so exactly one pause lies between
    two consecutive attempts; the last event is an attempt, so no pause
    follows the last attempt; the pauses are 2000 ms, 4000 ms, 6000 ms,
    ... in this order.  So no pause is longer than [2000 * N] ms and a run
    of [N + 1] failures waits [N] times. *)
Theorem retry_backoff_schedule (strategies : list RetryStrategy)
  (captureScreenshot :
     list Event -> string -> ScreenshotOptions -> RetryStrategy -> Outcome string)
  (url : string) (options : ScreenshotOptions) :
  strategies <> [] ->
  let N := match EnhancedScreenshotCapture.retries options with
           | Some n => n
           | None => 3
           end in
  0 <= N ->
  let log := snd (captureWithRetryOver strategies captureScreenshot url options) in
  pausesOf log =
    map (fun k => 2000 * (Z.of_nat k + 1))
        (seq 0 (List.length (attemptsOf log) - 1)) /\
  List.length (pausesOf log) = (List.length (attemptsOf log) - 1)%nat /\
  (exists earlier i strategy outcome,
     log = earlier ++ [Attempt i strategy outcome]) /\
  Forall (fun ms => 2000 <= ms <= 2000 * N) (pausesOf log) /\
  map isAttempt log = map Nat.even (seq 0 (List.length log)) /\
  (forall n ev,
     nth_error log n = Some ev -> isAttempt ev = Nat.even n).
Proof.
  intros Hne N Hbudget log.
  destruct (attemptLoop_pauses strategies captureScreenshot url options N Hne
              (Z.to_nat (N + 1)) 0 None [])
    as [events [Hlog [Hpauses [Hcount [_ Hends]]]]]; [f_equal; lia | lia |].
  destruct (attemptLoop_alternates strategies captureScreenshot url options N
              Hne (Z.to_nat (N + 1)) 0 None [])
    as [events' [Hlog' Hturns]]; [f_equal; lia | lia |].
  change (log = events) in Hlog. change (log = events') in Hlog'.
  rewrite <- Hlog' in Hturns. rewrite Hlog.
  assert (Hschedule :
    pausesOf events =
    map (fun k => 2000 * (Z.of_nat k + 1))
        (seq 0 (List.length (attemptsOf events) - 1))).
  { rewrite Hpauses. apply map_ext. intros k. lia. }
  split; [exact Hschedule|].
  split; [rewrite Hschedule, length_map, length_seq; reflexivity|].
  split; [apply Hends; lia|].
  split.
  { rewrite Hschedule. apply Forall_forall. intros ms Hin.
    apply in_map_iff in Hin. destruct Hin as [k [<- Hk]].
    apply in_seq in Hk. lia. }
  rewrite <- Hlog.
  split; [exact Hturns|].
  intros n ev Hnth.
  pose proof (map_nth_error isAttempt n log Hnth) as Hmapped.
  rewrite Hturns in Hmapped.
  assert (Hlt : (n < List.length log)%nat).
  { apply nth_error_Some. rewrite Hnth. discriminate. }
  rewrite (map_nth_error Nat.even n (seq 0 (List.length log)) (d := n))
    in Hmapped.
  - injection Hmapped as <-. reflexivity.
  - rewrite nth_error_nth' with (d := 0%nat) by (rewrite length_seq; assumption).
    rewrite seq_nth by assumption. reflexivity.
Qed.

Lemma retry_backoff_schedule_witness :
  let log :=
    snd (Secondary.captureWithRetry Samples.neverLoads
           "https://example.com" (Samples.withRetries 3)) in
  pausesOf log = [2000; 4000; 6000] /\
  map isAttempt log = [true; false; true; false; true; false; true].
Proof.
  intros log.
  destruct (retry_backoff_schedule Secondary.DEFAULT_RETRY_STRATEGIES
              Samples.neverLoads "https://example.com"
              (Samples.withRetries 3)
              ltac:(discriminate) ltac:(cbn; lia))
    as [Hpauses [_ [_ [_ [Hturns _]]]]].
  split; [exact Hpauses | exact Hturns].
Defined.

End BackoffFacts.

(** ** Escalation up to the first attempt that works *)

Module EscalationFacts.
Import Js EnhancedScreenshotCapture CaptureFacts BackoffFacts.

Section RetryFacts.

Variable strategies : list RetryStrategy.
Variable captureScreenshot :
  list Event -> string -> ScreenshotOptions -> RetryStrategy -> Outcome string.
Variable url : string.
Variable options : ScreenshotOptions.
Variable retries : Z.
Variable k : nat.
Variable p : string.

Hypothesis strategies_nonempty : strategies <> [].
Hypothesis within_budget : Z.of_nat k <= retries.
Hypothesis fails_before :
  forall history strategy,
    (List.length (attemptsOf history) < k)%nat ->
    exists e, captureScreenshot history url options strategy = Thrown e.
Hypothesis works_then :
  forall history strategy,
    List.length (attemptsOf history) = k ->
    captureScreenshot history url options strategy = Returned p.

Lemma attemptLoop_reaches (todo : nat) :
  forall (done : nat) (lastError : option Error) (log : list Event),
    (done + todo = k)%nat ->
    List.length (attemptsOf log) = done ->
    exists earlier strategy,
      attemptLoop strategies captureScreenshot url options retries
        (Z.of_nat done) lastError log
      = (Returned p,
         log ++ earlier ++ [Attempt (Z.of_nat k) strategy (Returned p)]) /\
      List.length (attemptsOf earlier) = todo /\
      strategyFor strategies (Z.of_nat k) = Some strategy.
Proof.
  induction todo as [|todo IH]; intros done lastError log Hsum Hdone;
    rewrite attemptLoop_step;
    (destruct (Z.leb_spec (Z.of_nat done) retries); [|lia]);
    destruct (strategyFor_defined strategies strategies_nonempty
                (Z.of_nat done) ltac:(lia)) as [strategy Hstrategy];
    rewrite Hstrategy.
  - assert (Hk : done = k) by lia. rewrite Hk in *.
    rewrite (works_then log strategy Hdone).
    exists [], strategy. repeat split; assumption.
  - destruct (fails_before log strategy ltac:(lia)) as [e He]. rewrite He.
    destruct (backoff_appends strategies retries (Z.of_nat done)
                (log ++ [Attempt (Z.of_nat done) strategy (Thrown e)]))
      as [pause [Hbackoff [Hnone _]]].
    rewrite Hbackoff.
    replace (Z.of_nat done + 1) with (Z.of_nat (S done)) by lia.
    destruct (IH (S done) (Some e)
                ((log ++ [Attempt (Z.of_nat done) strategy (Thrown e)]) ++ pause))
      as [earlier [final [Hrun [Hcount Hfinal]]]].
    + lia.
    + rewrite !attemptsOf_app, !length_app, Hnone, Hdone. cbn. lia.
    + exists ((Attempt (Z.of_nat done) strategy (Thrown e) :: pause) ++ earlier),
             final.
      split; [rewrite Hrun, <- !app_assoc; reflexivity|].
      split; [|assumption].
      rewrite attemptsOf_app, length_app, Hcount.
      change (Attempt (Z.of_nat done) strategy (Thrown e) :: pause)
        with ([Attempt (Z.of_nat done) strategy (Thrown e)] ++ pause).
      rewrite attemptsOf_app, length_app, Hnone. cbn. lia.
Qed.

End RetryFacts.

(** X19.  Escalation stops at the first attempt that works: if the
    attempts made with fewer than [k] attempts behind them fail and the
    one made with [k] attempts behind it returns a path, and [k] is
    within the retry budget, then [captureWithRetry] returns that path
    after exactly [k + 1] attempts, the last one made with
    [strategies[min(k, length - 1)]].  With the second copy's table and
    the default budget of 3 this is the escalation from Standard to
    Minimal. *)
Theorem capture_returns_first_working_attempt
  (strategies : list RetryStrategy)
  (captureScreenshot :
     list Event -> string -> ScreenshotOptions -> RetryStrategy -> Outcome string)
  (url : string) (options : ScreenshotOptions) (k : nat) (p : string) :
  strategies <> [] ->
  Z.of_nat k <= match retries options with Some n => n | None => 3 end ->
  (forall history strategy,
     (List.length (attemptsOf history) < k)%nat ->
     exists e, captureScreenshot history url options strategy = Thrown e) ->
  (forall history strategy,
     List.length (attemptsOf history) = k ->
     captureScreenshot history url options strategy = Returned p) ->
  let run := captureWithRetryOver strategies captureScreenshot url options in
  fst run = Returned p /\
  List.length (attemptsOf (snd run)) = S k /\
  exists earlier strategy,
    snd run = earlier ++ [Attempt (Z.of_nat k) strategy (Returned p)] /\
    get strategies (Z.min (Z.of_nat k) (length strategies - 1)) = Some strategy.
Proof.
  intros Hne Hbudget Hfails Hworks run.
  destruct (attemptLoop_reaches strategies captureScreenshot url options
              (match retries options with Some n => n | None => 3 end)
              k p Hne Hbudget Hfails Hworks k 0%nat None [])
    as [earlier [strategy [Hrun [Hcount Hstrategy]]]];
    [reflexivity | reflexivity |].
  change (run = (Returned p,
                 [] ++ earlier ++ [Attempt (Z.of_nat k) strategy (Returned p)]))
    in Hrun.
  rewrite Hrun. cbn [fst snd app]. split; [reflexivity|].
  split.
  - rewrite attemptsOf_app, length_app, Hcount. cbn. lia.
  - exists earlier, strategy. split; [reflexivity | exact Hstrategy].
Qed.

Lemma capture_returns_first_working_attempt_witness :
  let oracle : list Event -> string -> ScreenshotOptions -> RetryStrategy
               -> Outcome string :=
    fun history _ _ _ =>
      if (List.length (attemptsOf history) <? 3)%nat
      then Thrown (mkError "Navigation timeout of 60000 ms exceeded")
      else Returned "/work/shot.png"%string in
  fst (Secondary.captureWithRetry oracle "https://example.com"
         BrowserSamples.noOptions)
  = Returned "/work/shot.png"%string /\
  strategyNames (snd (Secondary.captureWithRetry oracle "https://example.com"
                        BrowserSamples.noOptions))
  = ["Standard"; "Quick DOM"; "Extended Wait"; "Minimal"]%string.
Proof.
  intros oracle.
  destruct (capture_returns_first_working_attempt
              Secondary.DEFAULT_RETRY_STRATEGIES oracle "https://example.com"
              BrowserSamples.noOptions 3 "/work/shot.png"
              ltac:(discriminate) ltac:(cbn; lia)) as [Hpath _].
  - intros history strategy Hfew. unfold oracle.
    destruct (Nat.ltb_spec (List.length (attemptsOf history)) 3);
      [eauto | lia].
  - intros history strategy Hthree. unfold oracle. rewrite Hthree. reflexivity.
  - split; [exact Hpath | reflexivity].
Defined.

End EscalationFacts.
